(** * sendmail_phone_client: device agent and IP rotation

    A shallow embedding of [ip_manager.py] and of the [DeviceAgent] class of
    [main.py].  Python text is modelled by [string] (byte strings: the
    whitespace, digit and line-break classes are the ASCII part of Python's),
    the outside world (HTTP services, subprocesses, the clock, the history
    file) by oracles and a mutable store inside a [World], and every
    function of the program by a computation in a state-and-exception monad
    that also records the externally visible events it performs. *)

From Stdlib Require Import String Ascii List ZArith Arith Bool Lia DecimalString.
From Stdlib Require Import Permutation.
From Equations Require Import Equations.
Import ListNotations.

Local Open Scope string_scope.
Local Open Scope list_scope.

(* ===================================================================== *)
(** * Python string primitives *)
(* ===================================================================== *)

Module PyStr.

(** [str.isspace] on one ASCII character: TAB, LF, VT, FF, CR, the four
    separators FS, GS, RS, US and the space. *)
Definition is_space (c : ascii) : bool :=
  let n := nat_of_ascii c in
  ((9 <=? n) && (n <=? 13) || (28 <=? n) && (n <=? 32))%nat.

Fixpoint lstrip (s : string) : string :=
  match s with
  | EmptyString => EmptyString
  | String c r => if is_space c then lstrip r else s
  end.

Fixpoint rstrip (s : string) : string :=
  match s with
  | EmptyString => EmptyString
  | String c r =>
      match rstrip r with
      | EmptyString => if is_space c then EmptyString else String c EmptyString
      | r' => String c r'
      end
  end.

(** [s.strip()] *)
Definition strip (s : string) : string := rstrip (lstrip s).

(** Python truthiness of a [str]: the empty string is falsy. *)
Definition truthy (s : string) : bool :=
  match s with EmptyString => false | _ => true end.

(** [s.split('.')]: never empty, [''.split('.') == ['']]. *)
Fixpoint split_dot (s : string) : list string :=
  match s with
  | EmptyString => [EmptyString]
  | String c r =>
      if Ascii.eqb c "." then EmptyString :: split_dot r
      else match split_dot r with
           | [] => [String c EmptyString]
           | p :: ps => String c p :: ps
           end
  end.

Definition is_digit (c : ascii) : bool :=
  let n := nat_of_ascii c in ((48 <=? n) && (n <=? 57))%nat.

Definition digit_val (c : ascii) : Z := Z.of_nat (nat_of_ascii c - 48).

(** The digit part of an [int()] literal in base 10: decimal digits, with
    single underscores allowed between two digits. [prev] tells whether the
    previous character was a digit. *)
Fixpoint int_digits (acc : Z) (prev : bool) (s : string) : option Z :=
  match s with
  | EmptyString => if prev then Some acc else None
  | String c r =>
      if is_digit c then int_digits (10 * acc + digit_val c) true r
      else if Ascii.eqb c "_" && prev then int_digits acc false r
      else None
  end.

(** The white space [int()] skips around an ASCII literal: what [isspace]
    of C accepts, HT to CR and the space.  The separators FS to US, which
    [str.strip] removes, are not among it. *)
Definition is_c_space (c : ascii) : bool :=
  let n := nat_of_ascii c in
  ((9 <=? n) && (n <=? 13) || (n =? 32))%nat.

Fixpoint lstrip_with (sp : ascii -> bool) (s : string) : string :=
  match s with
  | EmptyString => EmptyString
  | String c r => if sp c then lstrip_with sp r else s
  end.

Fixpoint rstrip_with (sp : ascii -> bool) (s : string) : string :=
  match s with
  | EmptyString => EmptyString
  | String c r =>
      match rstrip_with sp r with
      | EmptyString => if sp c then EmptyString else String c EmptyString
      | r' => String c r'
      end
  end.

(** The number of digits of a literal, underscores not counted. *)
Fixpoint digit_count (s : string) : Z :=
  match s with
  | EmptyString => 0
  | String c r => (if is_digit c then 1 else 0) + digit_count r
  end.

(** [sys.get_int_max_str_digits()], as it is by default. *)
Definition max_str_digits : Z := 4300.

(** [int(s)] for a [str] argument in the ASCII range: the white space of
    [is_c_space] around the literal is dropped, one sign is accepted, and
    a literal of more than [max_str_digits] digits is refused; [None]
    stands for [ValueError]. *)
Definition py_int (s : string) : option Z :=
  let limited (r : string) :=
    if (digit_count r <=? max_str_digits)%Z then int_digits 0 false r else None in
  match rstrip_with is_c_space (lstrip_with is_c_space s) with
  | String "+" r => limited r
  | String "-" r => option_map Z.opp (limited r)
  | r => limited r
  end.

(** Line boundaries of [str.splitlines] in the ASCII range:
    LF, VT, FF, CR, FS, GS, RS. *)
Definition is_linebreak (c : ascii) : bool :=
  let n := nat_of_ascii c in
  ((10 <=? n) && (n <=? 13) || (28 <=? n) && (n <=? 30))%nat.

(** [s.splitlines()]: a CR LF pair is one boundary, and a final boundary
    does not open an empty last line. *)
Fixpoint splitlines (s : string) : list string :=
  match s with
  | EmptyString => []
  | String c r =>
      if is_linebreak c then
        EmptyString ::
          (if Ascii.eqb c "013" then
             match r with
             | String "010" r' => splitlines r'
             | _ => splitlines r
             end
           else splitlines r)
      else match splitlines r with
           | [] => [String c EmptyString]
           | l :: ls => String c l :: ls
           end
  end.

Definition single_line (s : string) : Prop :=
  forall c, In c (list_ascii_of_string s) -> is_linebreak c = false.

Fixpoint single_lineb (s : string) : bool :=
  match s with
  | EmptyString => true
  | String c r => negb (is_linebreak c) && single_lineb r
  end.

(** The text of a file that holds one entry per line, each ended by LF. *)
Fixpoint unlines (ls : list string) : string :=
  match ls with
  | [] => EmptyString
  | l :: r => l ++ String "010" (unlines r)
  end.

Definition in_list (x : string) (l : list string) : bool :=
  existsb (String.eqb x) l.

End PyStr.
Import PyStr.

(* ===================================================================== *)
(** * The outside world *)
(* ===================================================================== *)

(** Exception classes the program meets.  All but [KeyboardInterrupt] are
    subclasses of [Exception]. *)
Inductive exn : Type :=
| RequestException      (* requests: connection error, timeout, ... *)
| CalledProcessError    (* subprocess.run(check=True): non-zero exit status *)
| OSError               (* the executable or the file cannot be opened *)
| TimeoutExpired        (* subprocess.run(timeout=...) *)
| ClientError           (* aiohttp: connection error, timeout, bad JSON *)
| ValueError
| AttributeError        (* [.get] on a JSON value that is not an object *)
| KeyboardInterrupt.

Definition exn_eqb (a b : exn) : bool :=
  match a, b with
  | RequestException, RequestException
  | CalledProcessError, CalledProcessError
  | OSError, OSError
  | TimeoutExpired, TimeoutExpired
  | ClientError, ClientError
  | ValueError, ValueError
  | AttributeError, AttributeError
  | KeyboardInterrupt, KeyboardInterrupt => true
  | _, _ => false
  end.

(** [isinstance(e, Exception)] *)
Definition is_Exception (e : exn) : bool := negb (exn_eqb e KeyboardInterrupt).

Inductive Result (A : Type) : Type :=
| Ok (a : A)
| Raise (e : exn).
Arguments Ok {A} a.
Arguments Raise {A} e.

(** An entry of the ["commands"] list of the control server: a JSON object,
    of which only the value of the ["command"] key matters ([None] when the
    key is missing or its value is not a string), or any other JSON value
    (a string, a number, a list, [null]). *)
Inductive Command : Type :=
| Object (command : option string)
| NotObject.

Definition cmd (s : string) : Command := Object (Some s).

(** The dictionary returned by [IPManager.change_ip]. *)
Record IpChangeResult : Type := {
  success : bool;
  old_ip : string;
  new_ip : string;
  change_duration : Z
}.

(** The airplane-mode commands run through [su -c]. *)
Inductive su_command : Type :=
| SettingsAirplaneOn | BroadcastAirplaneOn
| SettingsAirplaneOff | BroadcastAirplaneOff.

Inductive config_file : Type :=
| ConfigMissing
| ConfigLoaded (device_name : string)
| ConfigBroken.   (* unreadable, not JSON, or not a JSON object *)

(** [settings/total_ips.txt]: missing, a text file, or a path that exists
    but cannot be opened (a directory, a file without permission). *)
Inductive store_state : Type :=
| StoreAbsent
| StoreFile (content : string)
| StoreDenied.

(** What the outside world answers: one oracle per kind of call, indexed by
    the number of calls of that kind made so far.  A failing call answers
    with the exception it raises.  The readings of [time.time()] are taken
    in whole seconds.  [post_body n] is what reading the body of the answer
    to POST [n] gives: [await resp.json()] after a 200, which raises when
    the body is not JSON, and [await resp.text()] otherwise.  [fetch] gives
    the status and the entries of the ["commands"] list of the body; a body
    that is not a JSON object, or whose ["commands"] cannot be iterated,
    answers with the exception this raises.  [telephony] gives the exit
    status and the ["device_id"] field of the output, and the exception
    raised when the tool cannot be run or its output cannot be read. *)
Record Env : Type := {
  icanhazip : nat -> Result string;        (* body of GET ipv4.icanhazip.com *)
  su : nat -> option exn;                  (* subprocess.run(['su','-c',..], check=True) *)
  clock : nat -> Z;                        (* time.time() *)
  config_json : config_file;               (* config/config.json *)
  echo : nat -> Result (Z * string);       (* status and text of an echo service *)
  curl : nat -> Result (Z * string);       (* returncode and stdout of curl *)
  post : nat -> Result Z;                  (* status of a POST to the server *)
  post_body : nat -> Result unit;          (* reading the body of that answer *)
  fetch : nat -> Result (Z * list Command);(* status and commands of the GET *)
  termux : bool;                           (* /data/data/com.termux exists *)
  telephony : Result (Z * string);         (* returncode and device_id field *)
  hostname : Result string                 (* socket.gethostname() *)
}.

Inductive channel : Type :=
| ChIcanhazip | ChSu | ChClock | ChEcho | ChCurl | ChPost | ChFetch.

Definition channel_eqb (a b : channel) : bool :=
  match a, b with
  | ChIcanhazip, ChIcanhazip | ChSu, ChSu | ChClock, ChClock | ChEcho, ChEcho
  | ChCurl, ChCurl | ChPost, ChPost | ChFetch, ChFetch => true
  | _, _ => false
  end.

Inductive message : Type :=
| MsgToggleFailed (e : exn)
| MsgConfigError (e : exn)
| MsgCurrentIp (ip : option string)
| MsgToggling
| MsgDevice (name : string)
| MsgTrying
| MsgChanged (ip : string)
| MsgRecorded
| MsgAlreadyRecorded
| MsgTotal (n : nat)
| MsgWaiting (k max : nat)
| MsgTimeout
| MsgChangeStart
| MsgChangeOk (old new : string)
| MsgChangeFailed (old new : string)
| MsgCmdChangeIp
| MsgCmdTest
| MsgCmdStop
| MsgRegistering (ip : string)
| MsgRegistered
| MsgRegisterFailed (status : Z)
| MsgConnectionError (e : exn)
| MsgAgentStart
| MsgRegisterRetry
| MsgConnected
| MsgInterrupted
| MsgAgentExit.

Inductive endpoint : Type :=
| ApiRegister (ip : string)
| ApiStatus (ip : string)
| ApiReportIpChange (r : IpChangeResult).

Inductive method : Type :=
| CheckCommands
| SendStatus
| ExecuteCommand (c : Command).

(** What the program does, in order: its calls to the outside world (network
    and subprocess calls carry the timeout they were given), its pauses and
    console output, and the entries into the three methods of the agent
    that the loop is made of. *)
Inductive event : Type :=
| EvRequestsGet (timeout : Z)
| EvSu (c : su_command)
| EvSleep (secs : Z)
| EvPrint (m : message)
| EvSessionGet (service : string) (timeout : Z)
| EvCurl (timeout : Z)
| EvPost (ep : endpoint) (timeout : Z)
| EvFetch (timeout : Z)
| EvTelephony (timeout : Z)
| EvCall (m : method).

(** The world and the agent's mutable fields. *)
Record World : Type := {
  env : Env;
  calls : channel -> nat;
  store : store_state;
  trace : list event;
  running : bool;                 (* DeviceAgent.running *)
  current_ip : option string      (* DeviceAgent.current_ip *)
}.

Definition set_store (s : store_state) (w : World) : World :=
  {| env := env w; calls := calls w; store := s; trace := trace w;
     running := running w; current_ip := current_ip w |}.

Definition add_event (e : event) (w : World) : World :=
  {| env := env w; calls := calls w; store := store w; trace := trace w ++ [e];
     running := running w; current_ip := current_ip w |}.

Definition bump (c : channel) (w : World) : World :=
  {| env := env w;
     calls := fun c' => if channel_eqb c c' then S (calls w c') else calls w c';
     store := store w; trace := trace w;
     running := running w; current_ip := current_ip w |}.

Definition set_running (b : bool) (w : World) : World :=
  {| env := env w; calls := calls w; store := store w; trace := trace w;
     running := b; current_ip := current_ip w |}.

Definition set_current_ip (ip : option string) (w : World) : World :=
  {| env := env w; calls := calls w; store := store w; trace := trace w;
     running := running w; current_ip := ip |}.

(* ===================================================================== *)
(** * The monad of the program: state, exceptions, trace *)
(* ===================================================================== *)

Definition M (A : Type) : Type := World -> Result A * World.

Definition ret {A} (a : A) : M A := fun w => (Ok a, w).

Definition bind {A B} (m : M A) (f : A -> M B) : M B :=
  fun w => match m w with
           | (Ok a, w') => f a w'
           | (Raise e, w') => (Raise e, w')
           end.

Definition raise {A} (e : exn) : M A := fun w => (Raise e, w).

(** [try: m  except <classes>: h], where [catches e] tells whether the
    except clause matches [e]. *)
Definition try_except {A} (m : M A) (catches : exn -> bool) (h : exn -> M A) : M A :=
  fun w => match m w with
           | (Ok a, w') => (Ok a, w')
           | (Raise e, w') => if catches e then h e w' else (Raise e, w')
           end.

Declare Scope monad_scope.
Delimit Scope monad_scope with monad.
Notation "x <- m ;; k" := (bind m (fun x => k))
  (at level 61, m at next level, right associativity) : monad_scope.
Notation "m ;; k" := (bind m (fun _ => k))
  (at level 61, right associativity) : monad_scope.
Local Open Scope monad_scope.

Definition emit (e : event) : M unit := fun w => (Ok tt, add_event e w).
Definition print (m : message) : M unit := emit (EvPrint m).
Definition sleep (secs : Z) : M unit := emit (EvSleep secs).

(** Ask oracle [f] on channel [c] for its next answer. *)
Definition ask {A} (c : channel) (f : Env -> nat -> A) : M A :=
  fun w => (Ok (f (env w) (calls w c)), bump c w).

Definition lift_result {A} (r : Result A) : M A :=
  match r with Ok a => ret a | Raise e => raise e end.

Definition time_time : M Z := ask ChClock clock.

Definition any_Exception (e : exn) : bool := is_Exception e.
Definition bare_except (e : exn) : bool := true.

(* ===================================================================== *)
(** * ip_manager.py *)
(* ===================================================================== *)

Definition LF : string := String "010" EmptyString.

(** Python's truth value of [None | str]. *)
Definition is_truthy (o : option string) : bool :=
  match o with Some s => truthy s | None => false end.

(** [o if o else d] *)
Definition or_else (o : option string) (d : string) : string :=
  match o with Some s => if truthy s then s else d | None => d end.

(** The string held by a value known not to be [None]. *)
Definition str_value (o : option string) : string :=
  match o with Some s => s | None => EmptyString end.

(** [o != s] for [o : None | str]. *)
Definition differs (o : option string) (s : string) : bool :=
  match o with Some s' => negb (String.eqb s' s) | None => true end.

(** [requests.get("https://ipv4.icanhazip.com", timeout=...).text] *)
Definition requests_get (timeout : Z) : M string :=
  emit (EvRequestsGet timeout) ;;
  r <- ask ChIcanhazip icanhazip ;;
  lift_result r.

Definition get_public_ipv4 : M (option string) :=
  try_except
    (response_text <- requests_get 10 ;;
     ret (Some (strip response_text)))
    (exn_eqb RequestException)
    (fun _ => ret None).

(** File operations on [settings/total_ips.txt]. *)
Definition os_path_exists : M bool :=
  fun w => (Ok (match store w with StoreAbsent => false | _ => true end), w).

Definition file_write (text : string) : M unit :=
  fun w => match store w with
           | StoreDenied => (Raise OSError, w)
           | _ => (Ok tt, set_store (StoreFile text) w)
           end.

Definition file_read : M string :=
  fun w => match store w with
           | StoreFile content => (Ok content, w)
           | _ => (Raise OSError, w)
           end.

Definition file_append (text : string) : M unit :=
  fun w => match store w with
           | StoreFile content => (Ok tt, set_store (StoreFile (content ++ text)) w)
           | StoreAbsent => (Ok tt, set_store (StoreFile text) w)
           | StoreDenied => (Raise OSError, w)
           end.

Definition record_ip (ip : string) : M bool :=
  file_exists <- os_path_exists ;;
  if negb file_exists then
    file_write (ip ++ LF) ;;
    ret true
  else
    content <- file_read ;;
    let ips := splitlines content in
    if in_list ip ips then ret false
    else
      file_append (ip ++ LF) ;;
      ret true.

(** [subprocess.run(['su', '-c', ...], check=True, ...)] *)
Definition subprocess_su (c : su_command) : M unit :=
  emit (EvSu c) ;;
  r <- ask ChSu su ;;
  match r with
  | None => ret tt
  | Some e => raise e
  end.

Definition toggle_airplane_mode (state : string) : M unit :=
  try_except
    (if String.eqb state "on" then
       subprocess_su SettingsAirplaneOn ;;
       subprocess_su BroadcastAirplaneOn
     else if String.eqb state "off" then
       subprocess_su SettingsAirplaneOff ;;
       subprocess_su BroadcastAirplaneOff
     else ret tt)
    (exn_eqb CalledProcessError)
    (fun e => print (MsgToggleFailed e)).

(** Lines 92-104: the device name of [config/config.json]. *)
Definition load_device_name : M string :=
  try_except
    (fun w => match config_json (env w) with
              | ConfigMissing => (Ok "Unknown", w)
              | ConfigLoaded device_name => (Ok device_name, w)
              | ConfigBroken => (Raise ValueError, w)
              end)
    any_Exception
    (fun e => print (MsgConfigError e) ;; ret "Unknown").

Definition max_attempts : nat := 15.

(** Lines 125-144: a resolved address is recorded and returned. *)
Definition confirmed (new_ip : string) : M (option string) :=
  is_new <- record_ip new_ip ;;
  print (MsgChanged new_ip) ;;
  file_exists <- os_path_exists ;;
  total_ips <- (if file_exists then
                  content <- file_read ;;
                  ret (length (splitlines content))
                else ret 1%nat) ;;
  print (if is_new then MsgRecorded else MsgAlreadyRecorded) ;;
  print (MsgTotal total_ips) ;;
  ret (Some new_ip).

(** Lines 122-151: [while attempt < max_attempts: ...]. *)
Equations? confirm_loop (attempt : nat) : M (option string)
  by wf (max_attempts - attempt) lt :=
  confirm_loop attempt with lt_dec attempt max_attempts => {
    | left _ :=
        new_ip <- get_public_ipv4 ;;
        let next_attempt :=
          print (MsgWaiting (attempt + 1) max_attempts) ;;
          sleep 2 ;;
          confirm_loop (S attempt) in
        match new_ip with
        | Some ip => if truthy ip then confirmed ip else next_attempt
        | None => next_attempt
        end
    | right _ :=
        print MsgTimeout ;;
        ret None }.
Proof.
  change (max_attempts - S attempt < max_attempts - attempt).
  lia.
Qed.

Definition change_mobile_ip_at_phone : M (option string) :=
  device_name <- load_device_name ;;
  old_ip <- get_public_ipv4 ;;
  print (MsgCurrentIp old_ip) ;;
  print MsgToggling ;;
  print (MsgDevice device_name) ;;
  toggle_airplane_mode "on" ;;
  sleep 3 ;;
  toggle_airplane_mode "off" ;;
  sleep 4 ;;
  print MsgTrying ;;
  confirm_loop 0.

Definition IPManager_change_ip : M IpChangeResult :=
  start_time <- time_time ;;
  old_ip <- get_public_ipv4 ;;
  let old_ip := or_else old_ip "Unknown" in
  new_ip <- change_mobile_ip_at_phone ;;
  now <- time_time ;;
  let change_duration := (now - start_time)%Z in
  if is_truthy new_ip && differs new_ip old_ip then
    ret {| success := true; old_ip := old_ip;
           new_ip := str_value new_ip; change_duration := change_duration |}
  else
    ret {| success := false; old_ip := old_ip;
           new_ip := or_else new_ip "Failed"; change_duration := change_duration |}.

(* ===================================================================== *)
(** * main.py: DeviceAgent *)
(* ===================================================================== *)

Definition octet_ok (part : string) : bool :=
  match py_int part with
  | Some n => (0 <=? n)%Z && (n <=? 255)%Z
  | None => false
  end.

(** [validate_ip]: a [ValueError] of [int] makes the answer [False]. *)
Definition validate_ip (ip : string) : bool :=
  let parts := split_dot ip in
  (length parts =? 4)%nat && forallb octet_ok parts.

Definition services : list string :=
  ["https://api.ipify.org"; "https://ifconfig.me/ip"; "https://ipecho.net/plain"].

(** [session.get(service, timeout=...)]: status and text of the response. *)
Definition session_get (service : string) (timeout : Z) : M (Z * string) :=
  emit (EvSessionGet service timeout) ;;
  r <- ask ChEcho echo ;;
  lift_result r.

(** Lines 147-155: [for service in services: try: ... except: continue]. *)
Fixpoint try_services (l : list string) : M (option string) :=
  match l with
  | [] => ret None
  | service :: rest =>
      found <- try_except
                 (resp <- session_get service 5 ;;
                  if (fst resp =? 200)%Z then
                    let ip := strip (snd resp) in
                    if validate_ip ip then ret (Some ip) else ret None
                  else ret None)
                 bare_except
                 (fun _ => ret None) ;;
      match found with
      | Some ip => ret (Some ip)
      | None => try_services rest
      end
  end.

(** [subprocess.run(['curl', '-s', 'ifconfig.me'], ..., timeout=10)] *)
Definition subprocess_curl (timeout : Z) : M (Z * string) :=
  emit (EvCurl timeout) ;;
  r <- ask ChCurl curl ;;
  lift_result r.

Definition get_current_ip : M string :=
  try_except
    (found <- try_services services ;;
     match found with
     | Some ip => ret ip
     | None =>
         result <- subprocess_curl 10 ;;
         if (fst result =? 0)%Z then
           let ip := strip (snd result) in
           if validate_ip ip then ret ip else ret "Unknown"
         else ret "Unknown"
     end)
    any_Exception
    (fun _ => ret "Unknown").

Definition assign_current_ip (ip : string) : M unit :=
  fun w => (Ok tt, set_current_ip (Some ip) w).

Definition assign_running (b : bool) : M unit :=
  fun w => (Ok tt, set_running b w).

(** [session.post(url, json=..., timeout=...)]: status of the response. *)
Definition session_post (ep : endpoint) (timeout : Z) : M Z :=
  emit (EvPost ep timeout) ;;
  r <- ask ChPost post ;;
  lift_result r.

(** [await resp.json()] after a 200 and [await resp.text()] otherwise, on
    the answer to the POST just made. *)
Definition read_body : M unit :=
  fun w => lift_result (post_body (env w) (calls w ChPost - 1)) w.

Definition register : M bool :=
  try_except
    (ip <- get_current_ip ;;
     assign_current_ip ip ;;
     print (MsgRegistering ip) ;;
     status <- session_post (ApiRegister ip) 10 ;;
     if (status =? 200)%Z then
       read_body ;;
       print MsgRegistered ;;
       ret true
     else
       read_body ;;
       print (MsgRegisterFailed status) ;;
       ret false)
    any_Exception
    (fun e => print (MsgConnectionError e) ;; ret false).

Definition send_status : M unit :=
  emit (EvCall SendStatus) ;;
  try_except
    (ip <- get_current_ip ;;
     assign_current_ip ip ;;
     _ <- session_post (ApiStatus ip) 10 ;;
     ret tt)
    bare_except
    (fun _ => ret tt).

Definition DeviceAgent_change_ip : M IpChangeResult :=
  print MsgChangeStart ;;
  result <- IPManager_change_ip ;;
  (if success result then
     print (MsgChangeOk (old_ip result) (new_ip result)) ;;
     assign_current_ip (new_ip result)
   else
     print (MsgChangeFailed (old_ip result) (new_ip result))) ;;
  ret result.

(** [cmd_type == s] where [cmd_type] may be [None]. *)
Definition is_cmd (cmd_type : option string) (s : string) : bool :=
  match cmd_type with Some t => String.eqb t s | None => false end.

(** [command.get("command")] *)
Definition command_get (c : Command) : M (option string) :=
  match c with
  | Object cmd_type => ret cmd_type
  | NotObject => raise AttributeError
  end.

(** The report carries the result of the rotation; its [device_id] and
    [timestamp] fields are left out. *)
Definition execute_command (c : Command) : M unit :=
  emit (EvCall (ExecuteCommand c)) ;;
  cmd_type <- command_get c ;;
  if is_cmd cmd_type "change_ip" then
    print MsgCmdChangeIp ;;
    result <- DeviceAgent_change_ip ;;
    _ <- session_post (ApiReportIpChange result) 10 ;;
    ret tt
  else if is_cmd cmd_type "test" then
    print MsgCmdTest ;;
    send_status
  else if is_cmd cmd_type "stop" then
    print MsgCmdStop ;;
    assign_running false
  else ret tt.

(** Lines 275-276: [for cmd in commands: await self.execute_command(cmd)]. *)
Fixpoint for_each_command (commands : list Command) : M unit :=
  match commands with
  | [] => ret tt
  | c :: rest => execute_command c ;; for_each_command rest
  end.

(** [session.get(f"{server_url}/api/commands/{device_id}", timeout=...)]:
    status and the ["commands"] list of the JSON body. *)
Definition session_get_commands (timeout : Z) : M (Z * list Command) :=
  emit (EvFetch timeout) ;;
  r <- ask ChFetch fetch ;;
  lift_result r.

Definition check_commands : M unit :=
  emit (EvCall CheckCommands) ;;
  try_except
    (resp <- session_get_commands 10 ;;
     if (fst resp =? 200)%Z then for_each_command (snd resp)
     else ret tt)
    bare_except
    (fun _ => ret tt).

Definition status_interval : Z := 30.
Definition command_interval : Z := 5.

(** How one pass through the body of [while self.running] ends. *)
Inductive tick_end : Type :=
| Continue (last_command last_status : Z)
| Break.

(** Lines 333-343: the [try] block of one pass. *)
Definition tick_block (last_command last_status : Z) : M tick_end :=
  current_time <- time_time ;;
  last_command <-
    (if (current_time - last_command >=? command_interval)%Z then
       check_commands ;; ret current_time
     else ret last_command) ;;
  last_status <-
    (if (current_time - last_status >=? status_interval)%Z then
       send_status ;; ret current_time
     else ret last_status) ;;
  sleep 1 ;;
  ret (Continue last_command last_status).

(** [except KeyboardInterrupt] or [except Exception] *)
Definition interrupt_or_Exception (e : exn) : bool :=
  exn_eqb e KeyboardInterrupt || is_Exception e.

(** Lines 332-349: the [try] block with its two [except] clauses.  In this
    model no statement of the block raises ([tick_block_returns] below), so
    that the handlers are never entered; they are given the values the
    pass started with. *)
Definition tick (last_command last_status : Z) : M tick_end :=
  try_except
    (tick_block last_command last_status)
    interrupt_or_Exception
    (fun e =>
       if exn_eqb e KeyboardInterrupt then
         print MsgInterrupted ;; ret Break
       else
         sleep 5 ;; ret (Continue last_command last_status)).

(** [while self.running: ...]; the loop may run for ever, so it is given
    a number of passes: [None] when they are used up with the agent still
    running, [Some tt] when the loop was left. *)
Fixpoint run_loop (fuel : nat) (last_command last_status : Z) : M (option unit) :=
  fun w =>
    if running w then
      match fuel with
      | O => (Ok None, w)
      | S fuel' =>
          (t <- tick last_command last_status ;;
           match t with
           | Continue lc ls => run_loop fuel' lc ls
           | Break => ret (Some tt)
           end) w
      end
    else (Ok (Some tt), w).

Definition run (fuel : nat) : M (option unit) :=
  print MsgAgentStart ;;
  registered <- register ;;
  (if negb registered then print MsgRegisterRetry else ret tt) ;;
  print MsgConnected ;;
  left <- run_loop fuel 0 0 ;;
  match left with
  | Some _ => print MsgAgentExit ;; ret (Some tt)
  | None => ret None
  end.

(** [s[-n:]] and [s[:n]] *)
Definition last_chars (n : nat) (s : string) : string :=
  substring (String.length s - n) n s.
Definition first_chars (n : nat) (s : string) : string :=
  substring 0 n s.

(** [str(int(x))] for an integer-valued [x]. *)
Definition decimal (z : Z) : string := NilZero.string_of_int (Z.to_int z).

(** [subprocess.run(['termux-telephony-deviceinfo'], ..., timeout=...)]
    followed by [json.loads(...).get('device_id', '')]. *)
Definition subprocess_telephony (timeout : Z) : M (Z * string) :=
  emit (EvTelephony timeout) ;;
  fun w => lift_result (telephony (env w)) w.

Definition generate_device_id : M string :=
  try_except
    (on_termux <- (fun w => (Ok (termux (env w)), w)) ;;
     phone <- (if on_termux : bool then
                 try_except
                   (result <- subprocess_telephony 5 ;;
                    if (fst result =? 0)%Z then
                      let device_id := snd result in
                      if truthy device_id
                      then ret (Some ("Phone_" ++ last_chars 8 device_id)%string)
                      else ret None
                    else ret None)
                   bare_except
                   (fun _ => ret None)
               else ret None) ;;
     match phone with
     | Some id => ret id
     | None =>
         name <- (fun w => lift_result (hostname (env w)) w) ;;
         ret ("Device_" ++ first_chars 10 name)%string
     end)
    any_Exception
    (fun _ => now <- time_time ;; ret ("Device_" ++ decimal (now mod 100000))%string).

(* ===================================================================== *)
(** * Observations and specification-level functions *)
(* ===================================================================== *)

(** The entries of the history file, as [record_ip] reads them. *)
Definition entries (s : store_state) : list string :=
  match s with
  | StoreFile content => splitlines content
  | _ => []
  end.

(** [count()]: the number of recorded addresses. *)
Definition count (s : store_state) : nat := length (entries s).

(** A store that is missing, or holds exactly [lines], one per line. *)
Definition store_holds (s : store_state) (lines : list string) : Prop :=
  match s with
  | StoreAbsent => lines = []
  | StoreFile content => content = unlines lines
  | StoreDenied => False
  end.

Definition one_line (s : string) : Prop := single_lineb s = true.

(** A run of [record_ip] calls, with the flag each call returned. *)
Fixpoint record_all (ips : list string) : M (list bool) :=
  match ips with
  | [] => ret []
  | ip :: rest =>
      is_new <- record_ip ip ;;
      flags <- record_all rest ;;
      ret (is_new :: flags)
  end.

(** The addresses of [ips] not in [seen], each at its first occurrence. *)
Fixpoint first_seen (seen ips : list string) : list string :=
  match ips with
  | [] => []
  | ip :: rest =>
      if in_list ip seen then first_seen seen rest
      else ip :: first_seen (seen ++ [ip]) rest
  end.

(** For each address of [ips], whether it is observed for the first time. *)
Fixpoint new_flags (seen ips : list string) : list bool :=
  match ips with
  | [] => []
  | ip :: rest =>
      if in_list ip seen then false :: new_flags seen rest
      else true :: new_flags (seen ++ [ip]) rest
  end.

(** The events a computation added to the trace of [w], read off [w']. *)
Definition events_since (w w' : World) : list event :=
  skipn (length (trace w)) (trace w').

(** The commands whose execution was started, in order. *)
Fixpoint executed (evs : list event) : list Command :=
  match evs with
  | [] => []
  | EvCall (ExecuteCommand c) :: rest => c :: executed rest
  | _ :: rest => executed rest
  end.

Definition stop_event : event := EvCall (ExecuteCommand (cmd "stop")).

(** What [get_public_ipv4] makes of the [n]-th answer of the service. *)
Definition resolution (e : Env) (n : nat) : Result (option string) :=
  match icanhazip e n with
  | Ok body => Ok (Some (strip body))
  | Raise RequestException => Ok None
  | Raise x => Raise x
  end.

(** The [n]-th answer gives no address: an error of [requests] or a
    blank body. *)
Definition unresolved (e : Env) (n : nat) : Prop :=
  exists o, resolution e n = Ok o /\ is_truthy o = false.

(** The timeout each network or subprocess call is made with. *)
Definition timeout_ok (e : event) : Prop :=
  match e with
  | EvPost _ t => t = 10%Z          (* register, status, report *)
  | EvFetch t => t = 10%Z           (* command fetch *)
  | EvTelephony t => t = 5%Z        (* termux-telephony-deviceinfo *)
  | EvRequestsGet t => t = 10%Z     (* resolution through requests *)
  | EvSessionGet _ t => t = 5%Z     (* resolution through an echo service *)
  | EvCurl t => t = 10%Z            (* resolution through curl *)
  | _ => True
  end.

(** The timeout of a resolution attempt, when [e] is one. *)
Definition resolution_timeout (e : event) : option Z :=
  match e with
  | EvRequestsGet t | EvSessionGet _ t | EvCurl t => Some t
  | _ => None
  end.

(** Seconds slept in a sequence of events. *)
Fixpoint slept (evs : list event) : Z :=
  match evs with
  | [] => 0
  | EvSleep s :: rest => s + slept rest
  | _ :: rest => slept rest
  end.

(** Worlds used as concrete inputs. *)
Module Sample.

Definition quiet_env : Env := {|
  icanhazip := fun _ => Raise RequestException;
  su := fun _ => None;
  clock := fun n => match n with 0 => 1700000000%Z | _ => 1700000012%Z end;
  config_json := ConfigMissing;
  echo := fun _ => Raise ClientError;
  curl := fun _ => Raise OSError;
  post := fun _ => Ok 200%Z;
  post_body := fun _ => Ok tt;
  fetch := fun _ => Ok (200%Z, []);
  termux := true;
  telephony := Ok (0%Z, "358240051111110");
  hostname := Ok "localhost"
|}.

Definition world (e : Env) (s : store_state) : World :=
  {| env := e; calls := fun _ => 0; store := s; trace := [];
     running := true; current_ip := None |}.

Definition with_icanhazip (f : nat -> Result string) (e : Env) : Env :=
  {| icanhazip := f; su := su e; clock := clock e; config_json := config_json e;
     echo := echo e; curl := curl e; post := post e; post_body := post_body e; fetch := fetch e;
     termux := termux e; telephony := telephony e; hostname := hostname e |}.

Definition with_su (f : nat -> option exn) (e : Env) : Env :=
  {| icanhazip := icanhazip e; su := f; clock := clock e; config_json := config_json e;
     echo := echo e; curl := curl e; post := post e; post_body := post_body e; fetch := fetch e;
     termux := termux e; telephony := telephony e; hostname := hostname e |}.

Definition with_fetch (f : nat -> Result (Z * list Command)) (e : Env) : Env :=
  {| icanhazip := icanhazip e; su := su e; clock := clock e; config_json := config_json e;
     echo := echo e; curl := curl e; post := post e; post_body := post_body e; fetch := f;
     termux := termux e; telephony := telephony e; hostname := hostname e |}.

Definition with_post (f : nat -> Result Z) (e : Env) : Env :=
  {| icanhazip := icanhazip e; su := su e; clock := clock e; config_json := config_json e;
     echo := echo e; curl := curl e; post := f; post_body := post_body e; fetch := fetch e;
     termux := termux e; telephony := telephony e; hostname := hostname e |}.

(** An address of two lines, as an error page would give. *)
Definition two_lines : string := ("a" ++ LF ++ "b")%string.

End Sample.

(* ===================================================================== *)
(** * Invariants of computations: definitions *)
(* ===================================================================== *)

Record preorder (R : World -> World -> Prop) : Prop := {
  pre_refl : forall w, R w w;
  pre_trans : forall a b c, R a b -> R b c -> R a c
}.
Arguments pre_refl {R} _ w.
Arguments pre_trans {R} _ a b c _ _.

(** A relation between the world before and after that holds across
    the computation, whether it returns or raises. *)
Definition keeps (R : World -> World -> Prop) {A} (m : M A) : Prop :=
  forall w, R w (snd (m w)).

(** The world only grows: the oracles stay, call counts do not decrease,
    a cleared running flag stays cleared, and the trace is extended by
    events that satisfy [P]. *)
Definition grows (P : event -> Prop) (w w' : World) : Prop :=
  env w' = env w /\
  (forall c, calls w c <= calls w' c) /\
  (running w = false -> running w' = false) /\
  exists evs, trace w' = trace w ++ evs /\ Forall P evs.

(** The oracles stay and the calls counted by [cs] are not made. *)
Definition untouched (cs : channel -> bool) (w w' : World) : Prop :=
  env w' = env w /\ forall c, cs c = true -> calls w' c = calls w c.

(** Events of the rotation, of the resolvers and of the reports: made with
    the timeouts of [timeout_ok], and none of them a command fetch or the
    start of a command. *)
Definition inner_event (e : event) : Prop :=
  timeout_ok e /\
  match e with
  | EvFetch _ | EvCall CheckCommands | EvCall (ExecuteCommand _) => False
  | _ => True
  end.

(** Events of the execution of commands: no command fetch among them. *)
Definition cmd_event (e : event) : Prop :=
  timeout_ok e /\
  match e with
  | EvFetch _ | EvCall CheckCommands => False
  | _ => True
  end.

(** Every pause is the two-second pause between resolution polls. *)
Definition poll_pause (e : event) : Prop :=
  match e with
  | EvSleep s => s = 2%Z
  | _ => True
  end.

Definition only (c : channel) : channel -> bool := channel_eqb c.

(** The environment and the store under which no unexpected exception
    arises in a rotation: [su] can be started (it may exit with a non-zero
    status), [requests] only fails with its own exceptions, and the
    history file can be opened. *)
Definition good (w : World) : Prop :=
  (forall n, su (env w) n = None \/ su (env w) n = Some CalledProcessError) /\
  (forall n, exists r, resolution (env w) n = Ok r) /\
  store w <> StoreDenied.

(** Under [good], the computation preserves [good] and raises only
    exceptions accepted by [ok]. *)
Definition contained (ok : exn -> bool) {A} (m : M A) : Prop :=
  forall w, good w ->
    good (snd (m w)) /\
    match fst (m w) with Ok _ => True | Raise e => ok e = true end.

Definition never (e : exn) : bool := false.

Definition no_sleep (e : event) : Prop :=
  match e with
  | EvSleep _ => False
  | _ => True
  end.

Module Scenario.

(** The old address is [1.1.1.1]; the first poll fails and the second one
    answers [2.2.2.2]. *)
Definition changed : World :=
  Sample.world
    (Sample.with_icanhazip
       (fun n => match n with
                 | 0 | 1 => Ok ("1.1.1.1" ++ LF)%string
                 | 2 => Raise RequestException
                 | _ => Ok ("2.2.2.2" ++ LF)%string
                 end)
       Sample.quiet_env)
    StoreAbsent.

(** The address is [1.1.1.1] before and after. *)
Definition unchanged : World :=
  Sample.world
    (Sample.with_icanhazip (fun _ => Ok ("1.1.1.1" ++ LF)%string) Sample.quiet_env)
    StoreAbsent.

(** The old address is [1.1.1.1] and no poll is answered. *)
Definition offline : World :=
  Sample.world
    (Sample.with_icanhazip
       (fun n => match n with
                 | 0 | 1 => Ok ("1.1.1.1" ++ LF)%string
                 | _ => Raise RequestException
                 end)
       Sample.quiet_env)
    StoreAbsent.

End Scenario.

Module Failure.

(** [su] cannot be started (no such executable): [subprocess.run] raises
    [FileNotFoundError], an [OSError]. *)
Definition no_su : World :=
  Sample.world (Sample.with_su (fun _ => Some OSError) (env Scenario.changed))
    StoreAbsent.

(** [su] exits with a non-zero status at every call. *)
Definition su_refused : World :=
  Sample.world (Sample.with_su (fun _ => Some CalledProcessError) (env Scenario.changed))
    StoreAbsent.

(** The history file exists but cannot be opened. *)
Definition store_denied : World :=
  Sample.world (env Scenario.changed) StoreDenied.

(** The echo service answers every request with an error page. *)
Definition error_page : World :=
  Sample.world
    (Sample.with_icanhazip (fun n => match n with
                                     | 0 | 1 => Ok ("1.1.1.1" ++ LF)%string
                                     | _ => Ok "<html>502 Bad Gateway</html>"
                                     end)
       Sample.quiet_env)
    StoreAbsent.

End Failure.

(** Once the stop command was started, or the flag was already cleared,
    the running flag is cleared. *)
Definition stops (w w' : World) : Prop :=
  running w = false \/ In stop_event (events_since w w') -> running w' = false.

Definition tracked (w w' : World) : Prop :=
  grows timeout_ok w w' /\ stops w w'.

(** Neither a call of [check_commands] nor its request. *)
Definition no_fetch (e : event) : Prop :=
  e <> EvCall CheckCommands /\ forall t, e <> EvFetch t.

Module Server.

Definition base : Env :=
  Sample.with_icanhazip (icanhazip (env Scenario.changed)) Sample.quiet_env.

(** The first fetch returns the single command [stop]. *)
Definition stop_first : World :=
  Sample.world
    (Sample.with_fetch (fun _ => Ok (200%Z, [cmd "stop"])) base)
    StoreAbsent.

(** The first fetch returns [change_ip] and [stop]; the server cannot be
    reached for the report. *)
Definition report_lost : World :=
  Sample.world
    (Sample.with_post (fun _ => Raise ClientError)
       (Sample.with_fetch (fun _ => Ok (200%Z, [cmd "change_ip"; cmd "stop"])) base))
    StoreAbsent.

(** The first fetch returns [stop], [test] and an unknown command. *)
Definition stop_then_test : World :=
  Sample.world
    (Sample.with_fetch (fun _ => Ok (200%Z, [cmd "stop"; cmd "test"; cmd "noop"])) base)
    StoreAbsent.

End Server.

Module Heartbeat.

(** What the pass that executes [stop] in [Server.stop_first] does after
    the start of the stop command. *)
Definition after_stop : list event :=
  [EvPrint MsgCmdStop; EvCall SendStatus;
   EvSessionGet "https://api.ipify.org" 5;
   EvSessionGet "https://ifconfig.me/ip" 5;
   EvSessionGet "https://ipecho.net/plain" 5;
   EvCurl 10; EvPost (ApiStatus "Unknown") 10;
   EvSleep 1].

End Heartbeat.

(** The computation extends the trace, and pauses [n] seconds at most. *)
Definition takes (n : Z) {A} (m : M A) : Prop :=
  forall w,
    grows (fun _ => True) w (snd (m w)) /\
    (slept (events_since w (snd (m w))) <= n)%Z.

Module Startup.

(** What [run] does in [Server.stop_first] before the first pass. *)
Definition registration : list event :=
  [EvPrint MsgAgentStart;
   EvSessionGet "https://api.ipify.org" 5;
   EvSessionGet "https://ifconfig.me/ip" 5;
   EvSessionGet "https://ipecho.net/plain" 5;
   EvCurl 10; EvPrint (MsgRegistering "Unknown");
   EvPost (ApiRegister "Unknown") 10; EvPrint MsgRegistered;
   EvPrint MsgConnected].

End Startup.

(* ===================================================================== *)
(** * Further observations *)
(* ===================================================================== *)

(** The file of the history store, when there is one. *)
Definition file_text (s : store_state) : option string :=
  match s with
  | StoreFile content => Some content
  | _ => None
  end.

(** The number of calls that returned [True]. *)
Definition count_new (flags : list bool) : nat := length (filter (fun b => b) flags).

(** The store is left as it was. *)
Definition store_kept (w w' : World) : Prop := store w' = store w.

(** The first and the second command of a toggle. *)
Definition settings_command (state : string) : su_command :=
  if String.eqb state "on" then SettingsAirplaneOn else SettingsAirplaneOff.

Definition broadcast_command (state : string) : su_command :=
  if String.eqb state "on" then BroadcastAirplaneOn else BroadcastAirplaneOff.

(** What is seen of one toggle, by the answers to its settings command
    and, when that one succeeded, to its broadcast command: the broadcast
    is run only after a settings command that succeeded, and the failure
    message is printed for a non-zero exit status. *)
Definition toggle_trace (state : string) (first second : option exn) : list event :=
  EvSu (settings_command state) ::
  match first with
  | None =>
      EvSu (broadcast_command state) ::
      match second with
      | Some CalledProcessError => [EvPrint (MsgToggleFailed CalledProcessError)]
      | _ => []
      end
  | Some CalledProcessError => [EvPrint (MsgToggleFailed CalledProcessError)]
  | Some _ => []
  end.

(** What is seen of a rotation before its first toggle: the message of a
    configuration that cannot be read, the resolution of the old address,
    and the three lines printed, the last with the device name. *)
Definition prelude_events (e : Env) (old_ip : option string) : list event :=
  match config_json e with
  | ConfigBroken => [EvPrint (MsgConfigError ValueError)]
  | _ => []
  end ++
  [EvRequestsGet 10; EvPrint (MsgCurrentIp old_ip); EvPrint MsgToggling;
   EvPrint (MsgDevice match config_json e with
                      | ConfigLoaded device_name => device_name
                      | _ => "Unknown"
                      end)].

(** ** Dotted quads *)

Fixpoint no_dotb (s : string) : bool :=
  match s with
  | EmptyString => true
  | String c r => negb (Ascii.eqb c ".") && no_dotb r
  end.

(** ['.'.join(parts)] *)
Fixpoint join_dot (parts : list string) : string :=
  match parts with
  | [] => EmptyString
  | [p] => p
  | p :: rest => p ++ String "." (join_dot rest)
  end.

(** [f"{a}.{b}.{c}.{d}"] for integers. *)
Definition dotted (a b c d : Z) : string :=
  join_dot [decimal a; decimal b; decimal c; decimal d].

(** The last character of a string. *)
Fixpoint last_char (s : string) : option ascii :=
  match s with
  | EmptyString => None
  | String c EmptyString => Some c
  | String _ r => last_char r
  end.

(** Neither the first nor the last character is white space. *)
Definition clean_ends (s : string) : Prop :=
  match s with
  | EmptyString => True
  | String c _ => is_space c = false /\ exists l, last_char s = Some l /\ is_space l = false
  end.

(** ** The resolvers of the agent *)

(** What one answer of an echo service is worth to [get_current_ip]
    (lines 149-155): the stripped body of a 200 response that passes
    [validate_ip]; any exception, any other status and any other body
    make the loop go on. *)
Definition service_answer (r : Result (Z * string)) : option string :=
  match r with
  | Ok (status, body) =>
      if (status =? 200)%Z then
        if validate_ip (strip body) then Some (strip body) else None
      else None
  | Raise _ => None
  end.

(** What the answer of [curl] is worth (lines 158-169). *)
Definition curl_answer (r : Result (Z * string)) : Result string :=
  match r with
  | Ok (code, out) =>
      if (code =? 0)%Z then
        if validate_ip (strip out) then Ok (strip out) else Ok "Unknown"
      else Ok "Unknown"
  | Raise e => if is_Exception e then Ok "Unknown" else Raise e
  end.

Definition service_requests (l : list string) : list event :=
  map (fun service => EvSessionGet service 5) l.

Module Resolvers.

Definition with_echo (f : nat -> Result (Z * string)) (e : Env) : Env :=
  {| icanhazip := icanhazip e; su := su e; clock := clock e; config_json := config_json e;
     echo := f; curl := curl e; post := post e; post_body := post_body e; fetch := fetch e;
     termux := termux e; telephony := telephony e; hostname := hostname e |}.

Definition with_curl (f : nat -> Result (Z * string)) (e : Env) : Env :=
  {| icanhazip := icanhazip e; su := su e; clock := clock e; config_json := config_json e;
     echo := echo e; curl := f; post := post e; post_body := post_body e; fetch := fetch e;
     termux := termux e; telephony := telephony e; hostname := hostname e |}.

(** The first service is interrupted, the second one answers with an error
    page and the third one with an address. *)
Definition third_answers : World :=
  Sample.world
    (with_echo (fun n => match n with
                         | 0 => Raise KeyboardInterrupt
                         | 1 => Ok (200%Z, "<html>busy</html>")
                         | _ => Ok (200%Z, (" 10.0.0.7" ++ LF)%string)
                         end)
       Sample.quiet_env)
    StoreAbsent.

(** No service answers; [curl] prints an address. *)
Definition curl_answers : World :=
  Sample.world
    (with_curl (fun _ => Ok (0%Z, ("10.0.0.8" ++ LF)%string)) Sample.quiet_env)
    StoreAbsent.

End Resolvers.

(** ** Registration and status reports *)

(** The requests of [get_current_ip]: echo services with a timeout of five
    seconds and [curl] with one of ten. *)
Definition resolver_event (e : event) : Prop :=
  match e with
  | EvSessionGet _ t => t = 5%Z
  | EvCurl t => t = 10%Z
  | _ => False
  end.

Definition is_registration (e : event) : bool :=
  match e with
  | EvPost (ApiRegister _) _ => true
  | _ => false
  end.

(** The number of POSTs to [/api/register]. *)
Definition registrations (evs : list event) : nat :=
  length (filter is_registration evs).

Definition is_post (e : event) : bool :=
  match e with
  | EvPost _ _ => true
  | _ => false
  end.

(** A field of the world has the value it had. *)
Definition same_on {B} (f : World -> B) (w w' : World) : Prop := f w' = f w.


Definition no_registration (e : event) : Prop := is_registration e = false.

(** The fields of the agent object. *)
Definition agent_fields (w : World) : bool * option string :=
  (running w, current_ip w).


(* ===================================================================== *)
(** * main.py: the repeated rotation of the menu *)
(* ===================================================================== *)

(** Lines 551-585 of [MenuInterface._ip_change_loop]; what the function
    prints itself is left out.  The report is posted in a [try] whose
    [except Exception] clause only prints. *)
Definition post_report (result : IpChangeResult) : M unit :=
  try_except
    (_ <- session_post (ApiReportIpChange result) 10 ;; ret tt)
    any_Exception
    (fun _ => ret tt).

(** [for i in range(count): ...], with [rounds] values of [i] left. *)
Fixpoint change_rounds (rounds i : nat) (count interval : Z)
    (success_count fail_count : nat) : M (nat * nat) :=
  match rounds with
  | O => ret (success_count, fail_count)
  | S rounds' =>
      result <- DeviceAgent_change_ip ;;
      post_report result ;;
      let success_count := if success result then S success_count else success_count in
      let fail_count := if success result then fail_count else S fail_count in
      (if (Z.of_nat i <? count - 1)%Z then sleep interval else ret tt) ;;
      change_rounds rounds' (S i) count interval success_count fail_count
  end.

(** How [_ip_change_loop] ends when no exception of its callees gets out:
    by the early [return], with the statistics printed, or with the
    [ZeroDivisionError] of [success_count/count]. *)
Inductive loop_end : Type :=
| NotRegistered
| Statistics (success_count fail_count : nat)
| ZeroDivisionError.

Definition _ip_change_loop (count interval : Z) : M loop_end :=
  registered <- register ;;
  if negb registered then ret NotRegistered
  else
    counts <- change_rounds (Z.to_nat count) 0 count interval 0 0 ;;
    if (count =? 0)%Z then ret ZeroDivisionError
    else ret (Statistics (fst counts) (snd counts)).

Definition is_report (e : event) : bool :=
  match e with
  | EvPost (ApiReportIpChange _) _ => true
  | _ => false
  end.

(** The number of POSTs to [/api/report/ip_change]. *)
Definition reports (evs : list event) : nat := length (filter is_report evs).

Definition is_rotation_start (e : event) : bool :=
  match e with
  | EvPrint MsgChangeStart => true
  | _ => false
  end.

(** The number of calls of [DeviceAgent.change_ip]. *)
Definition rotations (evs : list event) : nat := length (filter is_rotation_start evs).

(** The channels of a rotation. *)
Definition rotation_channel (c : channel) : bool :=
  match c with
  | ChSu | ChIcanhazip => true
  | _ => false
  end.

(** No POST is interrupted. *)
Definition posts_answered (e : Env) : Prop :=
  forall n, post e n <> Raise KeyboardInterrupt.

Definition no_post (e : event) : Prop := is_post e = false.


(** Neither a report of a rotation nor the start of one. *)
Definition calm_event (e : event) : Prop :=
  is_report e = false /\ is_rotation_start e = false.


(* ===================================================================== *)
(** * main.py: the server address of the menu *)
(* ===================================================================== *)

(** [s.split(sep)] for a separator of one character: never empty. *)
Fixpoint split_on (sep : ascii) (s : string) : list string :=
  match s with
  | EmptyString => [EmptyString]
  | String c r =>
      if Ascii.eqb c sep then EmptyString :: split_on sep r
      else match split_on sep r with
           | [] => [String c EmptyString]
           | p :: ps => String c p :: ps
           end
  end.

(** [c in s] for a character [c]. *)
Fixpoint contains_char (c : ascii) (s : string) : bool :=
  match s with
  | EmptyString => false
  | String a r => Ascii.eqb a c || contains_char c r
  end.

(** [new_ip.startswith(('http://', 'https://'))] *)
Definition has_scheme (new_ip : string) : bool :=
  prefix "http://" new_ip || prefix "https://" new_ip.

(** Lines 416-421 of [set_server_ip]: the address that is stored for a
    non-empty input. *)
Definition complete_address (new_ip : string) : string :=
  if negb (has_scheme new_ip) then
    if negb (contains_char ":" (last (split_on "/" new_ip) EmptyString)) then
      ("http://" ++ new_ip ++ ":8000")%string
    else
      ("http://" ++ new_ip)%string
  else new_ip.

(** Lines 413-423 of [set_server_ip]: what is stored under [server_ip] for
    a line typed by the user; [None] when the change is cancelled.  The
    address is stored before the connection test, whatever the test
    gives; the test and the console output are left out. *)
Definition set_server_ip (line : string) : option string :=
  let new_ip := strip line in
  if truthy new_ip then Some (complete_address new_ip) else None.


(** [s.rstrip(c)] for one character [c]. *)
Fixpoint rstrip_char (c : ascii) (s : string) : string :=
  match s with
  | EmptyString => EmptyString
  | String a r =>
      match rstrip_char c r with
      | EmptyString => if Ascii.eqb a c then EmptyString else String a EmptyString
      | r' => String a r'
      end
  end.

(** Line 92 of [DeviceAgent.__init__]: [self.server_url]. *)
Definition server_url (configured : string) : string := rstrip_char "/" configured.

(** [k] slashes. *)
Fixpoint slashes (k : nat) : string :=
  match k with
  | O => EmptyString
  | S k' => String "/" (slashes k')
  end.


(** What a rotation does to the outside world: requests to the resolver of
    [ip_manager.py] with a timeout of ten seconds, [su] commands, pauses of
    2, 3 or 4 seconds, and console output. *)
Definition rotation_event (e : event) : Prop :=
  match e with
  | EvRequestsGet t => t = 10%Z
  | EvSu _ => True
  | EvSleep s => s = 2%Z \/ s = 3%Z \/ s = 4%Z
  | EvPrint _ => True
  | _ => False
  end.


(** The channels to the agent's server. *)
Definition is_server_channel (c : channel) : bool :=
  match c with
  | ChPost | ChFetch => true
  | _ => false
  end.


(** ** Batches of commands *)

(** The world in which the entries of a batch are executed: after the call
    of [check_commands] and its request. *)
Definition fetched (w : World) : World :=
  bump ChFetch (add_event (EvFetch 10) (add_event (EvCall CheckCommands) w)).

(** The entries whose execution can raise: a [change_ip] command, by its
    rotation or its report, and an entry that is not an object, by its
    [.get]. *)
Definition can_raise (c : Command) : bool :=
  match c with
  | Object cmd_type => is_cmd cmd_type "change_ip"
  | NotObject => true
  end.

(** Entry [k] of the batch is reached, the entries before it having been
    executed without an exception from the world [w] on, and its execution
    raises [e]. *)
Definition raises_at (cs : list Command) (w : World) (k : nat) (e : exn) : Prop :=
  exists c wk,
    nth_error cs k = Some c /\
    for_each_command (firstn k cs) w = (Ok tt, wk) /\
    fst (execute_command c wk) = Raise e.

(** The events [evs] show the execution of the first [n] entries of the
    batch, in order: all of them when no execution raises, and otherwise
    those up to and including the first one whose execution raises. *)
Definition batch_outcome (cs : list Command) (w : World) (evs : list event) : Prop :=
  exists n,
    executed evs = firstn n cs /\
    ((n = length cs /\ forall k e, ~ raises_at cs w k e) \/
     (exists c e,
        1 <= n /\ nth_error cs (n - 1) = Some c /\ can_raise c = true /\
        raises_at cs w (n - 1) e /\
        forall k e', k < n - 1 -> ~ raises_at cs w k e')).

Module Batch.

(** The first fetch returns a string and the command [stop]. *)
Definition odd_entry : World :=
  Sample.world
    (Sample.with_fetch (fun _ => Ok (200%Z, [NotObject; cmd "stop"])) Server.base)
    StoreAbsent.

End Batch.


Module Registration.

Definition with_post_body (f : nat -> Result unit) (e : Env) : Env :=
  {| icanhazip := icanhazip e; su := su e; clock := clock e; config_json := config_json e;
     echo := echo e; curl := curl e; post := post e; post_body := f; fetch := fetch e;
     termux := termux e; telephony := telephony e; hostname := hostname e |}.

(** The server answers every POST with 200 and a body that is not JSON. *)
Definition not_json : World :=
  Sample.world (with_post_body (fun _ => Raise ClientError) Sample.quiet_env) StoreAbsent.

End Registration.


(** The device id the telephony tool gives: on Termux, when the tool exits
    with 0 and its output holds a non-empty ["device_id"]. *)
Definition phone_id (e : Env) : option string :=
  if termux e then
    match telephony e with
    | Ok (code, device_id) =>
        if (code =? 0)%Z then
          if truthy device_id then Some device_id else None
        else None
    | Raise _ => None
    end
  else None.

(* ===================================================================== *)
(** * Strings: facts *)
(* ===================================================================== *)

Example strip_ex : strip (String "009" " 1.2.3.4 " ++ LF) = "1.2.3.4".
Proof. reflexivity. Qed.

Example split_ex : split_dot "1.2..4" = ["1"; "2"; ""; "4"].
Proof. reflexivity. Qed.

Example int_ex :
  (py_int " +1_0 ", py_int "010", py_int "1__0", py_int "", py_int "-0")
  = (Some 10%Z, Some 10%Z, None, None, Some 0%Z).
Proof. reflexivity. Qed.

(** [int] does not skip the separators FS to US, which [str.strip]
    removes, and refuses a literal of more than 4300 digits. *)
Example int_space_ex :
  (py_int ("4" ++ String "031" ""), py_int (String "012" "4 "),
   strip ("4" ++ String "031" ""), validate_ip ("1.2.3.4" ++ String "031" ""))
  = (None, Some 4%Z, "4", false).
Proof. reflexivity. Qed.

Example int_limit_ex :
  (py_int (string_of_list_ascii (repeat "0"%char 4300)),
   py_int (string_of_list_ascii (repeat "0"%char 4301)))
  = (Some 0%Z, None).
Proof. vm_compute. reflexivity. Qed.

Example splitlines_ex :
  splitlines ("a" ++ String "013" (String "010" (LF ++ "b" ++ LF ++ "c")))
  = ["a"; ""; "b"; "c"].
Proof. reflexivity. Qed.

Example validate_ex :
  (validate_ip "8.8.8.8", validate_ip "256.1.1.1", validate_ip "1.2.3", validate_ip "Unknown")
  = (true, false, false, false).
Proof. reflexivity. Qed.

Lemma splitlines_line (l rest : string) :
  one_line l ->
  splitlines (l ++ String "010" rest) = l :: splitlines rest.
Proof.
  unfold one_line. induction l as [|c l IH]; simpl; intros H.
  - reflexivity.
  - apply andb_true_iff in H as [Hc Hl].
    apply negb_true_iff in Hc. rewrite Hc, (IH Hl). reflexivity.
Qed.

Lemma splitlines_unlines (ls : list string) :
  Forall one_line ls -> splitlines (unlines ls) = ls.
Proof.
  induction 1 as [|l ls Hl _ IH]; simpl.
  - reflexivity.
  - rewrite (splitlines_line _ _ Hl), IH. reflexivity.
Qed.

Lemma string_app_assoc (a b c : string) : ((a ++ b) ++ c = a ++ (b ++ c))%string.
Proof. induction a; simpl; congruence. Qed.

Lemma unlines_snoc (ls : list string) (l : string) :
  unlines (ls ++ [l]) = (unlines ls ++ (l ++ LF))%string.
Proof.
  induction ls as [|x ls IH]; simpl.
  - reflexivity.
  - rewrite IH, string_app_assoc. reflexivity.
Qed.

Lemma in_list_spec (x : string) (l : list string) :
  in_list x l = true <-> In x l.
Proof.
  unfold in_list. rewrite existsb_exists. split.
  - intros (y & Hy & E). apply String.eqb_eq in E. subst. exact Hy.
  - intros H. exists x. split; [exact H | apply String.eqb_refl].
Qed.

Lemma in_list_false (x : string) (l : list string) :
  in_list x l = false <-> ~ In x l.
Proof.
  rewrite <- in_list_spec. destruct (in_list x l); split; intros; congruence.
Qed.

(* ===================================================================== *)
(** * The history store *)
(* ===================================================================== *)

Section History.

Variable w : World.
Variable lines : list string.
Hypothesis Hstore : store_holds (store w) lines.
Hypothesis Hlines : Forall one_line lines.

Lemma entries_store : entries (store w) = lines.
Proof.
  generalize Hstore. destruct (store w); simpl; intros H.
  - symmetry; assumption.
  - subst. apply splitlines_unlines; assumption.
  - contradiction.
Qed.

Lemma record_ip_present (ip : string) :
  In ip lines -> record_ip ip w = (Ok false, w).
Proof.
  intros Hin. unfold record_ip, bind, os_path_exists, file_read, ret.
  generalize Hstore. destruct (store w) eqn:E; simpl; intros H.
  - subst. contradiction.
  - subst. rewrite E. rewrite splitlines_unlines by assumption.
    apply in_list_spec in Hin. rewrite Hin. reflexivity.
  - contradiction.
Qed.

Lemma record_ip_new (ip : string) :
  ~ In ip lines ->
  record_ip ip w = (Ok true, set_store (StoreFile (unlines (lines ++ [ip]))) w).
Proof.
  intros Hin. unfold record_ip, bind, os_path_exists, file_read, file_write,
    file_append, ret.
  generalize Hstore. destruct (store w) eqn:E; simpl; intros H.
  - subst. rewrite E. reflexivity.
  - subst. rewrite E. rewrite splitlines_unlines by assumption.
    apply in_list_false in Hin. rewrite Hin. simpl. rewrite E.
    rewrite unlines_snoc. reflexivity.
  - contradiction.
Qed.

End History.

Lemma first_seen_NoDup (ips lines : list string) :
  NoDup lines -> NoDup (lines ++ first_seen lines ips).
Proof.
  revert lines. induction ips as [|ip ips IH]; simpl; intros lines Hnd.
  - rewrite app_nil_r. assumption.
  - destruct (in_list ip lines) eqn:E.
    + apply IH. assumption.
    + change (ip :: first_seen (lines ++ [ip]) ips)
        with ([ip] ++ first_seen (lines ++ [ip]) ips).
      rewrite app_assoc. apply IH.
      apply in_list_false in E.
      apply NoDup_app; [assumption | repeat constructor; simpl; tauto |].
      intros x Hx [<- | []]. contradiction.
Qed.

Lemma record_all_run (ips lines : list string) (w : World) :
  store_holds (store w) lines -> Forall one_line lines -> Forall one_line ips ->
  exists w',
    record_all ips w = (Ok (new_flags lines ips), w') /\
    store_holds (store w') (lines ++ first_seen lines ips).
Proof.
  revert lines w. induction ips as [|ip ips IH]; simpl; intros lines w Hs Hl Hi.
  - exists w. rewrite app_nil_r. split; [reflexivity | assumption].
  - inversion Hi as [|? ? Hip Hips]; subst.
    unfold bind. destruct (in_list ip lines) eqn:E.
    + apply in_list_spec in E.
      rewrite (record_ip_present w lines Hs Hl ip E).
      destruct (IH lines w Hs Hl Hips) as (w' & Hrun & Hst).
      exists w'. rewrite Hrun. split; [reflexivity | assumption].
    + apply in_list_false in E.
      rewrite (record_ip_new w lines Hs Hl ip E).
      destruct (IH (lines ++ [ip])
                  (set_store (StoreFile (unlines (lines ++ [ip]))) w))
        as (w' & Hrun & Hst).
      * reflexivity.
      * apply Forall_app. split; [assumption | repeat constructor; assumption].
      * assumption.
      * exists w'. rewrite Hrun. split; [reflexivity |].
        rewrite <- app_assoc in Hst. exact Hst.
Qed.

(** C3 (amended).  From a store that is missing or holds distinct entries,
    one per line, any run of [record_ip] calls on single-line addresses
    returns for each call whether the address is observed for the first
    time, and leaves the file holding the old entries followed by the new
    addresses in first-observed order, without duplicates.  Recording an
    address that is present returns [False] and changes nothing; recording
    a single-line address that is absent returns [True] and appends it. *)
Theorem record_ip_history (w : World) (lines ips : list string) :
  store_holds (store w) lines ->
  Forall one_line lines ->
  NoDup lines ->
  Forall one_line ips ->
  (exists w',
     record_all ips w = (Ok (new_flags lines ips), w') /\
     entries (store w') = lines ++ first_seen lines ips /\
     NoDup (entries (store w'))) /\
  (forall ip, In ip lines -> record_ip ip w = (Ok false, w)) /\
  (forall ip, one_line ip -> ~ In ip lines ->
     exists w',
       record_ip ip w = (Ok true, w') /\
       entries (store w') = entries (store w) ++ [ip] /\
       count (store w') = S (count (store w))).
Proof.
  intros Hs Hl Hnd Hi. split; [|split].
  - destruct (record_all_run ips lines w Hs Hl Hi) as (w' & Hrun & Hst).
    assert (Hfs : Forall one_line (lines ++ first_seen lines ips)).
    { clear - Hl Hi. revert lines Hl.
      induction Hi as [|ip ips Hip _ IH]; simpl; intros lines Hl.
      - rewrite app_nil_r. assumption.
      - destruct (in_list ip lines); [apply IH; assumption |].
        change (ip :: first_seen (lines ++ [ip]) ips)
          with ([ip] ++ first_seen (lines ++ [ip]) ips).
        rewrite app_assoc. apply IH. apply Forall_app.
        split; [assumption | repeat constructor; assumption]. }
    exists w'. rewrite (entries_store w' _ Hst Hfs).
    split; [exact Hrun | split; [reflexivity | apply first_seen_NoDup; assumption]].
  - intros ip Hin. apply record_ip_present with lines; assumption.
  - intros ip Hip Hin. eexists. split.
    + apply record_ip_new; eassumption.
    + unfold count. rewrite (entries_store w lines Hs Hl). simpl.
      rewrite splitlines_unlines.
      * split; [reflexivity | rewrite length_app; simpl; lia].
      * apply Forall_app. split; [assumption | repeat constructor; assumption].
Qed.

Lemma record_ip_history_witness :
  let w := Sample.world Sample.quiet_env StoreAbsent in
  exists w',
    record_all ["3.3.3.3"; "3.3.3.3"; "4.4.4.4"] w = (Ok [true; false; true], w') /\
    entries (store w') = ["3.3.3.3"; "4.4.4.4"].
Proof.
  intros w.
  destruct (record_ip_history w [] ["3.3.3.3"; "3.3.3.3"; "4.4.4.4"])
    as [(w' & Hrun & Hent & _) _].
  - reflexivity.
  - constructor.
  - constructor.
  - repeat constructor.
  - exists w'. split; [exact Hrun | exact Hent].
Defined.

(** C3, as stated, fails: an address of two lines is appended at each
    call, and a file that starts with a repeated line keeps it. *)
Lemma record_ip_history_counterexample :
  let w := Sample.world Sample.quiet_env StoreAbsent in
  let w1 := snd (record_ip Sample.two_lines w) in
  let w2 := snd (record_ip Sample.two_lines w1) in
  fst (record_ip Sample.two_lines w) = Ok true /\
  fst (record_ip Sample.two_lines w1) = Ok true /\
  entries (store w2) = ["a"; "b"; "a"; "b"] /\
  count (store w2) <> count (store w1) /\
  ~ NoDup (entries (store w2)) /\
  ~ NoDup (entries (StoreFile ("x" ++ LF ++ "x" ++ LF))).
Proof.
  repeat split; try reflexivity.
  - discriminate.
  - intros H. inversion H as [|? ? Hin _]; subst. apply Hin. simpl. tauto.
  - intros H. inversion H as [|? ? Hin _]; subst. apply Hin. simpl. tauto.
Qed.

(* ===================================================================== *)
(** * Invariants of computations *)
(* ===================================================================== *)

Section Keeps.

Variable R : World -> World -> Prop.
Hypothesis HR : preorder R.

Lemma keeps_ret {A} (a : A) : keeps R (ret a).
Proof. intros w. apply (pre_refl HR). Qed.

Lemma keeps_raise {A} (e : exn) : keeps R (@raise A e).
Proof. intros w. apply (pre_refl HR). Qed.

Lemma keeps_bind {A B} (m : M A) (f : A -> M B) :
  keeps R m -> (forall a, keeps R (f a)) -> keeps R (bind m f).
Proof.
  intros Hm Hf w. unfold bind. specialize (Hm w).
  destruct (m w) as [[a|e] w1]; simpl in *.
  - apply (pre_trans HR) with w1; [assumption | apply Hf].
  - assumption.
Qed.

Lemma keeps_try_except {A} (m : M A) (catches : exn -> bool) (h : exn -> M A) :
  keeps R m -> (forall e, keeps R (h e)) -> keeps R (try_except m catches h).
Proof.
  intros Hm Hh w. unfold try_except. specialize (Hm w).
  destruct (m w) as [[a|e] w1]; simpl in *.
  - assumption.
  - destruct (catches e); simpl; [|assumption].
    apply (pre_trans HR) with w1; [assumption | apply Hh].
Qed.

End Keeps.

Lemma grows_preorder (P : event -> Prop) : preorder (grows P).
Proof.
  split.
  - intros w. repeat split; auto. exists []. rewrite app_nil_r. auto.
  - intros a b c (E1 & C1 & R1 & evs1 & T1 & F1) (E2 & C2 & R2 & evs2 & T2 & F2).
    repeat split.
    + congruence.
    + intros ch. specialize (C1 ch). specialize (C2 ch). lia.
    + auto.
    + exists (evs1 ++ evs2). rewrite T2, T1, app_assoc.
      split; [reflexivity | apply Forall_app; auto].
Qed.

Lemma grows_weaken (P Q : event -> Prop) (w w' : World) :
  (forall e, P e -> Q e) -> grows P w w' -> grows Q w w'.
Proof.
  intros H (E & C & Rn & evs & T & F). repeat split; auto.
  exists evs. split; [assumption | eapply Forall_impl; eauto].
Qed.

Lemma keeps_weaken (P Q : event -> Prop) {A} (m : M A) :
  (forall e, P e -> Q e) -> keeps (grows P) m -> keeps (grows Q) m.
Proof. intros H Hm w. eapply grows_weaken; eauto. Qed.

Lemma grows_events (P : event -> Prop) (w w' : World) :
  grows P w w' ->
  trace w' = trace w ++ events_since w w' /\ Forall P (events_since w w').
Proof.
  intros (_ & _ & _ & evs & T & F). unfold events_since.
  rewrite T, skipn_app, Nat.sub_diag, skipn_all. simpl. auto.
Qed.

Lemma events_since_trans (P : event -> Prop) (a b c : World) :
  grows P a b -> grows P b c ->
  events_since a c = events_since a b ++ events_since b c.
Proof.
  intros Hab Hbc.
  destruct (grows_events _ _ _ Hab) as [Tab _].
  destruct (grows_events _ _ _ Hbc) as [Tbc _].
  unfold events_since at 1. rewrite Tbc, Tab, <- app_assoc.
  rewrite skipn_app, Nat.sub_diag, skipn_all. reflexivity.
Qed.

Lemma grows_emit (P : event -> Prop) (e : event) :
  P e -> keeps (grows P) (emit e).
Proof.
  intros H w. simpl. repeat split; auto. exists [e]. auto.
Qed.

(** A step that leaves the oracles and the trace alone. *)
Lemma grows_silent (P : event -> Prop) (w w' : World) :
  env w' = env w -> (forall c, calls w c <= calls w' c) ->
  (running w = false -> running w' = false) -> trace w' = trace w ->
  grows P w w'.
Proof.
  intros E C Rn T. repeat split; auto. exists []. rewrite app_nil_r. auto.
Qed.

Lemma grows_ask (P : event -> Prop) {A} (c : channel) (f : Env -> nat -> A) :
  keeps (grows P) (ask c f).
Proof.
  intros w. apply grows_silent; simpl; auto.
  intros c'. destruct (channel_eqb c c'); lia.
Qed.

Lemma untouched_preorder (cs : channel -> bool) : preorder (untouched cs).
Proof.
  split.
  - intros w. split; auto.
  - intros a b c [E1 C1] [E2 C2]. split; [congruence |].
    intros ch H. rewrite (C2 ch H). auto.
Qed.

Lemma untouched_emit (cs : channel -> bool) (e : event) :
  keeps (untouched cs) (emit e).
Proof. intros w. split; auto. Qed.

Lemma untouched_ask (cs : channel -> bool) {A} (c : channel) (f : Env -> nat -> A) :
  cs c = false -> keeps (untouched cs) (ask c f).
Proof.
  intros H w. split; simpl; auto.
  intros c' H'. destruct (channel_eqb c c') eqn:E; [|reflexivity].
  destruct c, c'; simpl in E; congruence.
Qed.

(** Proof search for [keeps]: follow the structure of the computation and
    close its leaves with [leaf]. *)
Ltac keeps_with HR leaf :=
  repeat lazymatch goal with
    | |- keeps _ (bind _ _) => apply (keeps_bind _ HR); [| intros ?]
    | |- keeps _ (try_except _ _ _) => apply (keeps_try_except _ HR); [| intros ?]
    | |- keeps _ (ret _) => apply (keeps_ret _ HR)
    | |- keeps _ (raise _) => apply (keeps_raise _ HR)
    | |- keeps _ (lift_result ?r) => destruct r; simpl
    | |- keeps _ (if ?b then _ else _) => destruct b
    | |- keeps _ (match ?x with _ => _ end) => destruct x
    | |- keeps _ (print _) => unfold print
    | |- keeps _ (sleep _) => unfold sleep
    | |- _ => leaf
    end.

Lemma inner_cmd (e : event) : inner_event e -> cmd_event e.
Proof. intros [H1 H2]. split; [assumption |]. destruct e as [| | | | | | | | |[]]; auto. Qed.

Lemma cmd_timeout (e : event) : cmd_event e -> timeout_ok e.
Proof. intros [H _]. exact H. Qed.

Lemma inner_timeout (e : event) : inner_event e -> timeout_ok e.
Proof. intros [H _]. exact H. Qed.

Create HintDb grows.

Ltac grows_leaf :=
  first
    [ solve [eauto with grows]
    | apply grows_emit;
      solve [cbv [inner_event cmd_event timeout_ok poll_pause no_sleep];
             repeat split; auto; lia]
    | apply grows_ask
    | eapply (keeps_weaken inner_event); [exact inner_cmd | solve [eauto with grows]]
    | eapply (keeps_weaken inner_event); [exact inner_timeout | solve [eauto with grows]]
    | eapply (keeps_weaken cmd_event); [exact cmd_timeout | solve [eauto with grows]]
    | let w := fresh "w" in
      intros w;
      cbv beta delta [os_path_exists file_write file_read file_append
                      assign_current_ip assign_running lift_result];
      simpl;
      repeat match goal with
        | |- context [match ?x with _ => _ end] => destruct x; simpl
        end;
      solve [apply grows_silent; simpl; auto] ].

Ltac grows_auto := keeps_with (grows_preorder inner_event) grows_leaf.

(** ** The loop of [change_mobile_ip_at_phone] *)

Lemma confirm_loop_unroll (attempt : nat) :
  confirm_loop attempt =
  if lt_dec attempt max_attempts then
    new_ip <- get_public_ipv4 ;;
    let next_attempt :=
      print (MsgWaiting (attempt + 1) max_attempts) ;;
      sleep 2 ;;
      confirm_loop (S attempt) in
    match new_ip with
    | Some ip => if truthy ip then confirmed ip else next_attempt
    | None => next_attempt
    end
  else print MsgTimeout ;; ret None.
Proof.
  rewrite confirm_loop_equation_1.
  destruct (lt_dec attempt max_attempts); reflexivity.
Qed.

(** Induction along the loop: from attempt [k + 1] back to attempt [k]. *)
Lemma attempts_ind (Q : nat -> Prop) :
  (forall attempt, (attempt < max_attempts -> Q (S attempt)) -> Q attempt) ->
  forall attempt, Q attempt.
Proof.
  intros step attempt.
  remember (max_attempts - attempt) as k eqn:Ek.
  revert attempt Ek. induction k as [|k IH]; intros attempt Ek.
  - apply step. intros Hlt. lia.
  - apply step. intros _. apply IH. lia.
Qed.

(** ** Events of the rotation *)

Lemma requests_get_inner : keeps (grows inner_event) (requests_get 10).
Proof. unfold requests_get. grows_auto. Qed.
#[local] Hint Resolve requests_get_inner : grows.

Lemma get_public_ipv4_inner : keeps (grows inner_event) get_public_ipv4.
Proof. unfold get_public_ipv4. grows_auto. Qed.
#[local] Hint Resolve get_public_ipv4_inner : grows.

Lemma record_ip_inner (ip : string) : keeps (grows inner_event) (record_ip ip).
Proof. unfold record_ip. grows_auto. Qed.
#[local] Hint Resolve record_ip_inner : grows.

Lemma subprocess_su_inner (c : su_command) : keeps (grows inner_event) (subprocess_su c).
Proof. unfold subprocess_su. grows_auto. Qed.
#[local] Hint Resolve subprocess_su_inner : grows.

Lemma toggle_airplane_mode_inner (state : string) :
  keeps (grows inner_event) (toggle_airplane_mode state).
Proof. unfold toggle_airplane_mode. grows_auto. Qed.
#[local] Hint Resolve toggle_airplane_mode_inner : grows.

Lemma load_device_name_inner : keeps (grows inner_event) load_device_name.
Proof. unfold load_device_name. grows_auto. Qed.
#[local] Hint Resolve load_device_name_inner : grows.

Lemma confirmed_inner (ip : string) : keeps (grows inner_event) (confirmed ip).
Proof. unfold confirmed. grows_auto. Qed.
#[local] Hint Resolve confirmed_inner : grows.

Lemma confirm_loop_inner (attempt : nat) :
  keeps (grows inner_event) (confirm_loop attempt).
Proof.
  induction attempt as [attempt IH] using attempts_ind.
  rewrite confirm_loop_unroll.
  destruct (lt_dec attempt max_attempts) as [Hlt|Hge]; [specialize (IH Hlt) |];
    cbv zeta; grows_auto.
Qed.
#[local] Hint Resolve confirm_loop_inner : grows.

Lemma change_mobile_ip_at_phone_inner :
  keeps (grows inner_event) change_mobile_ip_at_phone.
Proof. unfold change_mobile_ip_at_phone. grows_auto. Qed.
#[local] Hint Resolve change_mobile_ip_at_phone_inner : grows.

Lemma IPManager_change_ip_inner : keeps (grows inner_event) IPManager_change_ip.
Proof. unfold IPManager_change_ip, time_time. cbv zeta. grows_auto. Qed.
#[local] Hint Resolve IPManager_change_ip_inner : grows.

(** ** Resolver calls, step by step *)

Lemma get_public_ipv4_run (w : World) :
  get_public_ipv4 w =
  (resolution (env w) (calls w ChIcanhazip),
   bump ChIcanhazip (add_event (EvRequestsGet 10) w)).
Proof.
  unfold get_public_ipv4, try_except, requests_get, bind, emit, ask, resolution.
  simpl. destruct (icanhazip (env w) (calls w ChIcanhazip)) as [body|[]]; reflexivity.
Qed.

Ltac untouched_leaf :=
  first
    [ solve [eauto with untouched]
    | apply untouched_emit
    | apply untouched_ask; reflexivity
    | let w := fresh "w" in
      intros w;
      cbv beta delta [os_path_exists file_write file_read file_append
                      assign_current_ip assign_running lift_result];
      simpl;
      repeat match goal with
        | |- context [match ?x with _ => _ end] => destruct x; simpl
        end;
      solve [split; auto] ].

Ltac untouched_auto cs := keeps_with (untouched_preorder cs) untouched_leaf.

Create HintDb untouched.

Section Untouched.

Variable cs : channel -> bool.
Hypothesis no_su : cs ChSu = false.

Lemma record_ip_untouched (ip : string) : keeps (untouched cs) (record_ip ip).
Proof. unfold record_ip. untouched_auto cs. Qed.

Lemma confirmed_untouched (ip : string) : keeps (untouched cs) (confirmed ip).
Proof.
  pose proof record_ip_untouched as H.
  unfold confirmed. untouched_auto cs.
Qed.

Lemma load_device_name_untouched : keeps (untouched cs) load_device_name.
Proof. unfold load_device_name. untouched_auto cs. Qed.

Lemma subprocess_su_untouched (c : su_command) : keeps (untouched cs) (subprocess_su c).
Proof.
  unfold subprocess_su. keeps_with (untouched_preorder cs) idtac.
  - apply untouched_emit.
  - apply untouched_ask. exact no_su.
Qed.

Lemma toggle_airplane_mode_untouched (state : string) :
  keeps (untouched cs) (toggle_airplane_mode state).
Proof.
  pose proof subprocess_su_untouched as H.
  unfold toggle_airplane_mode. untouched_auto cs.
Qed.

End Untouched.

Lemma get_public_ipv4_clock : keeps (untouched (only ChClock)) get_public_ipv4.
Proof. unfold get_public_ipv4, requests_get. untouched_auto (only ChClock). Qed.

Lemma confirm_loop_clock (attempt : nat) :
  keeps (untouched (only ChClock)) (confirm_loop attempt).
Proof.
  pose proof get_public_ipv4_clock as Hg.
  pose proof (confirmed_untouched (only ChClock)) as Hc.
  induction attempt as [attempt IH] using attempts_ind.
  rewrite confirm_loop_unroll.
  destruct (lt_dec attempt max_attempts) as [Hlt|Hge]; [specialize (IH Hlt) |];
    cbv zeta; untouched_auto (only ChClock).
Qed.

Lemma change_mobile_ip_at_phone_clock :
  keeps (untouched (only ChClock)) change_mobile_ip_at_phone.
Proof.
  pose proof get_public_ipv4_clock as Hg.
  pose proof confirm_loop_clock as Hc.
  pose proof (load_device_name_untouched (only ChClock)) as Hl.
  pose proof (toggle_airplane_mode_untouched (only ChClock) eq_refl) as Ht.
  unfold change_mobile_ip_at_phone. untouched_auto (only ChClock).
Qed.

(** ** Running a sequence *)

Lemma run_eq {A} (m : M A) (w : World) (r : Result A) :
  fst (m w) = r -> m w = (r, snd (m w)).
Proof. intros <-. destruct (m w); reflexivity. Qed.

Lemma bind_ok {A B} (m : M A) (f : A -> M B) (w w' : World) (a : A) :
  m w = (Ok a, w') -> bind m f w = f a w'.
Proof. intros E. unfold bind. rewrite E. reflexivity. Qed.

Lemma bind_raise {A B} (m : M A) (f : A -> M B) (w w' : World) (e : exn) :
  m w = (Raise e, w') -> bind m f w = (Raise e, w').
Proof. intros E. unfold bind. rewrite E. reflexivity. Qed.

Lemma bind_emit {B} (e : event) (f : unit -> M B) (w : World) :
  bind (emit e) f w = f tt (add_event e w).
Proof. reflexivity. Qed.

Lemma bind_print {B} (m : message) (f : unit -> M B) (w : World) :
  bind (print m) f w = f tt (add_event (EvPrint m) w).
Proof. reflexivity. Qed.

Lemma bind_sleep {B} (s : Z) (f : unit -> M B) (w : World) :
  bind (sleep s) f w = f tt (add_event (EvSleep s) w).
Proof. reflexivity. Qed.

Lemma calls_bump_same (c : channel) (w : World) :
  calls (bump c w) c = S (calls w c).
Proof. simpl. destruct c; reflexivity. Qed.

(** What a step that leaves the resolver alone does to its counter. *)
Lemma untouched_run {A} (m : M A) (w w' : World) (r : Result A) (c : channel) :
  keeps (untouched (only c)) m -> m w = (r, w') ->
  env w' = env w /\ calls w' c = calls w c.
Proof.
  intros H E. specialize (H w). rewrite E in H. destruct H as [He Hc].
  split; [assumption | apply Hc]. destruct c; reflexivity.
Qed.

(** The part of [change_mobile_ip_at_phone] before the loop either raises,
    or hands over to the loop after exactly one resolver call. *)
Lemma phone_prelude (w : World) :
  (exists e w',
     change_mobile_ip_at_phone w = (Raise e, w') /\
     calls w' ChIcanhazip <= S (calls w ChIcanhazip)) \/
  (exists wl,
     change_mobile_ip_at_phone w = confirm_loop 0 wl /\
     env wl = env w /\
     calls wl ChIcanhazip = S (calls w ChIcanhazip) /\
     (exists o, resolution (env w) (calls w ChIcanhazip) = Ok o)).
Proof.
  unfold change_mobile_ip_at_phone.
  destruct (load_device_name w) as [[name|e] w1] eqn:E1;
    destruct (untouched_run _ _ _ _ ChIcanhazip
                (load_device_name_untouched _) E1) as [He1 Hc1].
  2: { left. exists e, w1. rewrite (bind_raise _ _ _ _ _ E1). split; [reflexivity | lia]. }
  rewrite (bind_ok _ _ _ _ _ E1).
  pose proof (get_public_ipv4_run w1) as E2.
  set (w2 := bump ChIcanhazip (add_event (EvRequestsGet 10) w1)) in *.
  assert (Hc2 : calls w2 ChIcanhazip = S (calls w ChIcanhazip)).
  { unfold w2. rewrite calls_bump_same. simpl. congruence. }
  assert (He2 : env w2 = env w) by (unfold w2; simpl; congruence).
  destruct (resolution (env w1) (calls w1 ChIcanhazip)) as [old|e] eqn:Er.
  2: { left. exists e, w2. rewrite (bind_raise _ _ _ _ _ E2). split; [reflexivity | lia]. }
  rewrite (bind_ok _ _ _ _ _ E2).
  rewrite !bind_print.
  set (w3 := add_event _ (add_event _ (add_event _ w2))).
  destruct (toggle_airplane_mode "on" w3) as [[[]|e] w4] eqn:E4;
    destruct (untouched_run _ _ _ _ ChIcanhazip
                (toggle_airplane_mode_untouched _ eq_refl "on") E4) as [He4 Hc4].
  2: { left. exists e, w4. rewrite (bind_raise _ _ _ _ _ E4).
       split; [reflexivity |]. rewrite Hc4. simpl. lia. }
  rewrite (bind_ok _ _ _ _ _ E4), bind_sleep.
  set (w5 := add_event _ w4).
  destruct (toggle_airplane_mode "off" w5) as [[[]|e] w6] eqn:E6;
    destruct (untouched_run _ _ _ _ ChIcanhazip
                (toggle_airplane_mode_untouched _ eq_refl "off") E6) as [He6 Hc6].
  2: { left. exists e, w6. rewrite (bind_raise _ _ _ _ _ E6).
       split; [reflexivity |]. rewrite Hc6. simpl. rewrite Hc4. simpl. lia. }
  rewrite (bind_ok _ _ _ _ _ E6), bind_sleep, bind_print.
  right. eexists. split; [reflexivity |]. simpl.
  rewrite He6, Hc6. simpl. rewrite He4, Hc4. simpl.
  split; [assumption | split; [assumption |]].
  exists old. rewrite <- He1, <- Hc1. exact Er.
Qed.

(** ** The confirmation loop *)

Lemma slept_app (a b : list event) : slept (a ++ b) = (slept a + slept b)%Z.
Proof.
  induction a as [|e a IH]; simpl; [reflexivity |].
  destruct e; rewrite ?IH; lia.
Qed.

Lemma unresolved_run (w : World) :
  unresolved (env w) (calls w ChIcanhazip) ->
  exists o, get_public_ipv4 w =
              (Ok o, bump ChIcanhazip (add_event (EvRequestsGet 10) w)) /\
            is_truthy o = false.
Proof.
  intros (o & Hr & Ht). exists o. rewrite get_public_ipv4_run, Hr. auto.
Qed.

Lemma confirm_loop_next (attempt : nat) (w : World) :
  attempt < max_attempts ->
  unresolved (env w) (calls w ChIcanhazip) ->
  confirm_loop attempt w =
  confirm_loop (S attempt)
    (add_event (EvSleep 2)
       (add_event (EvPrint (MsgWaiting (attempt + 1) max_attempts))
          (bump ChIcanhazip (add_event (EvRequestsGet 10) w)))).
Proof.
  intros Hlt Hu. rewrite confirm_loop_unroll.
  destruct (lt_dec attempt max_attempts) as [_|]; [|contradiction].
  destruct (unresolved_run w Hu) as (o & Hrun & Ht).
  rewrite (bind_ok _ _ _ _ _ Hrun). cbv zeta.
  destruct o as [ip|]; simpl in Ht; [rewrite Ht |]; reflexivity.
Qed.

Lemma confirm_loop_resolved (attempt : nat) (w : World) (ip : string) :
  attempt < max_attempts ->
  resolution (env w) (calls w ChIcanhazip) = Ok (Some ip) ->
  truthy ip = true ->
  confirm_loop attempt w =
  confirmed ip (bump ChIcanhazip (add_event (EvRequestsGet 10) w)).
Proof.
  intros Hlt Hr Ht. rewrite confirm_loop_unroll.
  destruct (lt_dec attempt max_attempts) as [_|]; [|contradiction].
  pose proof (get_public_ipv4_run w) as Hrun. rewrite Hr in Hrun.
  rewrite (bind_ok _ _ _ _ _ Hrun). cbv zeta. rewrite Ht. reflexivity.
Qed.

Lemma confirm_loop_timeout (attempt : nat) (w : World) :
  ~ attempt < max_attempts ->
  confirm_loop attempt w = (Ok None, add_event (EvPrint MsgTimeout) w).
Proof.
  intros Hge. rewrite confirm_loop_unroll.
  destruct (lt_dec attempt max_attempts); [contradiction | reflexivity].
Qed.

(** When every remaining attempt is unresolved the loop makes all of them
    and returns [None]. *)
Lemma confirm_loop_exhausted (attempt : nat) (w : World) :
  (forall j, j < max_attempts - attempt ->
        unresolved (env w) (calls w ChIcanhazip + j)) ->
  exists w',
    confirm_loop attempt w = (Ok None, w') /\
    calls w' ChIcanhazip = calls w ChIcanhazip + (max_attempts - attempt) /\
    slept (events_since w w') = (2 * Z.of_nat (max_attempts - attempt))%Z.
Proof.
  revert w. induction attempt as [attempt IH] using attempts_ind. intros w Hall.
  destruct (lt_dec attempt max_attempts) as [Hlt|Hge].
  - rewrite confirm_loop_next; [| assumption |].
    2: { specialize (Hall 0). rewrite Nat.add_0_r in Hall. apply Hall. lia. }
    set (w1 := add_event _ (add_event _ (bump _ (add_event _ w)))).
    destruct (IH Hlt w1) as (w' & Hrun & Hc & Hs).
    { intros j Hj. unfold w1. simpl. rewrite <- Nat.add_succ_r.
      apply Hall. lia. }
    exists w'. split; [exact Hrun | split].
    + rewrite Hc.
      replace (calls w1 ChIcanhazip) with (S (calls w ChIcanhazip)) by reflexivity.
      lia.
    + assert (G1 : grows inner_event w w1).
      { unfold w1. repeat split; simpl; auto.
        - intros c. destruct c; simpl; lia.
        - eexists. rewrite <- !app_assoc. split; [reflexivity |].
          repeat constructor; cbv [inner_event timeout_ok]; auto. }
      assert (G2 : grows inner_event w1 w').
      { pose proof (confirm_loop_inner (S attempt) w1) as G. rewrite Hrun in G. exact G. }
      rewrite (events_since_trans _ _ _ _ G1 G2).
      assert (E1 : events_since w w1 =
                   [EvRequestsGet 10;
                    EvPrint (MsgWaiting (attempt + 1) max_attempts); EvSleep 2]).
      { unfold events_since, w1. simpl. rewrite <- !app_assoc.
        rewrite skipn_app, Nat.sub_diag, skipn_all. reflexivity. }
      rewrite slept_app, E1, Hs.
      change (slept [EvRequestsGet 10; EvPrint (MsgWaiting (attempt + 1) max_attempts);
                     EvSleep 2]) with 2%Z.
      lia.
  - rewrite confirm_loop_timeout by assumption.
    eexists. split; [reflexivity |].
    replace (max_attempts - attempt) with 0 by lia.
    split; [simpl; lia |].
    unfold events_since. simpl.
    rewrite skipn_app, Nat.sub_diag, skipn_all. reflexivity.
Qed.

Lemma bind_inv {A B} (m : M A) (f : A -> M B) (w w' : World) (b : B) :
  bind m f w = (Ok b, w') ->
  exists a w1, m w = (Ok a, w1) /\ f a w1 = (Ok b, w').
Proof.
  unfold bind. destruct (m w) as [[a|e] w1]; intros H.
  - exists a, w1. auto.
  - discriminate.
Qed.

Lemma bind_ask {A B} (c : channel) (g : Env -> nat -> A) (f : A -> M B) (w : World) :
  bind (ask c g) f w = f (g (env w) (calls w c)) (bump c w).
Proof. reflexivity. Qed.

Lemma confirmed_returns (ip : string) (w w' : World) (o : option string) :
  confirmed ip w = (Ok o, w') -> o = Some ip.
Proof.
  unfold confirmed. intros H.
  repeat (apply bind_inv in H; destruct H as (? & ? & _ & H)).
  inversion H. reflexivity.
Qed.

Lemma confirm_loop_truthy (attempt : nat) (w w' : World) (ip : string) :
  confirm_loop attempt w = (Ok (Some ip), w') -> truthy ip = true.
Proof.
  revert w. induction attempt as [attempt IH] using attempts_ind. intros w.
  rewrite confirm_loop_unroll.
  destruct (lt_dec attempt max_attempts) as [Hlt|Hge]; [| discriminate].
  intros H. apply bind_inv in H. destruct H as (o & w1 & _ & H). cbv zeta in H.
  destruct o as [ip0|].
  - destruct (truthy ip0) eqn:Et.
    + apply confirmed_returns in H. congruence.
    + rewrite bind_print, bind_sleep in H. eapply IH; eauto.
  - rewrite bind_print, bind_sleep in H. eapply IH; eauto.
Qed.

Lemma change_mobile_ip_at_phone_truthy (w w' : World) (ip : string) :
  change_mobile_ip_at_phone w = (Ok (Some ip), w') -> truthy ip = true.
Proof.
  intros H. destruct (phone_prelude w) as [(e & w1 & E & _) | (wl & E & _)].
  - congruence.
  - rewrite E in H. eapply confirm_loop_truthy; eauto.
Qed.

(** C1.  A rotation that returns reports [success = True] exactly when the
    confirmation returned an address and this address is not the old one;
    the old address is the one resolved at the start, ["Unknown"] when none
    was resolved; without success the new address is the unchanged one, or
    ["Failed"] when none was confirmed. *)
Theorem change_ip_success_iff (w w' : World) (r : IpChangeResult) :
  IPManager_change_ip w = (Ok r, w') ->
  exists (old new : option string) (w1 w2 : World),
    get_public_ipv4 (snd (time_time w)) = (Ok old, w1) /\
    change_mobile_ip_at_phone w1 = (Ok new, w2) /\
    old_ip r = or_else old "Unknown" /\
    (is_truthy old = false -> old_ip r = "Unknown") /\
    (success r = true <-> exists ip, new = Some ip /\ ip <> old_ip r) /\
    (success r = true -> new = Some (new_ip r)) /\
    (new = None -> success r = false /\ new_ip r = "Failed") /\
    (new = Some (old_ip r) -> success r = false /\ new_ip r = old_ip r).
Proof.
  unfold IPManager_change_ip, time_time. rewrite bind_ask. intros H.
  apply bind_inv in H. destruct H as (old & w1 & Hold & H). cbv zeta in H.
  apply bind_inv in H. destruct H as (new & w2 & Hnew & H).
  rewrite bind_ask in H.
  exists old, new, w1, w2. split; [exact Hold | split; [exact Hnew |]].
  assert (Hu : is_truthy old = false -> or_else old "Unknown" = "Unknown").
  { destruct old as [[|c s]|]; simpl; intros; congruence. }
  destruct new as [ip|].
  - pose proof (change_mobile_ip_at_phone_truthy _ _ _ Hnew) as Ht.
    simpl in H. rewrite Ht in H. simpl in H.
    destruct (String.eqb ip (or_else old "Unknown")) eqn:Eq; simpl in H;
      inversion H; subst; clear H; simpl.
    + apply String.eqb_eq in Eq.
      repeat split; auto; try discriminate; try congruence.
      intros (ip' & E & Hne). inversion E; subst. congruence.
    + apply String.eqb_neq in Eq.
      repeat split; auto; try discriminate; try congruence;
        try (intros E; inversion E; congruence).
      exists ip. auto.
  - simpl in H. inversion H; subst; clear H; simpl.
    repeat split; auto; try discriminate.
    intros (ip' & E & _). discriminate.
Qed.

Lemma change_ip_success_iff_witness :
  let w := Scenario.changed in
  let r := {| success := true; old_ip := "1.1.1.1"; new_ip := "2.2.2.2";
              change_duration := 12 |} in
  exists (old new : option string) (w1 w2 : World),
    get_public_ipv4 (snd (time_time w)) = (Ok old, w1) /\
    change_mobile_ip_at_phone w1 = (Ok new, w2) /\
    old_ip r = or_else old "Unknown" /\
    (is_truthy old = false -> old_ip r = "Unknown") /\
    (success r = true <-> exists ip, new = Some ip /\ ip <> old_ip r) /\
    (success r = true -> new = Some (new_ip r)) /\
    (new = None -> success r = false /\ new_ip r = "Failed") /\
    (new = Some (old_ip r) -> success r = false /\ new_ip r = old_ip r).
Proof.
  intros w r.
  apply (change_ip_success_iff w (snd (IPManager_change_ip w)) r).
  apply run_eq. vm_compute. reflexivity.
Defined.

Example success_changed :
  fst (IPManager_change_ip Scenario.changed) =
  Ok {| success := true; old_ip := "1.1.1.1"; new_ip := "2.2.2.2";
        change_duration := 12 |}.
Proof. vm_compute. reflexivity. Qed.

Example success_unchanged :
  fst (IPManager_change_ip Scenario.unchanged) =
  Ok {| success := false; old_ip := "1.1.1.1"; new_ip := "1.1.1.1";
        change_duration := 12 |}.
Proof. vm_compute. reflexivity. Qed.

Example success_unresolved :
  fst (IPManager_change_ip Scenario.offline) =
  Ok {| success := false; old_ip := "1.1.1.1"; new_ip := "Failed";
        change_duration := 12 |}.
Proof. vm_compute. reflexivity. Qed.

(** ** The exhaustion path *)

(** C4.  When the fifteen confirmation attempts are made (the rotation
    calls the resolver seventeen times: twice for the old address, then
    once per attempt) and none of them resolves an address, the rotation
    returns the result with the old address, ["Failed"] as new address, no
    success and the elapsed time; it does not raise. *)
Theorem rotation_exhausted (w w' : World) (res : Result IpChangeResult) :
  IPManager_change_ip w = (res, w') ->
  calls w' ChIcanhazip = calls w ChIcanhazip + 2 + max_attempts ->
  (forall k, k < max_attempts ->
        unresolved (env w) (calls w ChIcanhazip + 2 + k)) ->
  exists old,
    resolution (env w) (calls w ChIcanhazip) = Ok old /\
    res = Ok {| success := false;
                old_ip := or_else old "Unknown";
                new_ip := "Failed";
                change_duration :=
                  clock (env w) (S (calls w ChClock)) - clock (env w) (calls w ChClock) |}.
Proof.
  unfold IPManager_change_ip, time_time. rewrite bind_ask.
  set (w0 := bump ChClock w).
  pose proof (get_public_ipv4_run w0) as E1.
  change (resolution (env w0) (calls w0 ChIcanhazip))
    with (resolution (env w) (calls w ChIcanhazip)) in E1.
  set (w1 := bump ChIcanhazip (add_event (EvRequestsGet 10) w0)) in *.
  assert (Hc1 : calls w1 ChIcanhazip = S (calls w ChIcanhazip)) by reflexivity.
  assert (He1 : env w1 = env w) by reflexivity.
  assert (Hk1 : calls w1 ChClock = S (calls w ChClock)) by reflexivity.
  destruct (resolution (env w) (calls w ChIcanhazip)) as [old|e].
  2: { rewrite (bind_raise _ _ _ _ _ E1). intros H Hc _. inversion H; subst. lia. }
  rewrite (bind_ok _ _ _ _ _ E1). cbv zeta. intros H Hc Hall.
  destruct (phone_prelude w1) as [(e & w2 & E2 & Hc2) | (wl & E2 & Hel & Hcl & _)].
  - rewrite (bind_raise _ _ _ _ _ E2) in H. inversion H; subst.
    unfold max_attempts in Hc. lia.
  - destruct (confirm_loop_exhausted 0 wl) as (w2 & E3 & Hc3 & _).
    { intros j Hj. rewrite Hel, He1, Hcl, Hc1.
      replace (S (S (calls w ChIcanhazip)) + j) with (calls w ChIcanhazip + 2 + j) by lia.
      apply Hall. lia. }
    rewrite E3 in E2.
    destruct (untouched_run _ _ _ _ ChClock change_mobile_ip_at_phone_clock E2)
      as [He2 Hk2].
    rewrite (bind_ok _ _ _ _ _ E2), bind_ask in H. simpl in H.
    rewrite He2, Hk2, He1, Hk1 in H.
    exists old. split; [reflexivity |]. inversion H. reflexivity.
Qed.

Lemma rotation_exhausted_witness :
  exists old,
    resolution (env Scenario.offline) 0 = Ok old /\
    fst (IPManager_change_ip Scenario.offline) =
    Ok {| success := false;
          old_ip := or_else old "Unknown";
          new_ip := "Failed";
          change_duration :=
            clock (env Scenario.offline) 1 - clock (env Scenario.offline) 0 |}.
Proof.
  apply (rotation_exhausted Scenario.offline (snd (IPManager_change_ip Scenario.offline))).
  - apply run_eq. reflexivity.
  - vm_compute. reflexivity.
  - intros k Hk. exists None. unfold resolution. simpl.
    destruct k as [|k]; simpl; auto.
Defined.

(** ** The attempt budget *)

Lemma events_since_exact (w w' : World) (evs : list event) :
  trace w' = trace w ++ evs -> events_since w w' = evs.
Proof.
  intros T. unfold events_since.
  rewrite T, skipn_app, Nat.sub_diag, skipn_all. reflexivity.
Qed.

Lemma events_since_split (P : event -> Prop) (w w1 w' : World) (evs : list event) :
  trace w1 = trace w ++ evs -> grows P w1 w' ->
  events_since w w' = evs ++ events_since w1 w'.
Proof.
  intros T G. destruct (grows_events _ _ _ G) as [T' _].
  apply events_since_exact. rewrite T', T, app_assoc. reflexivity.
Qed.

Lemma slept_no_sleep (evs : list event) : Forall no_sleep evs -> slept evs = 0%Z.
Proof.
  induction 1 as [|e evs He _ IH]; simpl; [reflexivity |].
  destruct e; simpl in He; try contradiction; assumption.
Qed.

Lemma record_ip_no_sleep (ip : string) : keeps (grows no_sleep) (record_ip ip).
Proof. unfold record_ip. keeps_with (grows_preorder no_sleep) grows_leaf. Qed.

Lemma confirmed_no_sleep (ip : string) : keeps (grows no_sleep) (confirmed ip).
Proof.
  pose proof record_ip_no_sleep as H.
  unfold confirmed. keeps_with (grows_preorder no_sleep) grows_leaf.
Qed.

Lemma confirm_loop_bounded (attempt : nat) (w : World) :
  calls (snd (confirm_loop attempt w)) ChIcanhazip
    <= calls w ChIcanhazip + (max_attempts - attempt) /\
  (slept (events_since w (snd (confirm_loop attempt w)))
    <= 2 * Z.of_nat (max_attempts - attempt))%Z.
Proof.
  revert w. induction attempt as [attempt IH] using attempts_ind. intros w.
  destruct (lt_dec attempt max_attempts) as [Hlt|Hge].
  2: { rewrite confirm_loop_timeout by assumption. cbn [snd].
       split; [cbn [calls add_event]; lia |].
       rewrite (events_since_exact w _ [EvPrint MsgTimeout]) by reflexivity.
       change (slept [EvPrint MsgTimeout]) with 0%Z. lia. }
  pose proof (get_public_ipv4_run w) as Hrun.
  set (w1 := bump ChIcanhazip (add_event (EvRequestsGet 10) w)) in *.
  assert (T1 : trace w1 = trace w ++ [EvRequestsGet 10]) by reflexivity.
  assert (C1 : calls w1 ChIcanhazip = S (calls w ChIcanhazip)) by reflexivity.
  destruct (resolution (env w) (calls w ChIcanhazip)) as [o|e] eqn:Er.
  - destruct (is_truthy o) eqn:Et.
    + destruct o as [ip|]; [simpl in Et | discriminate].
      rewrite (confirm_loop_resolved attempt w ip Hlt Er Et). fold w1.
      pose proof (confirmed_untouched (only ChIcanhazip) ip w1) as [_ Hc].
      rewrite (Hc ChIcanhazip eq_refl), C1. split; [lia |].
      rewrite (events_since_split no_sleep w w1 _ _ T1 (confirmed_no_sleep ip w1)).
      rewrite slept_app, (slept_no_sleep (events_since w1 _)).
      * change (slept [EvRequestsGet 10]) with 0%Z. lia.
      * apply (grows_events _ _ _ (confirmed_no_sleep ip w1)).
    + rewrite confirm_loop_next; [| assumption | exists o; auto].
      fold w1. set (w3 := add_event _ (add_event _ w1)).
      destruct (IH Hlt w3) as [Hc Hs].
      replace (calls w3 ChIcanhazip) with (S (calls w ChIcanhazip)) in Hc by reflexivity.
      split; [lia |].
      rewrite (events_since_split inner_event w w3 _
                 [EvRequestsGet 10; EvPrint (MsgWaiting (attempt + 1) max_attempts);
                  EvSleep 2]).
      * rewrite slept_app.
        change (slept [EvRequestsGet 10; EvPrint (MsgWaiting (attempt + 1) max_attempts);
                       EvSleep 2]) with 2%Z.
        lia.
      * unfold w3. simpl. rewrite <- !app_assoc. reflexivity.
      * apply confirm_loop_inner.
  - rewrite confirm_loop_unroll.
    destruct (lt_dec attempt max_attempts) as [_|]; [|contradiction].
    rewrite (bind_raise _ _ _ _ _ Hrun). simpl snd. rewrite C1. split; [lia |].
    rewrite (events_since_exact w w1 _ T1).
    change (slept [EvRequestsGet 10]) with 0%Z. lia.
Qed.

Lemma confirm_loop_early (k attempt : nat) (w : World) (ip : string) :
  attempt + k < max_attempts ->
  (forall j, j < k -> unresolved (env w) (calls w ChIcanhazip + j)) ->
  resolution (env w) (calls w ChIcanhazip + k) = Ok (Some ip) ->
  truthy ip = true ->
  exists wk,
    confirm_loop attempt w = confirmed ip wk /\
    calls wk ChIcanhazip = calls w ChIcanhazip + k + 1.
Proof.
  revert attempt w. induction k as [|k IH]; intros attempt w Hlt Hun Hr Ht.
  - rewrite Nat.add_0_r in Hr.
    rewrite (confirm_loop_resolved attempt w ip) by (assumption || lia).
    eexists. split; [reflexivity |]. rewrite calls_bump_same. simpl. lia.
  - rewrite confirm_loop_next; [| lia |].
    2: { specialize (Hun 0). rewrite Nat.add_0_r in Hun. apply Hun. lia. }
    set (w3 := add_event _ (add_event _ (bump _ (add_event _ w)))).
    destruct (IH (S attempt) w3) as (wk & E & Hc).
    + lia.
    + intros j Hj. unfold w3. simpl. rewrite <- Nat.add_succ_r. apply Hun. lia.
    + unfold w3. simpl. rewrite <- Nat.add_succ_r. exact Hr.
    + assumption.
    + exists wk. split; [exact E |]. rewrite Hc.
      replace (calls w3 ChIcanhazip) with (S (calls w ChIcanhazip)) by reflexivity.
      lia.
Qed.

Lemma change_ip_polls (w : World) :
  calls (snd (IPManager_change_ip w)) ChIcanhazip
    <= calls w ChIcanhazip + 2 + max_attempts.
Proof.
  unfold IPManager_change_ip, time_time. rewrite bind_ask.
  set (w0 := bump ChClock w).
  pose proof (get_public_ipv4_run w0) as E1.
  set (w1 := bump ChIcanhazip (add_event (EvRequestsGet 10) w0)) in *.
  assert (Hc1 : calls w1 ChIcanhazip = S (calls w ChIcanhazip)) by reflexivity.
  destruct (resolution (env w0) (calls w0 ChIcanhazip)) as [old|e].
  2: { rewrite (bind_raise _ _ _ _ _ E1). simpl snd. lia. }
  rewrite (bind_ok _ _ _ _ _ E1). cbv zeta.
  assert (Hp : calls (snd (change_mobile_ip_at_phone w1)) ChIcanhazip
               <= calls w ChIcanhazip + 2 + max_attempts).
  { destruct (phone_prelude w1) as [(e & w2 & E2 & Hc2) | (wl & E2 & _ & Hcl & _)].
    - rewrite E2. simpl. lia.
    - rewrite E2. destruct (confirm_loop_bounded 0 wl) as [Hb _]. lia. }
  destruct (change_mobile_ip_at_phone w1) as [[new|e] w2] eqn:E2; simpl in Hp.
  - rewrite (bind_ok _ _ _ _ _ E2), bind_ask.
    destruct (is_truthy new && differs new (or_else old "Unknown")); simpl; exact Hp.
  - rewrite (bind_raise _ _ _ _ _ E2). exact Hp.
Qed.

(** ** Time spent pausing *)

Lemma takes_bind {A B} (a b : Z) (m : M A) (f : A -> M B) :
  (0 <= b)%Z -> takes a m -> (forall x, takes b (f x)) -> takes (a + b) (bind m f).
Proof.
  intros Hb Hm Hf w. unfold bind. destruct (Hm w) as [G1 S1].
  destruct (m w) as [[x|e] w1]; simpl in *.
  - destruct (Hf x w1) as [G2 S2]. split.
    + apply (pre_trans (grows_preorder _) w w1); assumption.
    + rewrite (events_since_trans _ _ _ _ G1 G2), slept_app. lia.
  - split; [assumption | lia].
Qed.

Lemma takes_no_sleep {A} (m : M A) : keeps (grows no_sleep) m -> takes 0 m.
Proof.
  intros H w. split.
  - eapply grows_weaken; [| apply H]. auto.
  - rewrite slept_no_sleep; [lia |]. apply (grows_events _ _ _ (H w)).
Qed.

Lemma takes_sleep (s : Z) : takes s (sleep s).
Proof.
  intros w. split.
  - apply grows_emit. exact I.
  - rewrite (events_since_exact w _ [EvSleep s]) by reflexivity. simpl. lia.
Qed.

Lemma takes_print (m : message) : takes 0 (print m).
Proof. apply takes_no_sleep. apply grows_emit. exact I. Qed.

Lemma takes_ret {A} (a : A) : takes 0 (ret a).
Proof. apply takes_no_sleep. apply keeps_ret. apply grows_preorder. Qed.

Lemma takes_le {A} (a b : Z) (m : M A) : (a <= b)%Z -> takes a m -> takes b m.
Proof. intros H Hm w. destruct (Hm w) as [G S]. split; [assumption | lia]. Qed.

Lemma get_public_ipv4_takes : takes 0 get_public_ipv4.
Proof.
  apply takes_no_sleep. unfold get_public_ipv4, requests_get.
  keeps_with (grows_preorder no_sleep) grows_leaf.
Qed.

Lemma load_device_name_takes : takes 0 load_device_name.
Proof.
  apply takes_no_sleep. unfold load_device_name.
  keeps_with (grows_preorder no_sleep) grows_leaf.
Qed.

Lemma toggle_airplane_mode_takes (state : string) : takes 0 (toggle_airplane_mode state).
Proof.
  apply takes_no_sleep. unfold toggle_airplane_mode, subprocess_su.
  keeps_with (grows_preorder no_sleep) grows_leaf.
Qed.

Lemma confirm_loop_takes : takes 30 (confirm_loop 0).
Proof.
  intros w. split.
  - eapply grows_weaken; [| apply confirm_loop_inner]. auto.
  - pose proof (proj2 (confirm_loop_bounded 0 w)) as H.
    unfold max_attempts in H. simpl in H. exact H.
Qed.

Lemma change_mobile_ip_at_phone_takes : takes 37 change_mobile_ip_at_phone.
Proof.
  unfold change_mobile_ip_at_phone.
  apply (takes_le (0 + (0 + (0 + (0 + (0 + (0 + (3 + (0 + (4 + (0 + 30))))))))))%Z);
    [lia |].
  repeat (apply takes_bind; [lia | | intros ?]);
    auto using load_device_name_takes, get_public_ipv4_takes, takes_print,
      toggle_airplane_mode_takes, takes_sleep, confirm_loop_takes.
Qed.

Lemma IPManager_change_ip_takes : takes 37 IPManager_change_ip.
Proof.
  unfold IPManager_change_ip. cbv zeta.
  apply (takes_le (0 + (0 + (37 + (0 + 0))))%Z); [lia |].
  repeat (apply takes_bind; [lia | | intros ?]);
    auto using get_public_ipv4_takes, change_mobile_ip_at_phone_takes.
  - unfold time_time. apply takes_no_sleep. apply grows_ask.
  - unfold time_time. apply takes_no_sleep. apply grows_ask.
  - destruct (is_truthy _ && differs _ _); apply takes_ret.
Qed.

(** C5.  The confirmation loop ends for every behaviour of the resolver
    (its definition is by recursion on the attempts that are left).  It
    polls the resolver at most fifteen times and pauses at most thirty
    seconds; at the first resolvable address it stops, having made no
    further poll; and a whole rotation calls the resolver at most
    seventeen times and pauses at most 7 + 30 seconds. *)
Theorem confirmation_bounded :
  (forall w,
     calls (snd (confirm_loop 0 w)) ChIcanhazip <= calls w ChIcanhazip + 15 /\
     (slept (events_since w (snd (confirm_loop 0 w))) <= 30)%Z) /\
  (forall w k ip,
     k < max_attempts ->
     (forall j, j < k -> unresolved (env w) (calls w ChIcanhazip + j)) ->
     resolution (env w) (calls w ChIcanhazip + k) = Ok (Some ip) ->
     truthy ip = true ->
     calls (snd (confirm_loop 0 w)) ChIcanhazip = calls w ChIcanhazip + k + 1) /\
  (forall w,
     calls (snd (IPManager_change_ip w)) ChIcanhazip <= calls w ChIcanhazip + 17 /\
     (slept (events_since w (snd (IPManager_change_ip w))) <= 7 + 30)%Z).
Proof.
  split; [|split].
  - intros w. pose proof (confirm_loop_bounded 0 w) as H.
    unfold max_attempts in H. simpl in H. exact H.
  - intros w k ip Hk Hun Hr Ht.
    destruct (confirm_loop_early k 0 w ip Hk Hun Hr Ht) as (wk & E & Hc).
    rewrite E.
    pose proof (confirmed_untouched (only ChIcanhazip) ip wk) as [_ H].
    rewrite (H ChIcanhazip eq_refl). exact Hc.
  - intros w. split.
    + pose proof (change_ip_polls w) as H. unfold max_attempts in H. lia.
    + apply (IPManager_change_ip_takes w).
Qed.

Lemma confirmation_bounded_witness :
  let w := Sample.world
             (Sample.with_icanhazip
                (fun n => match n with
                          | 0 | 1 => Raise RequestException
                          | _ => Ok "2.2.2.2"
                          end)
                Sample.quiet_env)
             StoreAbsent in
  calls (snd (confirm_loop 0 w)) ChIcanhazip = 3.
Proof.
  intros w.
  apply (proj1 (proj2 confirmation_bounded) w 2 "2.2.2.2").
  - unfold max_attempts. lia.
  - intros j Hj. exists None. destruct j as [|[|j]]; [split; reflexivity .. | lia].
  - reflexivity.
  - reflexivity.
Defined.

(** ** Exceptions of a rotation *)

Lemma try_except_inv {A} (m : M A) (catches : exn -> bool) (h : exn -> M A)
      (w w' : World) (a : A) :
  try_except m catches h w = (Ok a, w') ->
  m w = (Ok a, w') \/
  exists e w1, m w = (Raise e, w1) /\ catches e = true /\ h e w1 = (Ok a, w').
Proof.
  unfold try_except. destruct (m w) as [[a0|e] w1]; intros H.
  - left. exact H.
  - right. exists e, w1. destruct (catches e); [auto | discriminate].
Qed.

Lemma good_same (w w' : World) :
  env w' = env w -> store w' = store w -> good w -> good w'.
Proof. intros E S (H1 & H2 & H3). unfold good. rewrite E, S. auto. Qed.

Lemma contained_ret {A} (ok : exn -> bool) (a : A) : contained ok (ret a).
Proof. intros w H. simpl. auto. Qed.

Lemma contained_emit (ok : exn -> bool) (e : event) : contained ok (emit e).
Proof. intros w H. simpl. split; [| exact I]. apply (good_same w); auto. Qed.

Lemma contained_ask {A} (ok : exn -> bool) (c : channel) (f : Env -> nat -> A) :
  contained ok (ask c f).
Proof. intros w H. simpl. split; [| exact I]. apply (good_same w); auto. Qed.

Lemma contained_bind {A B} (ok : exn -> bool) (m : M A) (f : A -> M B) :
  contained ok m -> (forall a, contained ok (f a)) -> contained ok (bind m f).
Proof.
  intros Hm Hf w H. unfold bind. specialize (Hm w H).
  destruct (m w) as [[a|e] w1]; simpl in *.
  - apply Hf. apply Hm.
  - exact Hm.
Qed.

Lemma contained_try {A} (ok ok' : exn -> bool) (m : M A)
      (catches : exn -> bool) (h : exn -> M A) :
  contained ok' m ->
  (forall e, ok' e = true -> catches e = true) ->
  (forall e, contained ok (h e)) ->
  contained ok (try_except m catches h).
Proof.
  intros Hm Hc Hh w H. unfold try_except. specialize (Hm w H).
  destruct (m w) as [[a|e] w1]; simpl in *.
  - split; [apply Hm | exact I].
  - destruct Hm as [Hg He]. rewrite (Hc e He). apply Hh. exact Hg.
Qed.

Lemma contained_ok {A} (m : M A) (w : World) :
  contained never m -> good w ->
  exists a, m w = (Ok a, snd (m w)) /\ good (snd (m w)).
Proof.
  intros Hm H. specialize (Hm w H). destruct (m w) as [[a|e] w1]; simpl in *.
  - exists a. split; [reflexivity | apply Hm].
  - destruct Hm as [_ F]. discriminate.
Qed.

Ltac contained_auto :=
  repeat lazymatch goal with
    | |- contained _ (bind _ _) => apply contained_bind; [| intros ?]
    | |- contained _ (ret _) => apply contained_ret
    | |- contained _ (emit _) => apply contained_emit
    | |- contained _ (print _) => apply contained_emit
    | |- contained _ (sleep _) => apply contained_emit
    | |- contained _ (ask _ _) => apply contained_ask
    | |- contained _ (if ?b then _ else _) => destruct b
    | |- contained _ (match ?x with _ => _ end) => destruct x
    | |- _ => solve [eauto]
    end.

Lemma get_public_ipv4_contained : contained never get_public_ipv4.
Proof.
  intros w H. rewrite get_public_ipv4_run. simpl.
  split; [apply (good_same w); auto |].
  destruct H as (_ & H & _). destruct (H (calls w ChIcanhazip)) as [r ->]. exact I.
Qed.

Lemma subprocess_su_contained (c : su_command) :
  contained (exn_eqb CalledProcessError) (subprocess_su c).
Proof.
  intros w H. unfold subprocess_su, bind, emit, ask. simpl.
  destruct H as (Hsu & H2 & H3).
  destruct (Hsu (calls w ChSu)) as [-> | ->]; simpl;
    (split; [apply (good_same w); unfold good; auto | auto]).
Qed.

Lemma toggle_airplane_mode_contained (state : string) :
  contained never (toggle_airplane_mode state).
Proof.
  pose proof subprocess_su_contained as Hs.
  unfold toggle_airplane_mode.
  apply contained_try with (ok' := exn_eqb CalledProcessError).
  - contained_auto.
  - auto.
  - intros e. contained_auto.
Qed.

Lemma load_device_name_contained : contained never load_device_name.
Proof.
  intros w H. unfold load_device_name, try_except.
  destruct (config_json (env w)); simpl; split; auto.
Qed.

Lemma confirmed_contained (ip : string) : contained never (confirmed ip).
Proof.
  intros w H. destruct w as [e c s t r ci]. destruct H as (H1 & H2 & H3).
  unfold confirmed, record_ip, bind, os_path_exists, file_write, file_read,
    file_append, ret, print, emit, good in *.
  simpl in *.
  destruct s as [|content|]; simpl; [| | contradiction].
  - repeat split; auto; discriminate.
  - destruct (in_list ip (splitlines content)); simpl; repeat split; auto;
      discriminate.
Qed.

Lemma confirm_loop_contained (attempt : nat) : contained never (confirm_loop attempt).
Proof.
  pose proof get_public_ipv4_contained as Hg.
  pose proof confirmed_contained as Hc.
  induction attempt as [attempt IH] using attempts_ind.
  rewrite confirm_loop_unroll.
  destruct (lt_dec attempt max_attempts) as [Hlt|Hge]; [specialize (IH Hlt) |];
    cbv zeta; contained_auto.
Qed.

Lemma change_mobile_ip_at_phone_contained : contained never change_mobile_ip_at_phone.
Proof.
  pose proof get_public_ipv4_contained as Hg.
  pose proof confirm_loop_contained as Hc.
  pose proof load_device_name_contained as Hl.
  pose proof toggle_airplane_mode_contained as Ht.
  unfold change_mobile_ip_at_phone. contained_auto.
Qed.

Lemma IPManager_change_ip_contained : contained never IPManager_change_ip.
Proof.
  pose proof get_public_ipv4_contained as Hg.
  pose proof change_mobile_ip_at_phone_contained as Hp.
  unfold IPManager_change_ip, time_time. cbv zeta. contained_auto.
Qed.

Lemma change_ip_failure_shape (w w' : World) (r : IpChangeResult) :
  IPManager_change_ip w = (Ok r, w') ->
  success r = false ->
  new_ip r = "Failed" \/ new_ip r = old_ip r.
Proof.
  unfold IPManager_change_ip, time_time. rewrite bind_ask. intros H.
  apply bind_inv in H. destruct H as (old & w1 & Hold & H). cbv zeta in H.
  apply bind_inv in H. destruct H as (new & w2 & Hnew & H).
  rewrite bind_ask in H.
  destruct new as [ip|]; simpl in H.
  - rewrite (change_mobile_ip_at_phone_truthy _ _ _ Hnew) in H. simpl in H.
    destruct (String.eqb ip (or_else old "Unknown")) eqn:Eq; simpl in H;
      inversion H; subst; clear H; simpl; intros Hs; [| discriminate].
    apply String.eqb_eq in Eq. right. exact Eq.
  - inversion H; subst; simpl. auto.
Qed.

(** C6 (amended).  When [su] can be started (it may still exit with a
    non-zero status), the resolver fails only with exceptions of
    [requests], and the history file can be opened, a rotation returns a
    result and does not raise; a result without success carries ["Failed"]
    or the unchanged address as new address. *)
Theorem rotation_returns (w : World) :
  good w ->
  exists r w',
    IPManager_change_ip w = (Ok r, w') /\
    (success r = false -> new_ip r = "Failed" \/ new_ip r = old_ip r).
Proof.
  intros H.
  destruct (contained_ok IPManager_change_ip w IPManager_change_ip_contained H)
    as (r & E & _).
  exists r, (snd (IPManager_change_ip w)). split; [exact E |].
  eapply change_ip_failure_shape; eauto.
Qed.

Lemma good_su_refused : good Failure.su_refused.
Proof.
  repeat split.
  - intros n. right. reflexivity.
  - intros n. unfold resolution. simpl.
    destruct n as [|[|[|n]]]; simpl; eauto.
  - discriminate.
Qed.

Lemma rotation_returns_witness :
  exists r w',
    IPManager_change_ip Failure.su_refused = (Ok r, w') /\
    (success r = false -> new_ip r = "Failed" \/ new_ip r = old_ip r).
Proof. apply (rotation_returns Failure.su_refused). exact good_su_refused. Defined.

(** C6, as stated, fails: with a history file that cannot be opened the
    exception of [record_ip] leaves the rotation. *)
Lemma rotation_returns_counterexample :
  fst (IPManager_change_ip Failure.store_denied) = Raise OSError.
Proof. vm_compute. reflexivity. Qed.

(** ** Failing toggles *)

(** A toggle whose command exits with a non-zero status is logged and the
    sequence goes on. *)
Lemma toggle_refused_logged (state : string) (w : World) :
  state = "on" \/ state = "off" ->
  su (env w) (calls w ChSu) = Some CalledProcessError ->
  exists c,
    toggle_airplane_mode state w =
    (Ok tt, add_event (EvPrint (MsgToggleFailed CalledProcessError))
              (bump ChSu (add_event (EvSu c) w))).
Proof.
  intros [-> | ->] H; unfold toggle_airplane_mode, try_except, subprocess_su, bind,
    emit, ask; simpl; rewrite H; simpl; eexists; reflexivity.
Qed.

Example rotation_su_refused :
  fst (IPManager_change_ip Failure.su_refused) =
  Ok {| success := true; old_ip := "1.1.1.1"; new_ip := "2.2.2.2";
        change_duration := 12 |} /\
  trace (snd (IPManager_change_ip Failure.su_refused)) =
  [EvRequestsGet 10; EvRequestsGet 10;
   EvPrint (MsgCurrentIp (Some "1.1.1.1")); EvPrint MsgToggling;
   EvPrint (MsgDevice "Unknown");
   EvSu SettingsAirplaneOn; EvPrint (MsgToggleFailed CalledProcessError);
   EvSleep 3;
   EvSu SettingsAirplaneOff; EvPrint (MsgToggleFailed CalledProcessError);
   EvSleep 4; EvPrint MsgTrying;
   EvRequestsGet 10; EvPrint (MsgWaiting 1 15); EvSleep 2;
   EvRequestsGet 10; EvPrint (MsgChanged "2.2.2.2"); EvPrint MsgRecorded;
   EvPrint (MsgTotal 1)].
Proof. split; vm_compute; reflexivity. Qed.

(** C7, at the failing input.  When [su] cannot be started the toggle
    raises [OSError], which [toggle_airplane_mode] does not catch: nothing
    is logged, the second toggle, the waits and the polls are not reached,
    and the rotation raises. *)
Theorem rotation_toggle_cannot_start :
  fst (IPManager_change_ip Failure.no_su) = Raise OSError /\
  trace (snd (IPManager_change_ip Failure.no_su)) =
  [EvRequestsGet 10; EvRequestsGet 10;
   EvPrint (MsgCurrentIp (Some "1.1.1.1")); EvPrint MsgToggling;
   EvPrint (MsgDevice "Unknown");
   EvSu SettingsAirplaneOn].
Proof. split; vm_compute; reflexivity. Qed.

(** ** Validation of resolved addresses *)

Lemma try_services_valid (l : list string) (w w' : World) (ip : string) :
  try_services l w = (Ok (Some ip), w') -> validate_ip ip = true.
Proof.
  revert w. induction l as [|service rest IH]; simpl; intros w H.
  - inversion H.
  - apply bind_inv in H. destruct H as (found & w1 & Hf & H).
    destruct found as [ip0|].
    + inversion H; subst. clear H.
      apply try_except_inv in Hf.
      destruct Hf as [Hf | (e & w2 & _ & _ & Hf)]; [| inversion Hf].
      apply bind_inv in Hf. destruct Hf as (resp & w2 & _ & Hf).
      destruct (fst resp =? 200)%Z; [| inversion Hf].
      destruct (validate_ip (strip (snd resp))) eqn:Ev; inversion Hf; subst.
      exact Ev.
    + eapply IH; eauto.
Qed.

(** [DeviceAgent.get_current_ip] returns an address that passes
    [validate_ip], or ["Unknown"]. *)
Lemma get_current_ip_valid (w w' : World) (ip : string) :
  get_current_ip w = (Ok ip, w') -> validate_ip ip = true \/ ip = "Unknown".
Proof.
  unfold get_current_ip. intros H. apply try_except_inv in H.
  destruct H as [H | (e & w1 & _ & _ & H)].
  - apply bind_inv in H. destruct H as (found & w1 & Hf & H).
    destruct found as [ip0|].
    + inversion H; subst. left. eapply try_services_valid; eauto.
    + apply bind_inv in H. destruct H as (result & w2 & _ & H).
      destruct (fst result =? 0)%Z; [| inversion H; auto].
      destruct (validate_ip (strip (snd result))) eqn:Ev; inversion H; subst; auto.
  - inversion H. auto.
Qed.

(** [get_public_ipv4] returns every body it receives, stripped. *)
Lemma get_public_ipv4_returns_body (w : World) (body : string) :
  icanhazip (env w) (calls w ChIcanhazip) = Ok body ->
  fst (get_public_ipv4 w) = Ok (Some (strip body)).
Proof.
  intros H. rewrite get_public_ipv4_run. unfold resolution. rewrite H. reflexivity.
Qed.

(** C2, at the failing input.  [get_public_ipv4] returns the body of the
    answer as it is: an error page is returned, though it fails
    [validate_ip], and the rotation reports it as the new address and
    records it in the history file. *)
Theorem get_public_ipv4_not_validated :
  let w := Failure.error_page in
  let page := "<html>502 Bad Gateway</html>" in
  fst (get_public_ipv4 w) = Ok (Some "1.1.1.1") /\
  fst (get_public_ipv4 (snd (get_public_ipv4 (snd (get_public_ipv4 w))))) =
    Ok (Some page) /\
  validate_ip page = false /\
  fst (IPManager_change_ip w) =
    Ok {| success := true; old_ip := "1.1.1.1"; new_ip := page;
          change_duration := 12 |} /\
  entries (store (snd (IPManager_change_ip w))) = [page].
Proof.
  cbv zeta.
  split; [| split; [| split; [| split]]]; vm_compute; reflexivity.
Qed.

(** ** Events of the agent *)

Lemma session_get_inner (service : string) :
  keeps (grows inner_event) (session_get service 5).
Proof. unfold session_get. grows_auto. Qed.
#[local] Hint Resolve session_get_inner : grows.

Lemma try_services_inner (l : list string) : keeps (grows inner_event) (try_services l).
Proof. induction l as [|service rest IH]; simpl; grows_auto. Qed.
#[local] Hint Resolve try_services_inner : grows.

Lemma subprocess_curl_inner : keeps (grows inner_event) (subprocess_curl 10).
Proof. unfold subprocess_curl. grows_auto. Qed.
#[local] Hint Resolve subprocess_curl_inner : grows.

Lemma get_current_ip_inner : keeps (grows inner_event) get_current_ip.
Proof. unfold get_current_ip. grows_auto. Qed.
#[local] Hint Resolve get_current_ip_inner : grows.

Lemma session_post_inner (ep : endpoint) : keeps (grows inner_event) (session_post ep 10).
Proof. unfold session_post. grows_auto. Qed.
#[local] Hint Resolve session_post_inner : grows.

Lemma send_status_inner : keeps (grows inner_event) send_status.
Proof. unfold send_status. grows_auto. Qed.
#[local] Hint Resolve send_status_inner : grows.

Lemma DeviceAgent_change_ip_inner : keeps (grows inner_event) DeviceAgent_change_ip.
Proof. unfold DeviceAgent_change_ip. grows_auto. Qed.
#[local] Hint Resolve DeviceAgent_change_ip_inner : grows.

Lemma register_inner : keeps (grows inner_event) register.
Proof. unfold register, read_body. grows_auto. Qed.
#[local] Hint Resolve register_inner : grows.

Lemma execute_command_cmd (c : Command) : keeps (grows cmd_event) (execute_command c).
Proof.
  unfold execute_command, command_get.
  keeps_with (grows_preorder cmd_event) grows_leaf.
Qed.
#[local] Hint Resolve execute_command_cmd : grows.

Lemma for_each_command_cmd (cs : list Command) :
  keeps (grows cmd_event) (for_each_command cs).
Proof.
  induction cs as [|c cs IH]; simpl; keeps_with (grows_preorder cmd_event) grows_leaf.
Qed.
#[local] Hint Resolve for_each_command_cmd : grows.

Lemma check_commands_timeouts : keeps (grows timeout_ok) check_commands.
Proof.
  unfold check_commands, session_get_commands.
  keeps_with (grows_preorder timeout_ok) grows_leaf.
Qed.
#[local] Hint Resolve check_commands_timeouts : grows.

Lemma tick_timeouts (lc ls : Z) : keeps (grows timeout_ok) (tick lc ls).
Proof.
  unfold tick, tick_block, time_time.
  keeps_with (grows_preorder timeout_ok) grows_leaf.
Qed.
#[local] Hint Resolve tick_timeouts : grows.

Lemma run_loop_timeouts (fuel : nat) (lc ls : Z) :
  keeps (grows timeout_ok) (run_loop fuel lc ls).
Proof.
  revert lc ls. induction fuel as [|fuel IH]; intros lc ls w; simpl.
  - destruct (running w); apply (pre_refl (grows_preorder _)).
  - destruct (running w); [| apply (pre_refl (grows_preorder _))].
    revert w. change (keeps (grows timeout_ok)
                        (t <- tick lc ls ;;
                         match t with
                         | Continue lc' ls' => run_loop fuel lc' ls'
                         | Break => ret (Some tt)
                         end)).
    keeps_with (grows_preorder timeout_ok) grows_leaf.
Qed.
#[local] Hint Resolve run_loop_timeouts : grows.

Lemma run_timeouts (fuel : nat) : keeps (grows timeout_ok) (run fuel).
Proof. unfold run. keeps_with (grows_preorder timeout_ok) grows_leaf. Qed.

Lemma generate_device_id_timeouts : keeps (grows timeout_ok) generate_device_id.
Proof.
  unfold generate_device_id, subprocess_telephony, time_time. cbv zeta.
  keeps_with (grows_preorder timeout_ok) grows_leaf.
Qed.

Lemma confirm_loop_pauses (attempt : nat) :
  keeps (grows poll_pause) (confirm_loop attempt).
Proof.
  assert (Hg : keeps (grows poll_pause) get_public_ipv4).
  { unfold get_public_ipv4, requests_get.
    keeps_with (grows_preorder poll_pause) grows_leaf. }
  assert (Hc : forall ip, keeps (grows poll_pause) (confirmed ip)).
  { intros ip. unfold confirmed, record_ip.
    keeps_with (grows_preorder poll_pause) grows_leaf. }
  induction attempt as [attempt IH] using attempts_ind.
  rewrite confirm_loop_unroll.
  destruct (lt_dec attempt max_attempts) as [Hlt|Hge]; [specialize (IH Hlt) |];
    cbv zeta; keeps_with (grows_preorder poll_pause) grows_leaf.
Qed.

(** C9 (amended).  Every call the agent makes carries the timeout of the
    list: 10 seconds for the registration, status and report requests, 10
    seconds for the command fetch, 5 seconds for the telephony
    identification, and for a resolution attempt 10 seconds through
    [requests] or [curl] and 5 seconds through an echo service, hence at
    most 10 seconds; and every pause of the confirmation loop is of 2
    seconds. *)
Theorem agent_timeouts :
  (forall fuel w, Forall timeout_ok (events_since w (snd (run fuel w)))) /\
  (forall w, Forall timeout_ok (events_since w (snd (generate_device_id w)))) /\
  (forall e, timeout_ok e ->
     match resolution_timeout e with Some t => (t <= 10)%Z | None => True end) /\
  (forall attempt w,
     Forall poll_pause (events_since w (snd (confirm_loop attempt w)))).
Proof.
  split; [| split; [| split]].
  - intros fuel w. apply (grows_events _ _ _ (run_timeouts fuel w)).
  - intros w. apply (grows_events _ _ _ (generate_device_id_timeouts w)).
  - intros e H. destruct e; simpl in *; try exact I; lia.
  - intros attempt w. apply (grows_events _ _ _ (confirm_loop_pauses attempt w)).
Qed.

Lemma agent_timeouts_witness :
  match resolution_timeout (EvSessionGet "https://api.ipify.org" 5) with
  | Some t => (t <= 10)%Z
  | None => True
  end.
Proof.
  apply (proj1 (proj2 (proj2 agent_timeouts))). reflexivity.
Defined.

(** C9, as stated, fails: the command fetch is made with a timeout of 10
    seconds, not 5. *)
Lemma agent_timeouts_counterexample :
  let w := Sample.world Sample.quiet_env StoreAbsent in
  events_since w (snd (check_commands w)) = [EvCall CheckCommands; EvFetch 10] /\
  EvFetch 10 <> EvFetch 5.
Proof. split; [vm_compute; reflexivity | discriminate]. Qed.

(** ** Execution of a batch of commands *)

Lemma try_bare_unit (m : M unit) (w : World) :
  fst (try_except m bare_except (fun _ => ret tt) w) = Ok tt.
Proof. unfold try_except. destruct (m w) as [[[]|e] w1]; reflexivity. Qed.

Lemma send_status_ok (w : World) : fst (send_status w) = Ok tt.
Proof. unfold send_status. rewrite bind_emit. apply try_bare_unit. Qed.

Lemma check_commands_ok (w : World) : fst (check_commands w) = Ok tt.
Proof. unfold check_commands. rewrite bind_emit. apply try_bare_unit. Qed.

Lemma executed_app (a b : list event) : executed (a ++ b) = executed a ++ executed b.
Proof.
  induction a as [|e a IH]; simpl; [reflexivity |].
  destruct e as [| | | | | | | | |[| |c]]; simpl; rewrite ?IH; reflexivity.
Qed.

Lemma executed_inner (evs : list event) : Forall inner_event evs -> executed evs = [].
Proof.
  induction 1 as [|e evs He _ IH]; simpl; [reflexivity |].
  destruct e as [| | | | | | | | |[| |c]]; try assumption.
  destruct He as [_ []].
Qed.

Lemma events_since_refl (w : World) : events_since w w = [].
Proof. unfold events_since. apply skipn_all. Qed.

Lemma execute_command_events (c : Command) (w : World) :
  exists rest,
    events_since w (snd (execute_command c w)) = EvCall (ExecuteCommand c) :: rest /\
    Forall inner_event rest.
Proof.
  unfold execute_command. rewrite bind_emit.
  match goal with |- context [snd (?k ?w0)] => set (body := k); set (w1 := w0) end.
  assert (Hk : keeps (grows inner_event) body) by (unfold body, command_get; grows_auto).
  exists (events_since w1 (snd (body w1))). split.
  - apply (events_since_split inner_event w w1 _ [EvCall (ExecuteCommand c)]);
      [reflexivity | apply Hk].
  - apply (grows_events _ _ _ (Hk w1)).
Qed.

(** Only a [change_ip] command and an entry that is not an object can
    raise. *)
Lemma execute_command_raise (c : Command) (w : World) (e : exn) :
  fst (execute_command c w) = Raise e -> can_raise c = true.
Proof.
  unfold execute_command. rewrite bind_emit.
  destruct c as [cmd_type|]; [| reflexivity].
  unfold command_get. rewrite (bind_ok _ _ _ _ cmd_type eq_refl). cbn [can_raise].
  destruct (is_cmd cmd_type "change_ip"); [reflexivity |].
  destruct (is_cmd cmd_type "test").
  - rewrite bind_print, send_status_ok. discriminate.
  - destruct (is_cmd cmd_type "stop"); discriminate.
Qed.

Lemma raises_at_head (c : Command) (cs : list Command) (w : World) (e : exn) :
  raises_at (c :: cs) w 0 e <-> fst (execute_command c w) = Raise e.
Proof.
  split.
  - intros (c' & wk & Hn & Hf & He). simpl in Hn, Hf.
    inversion Hn; subst. inversion Hf; subst. exact He.
  - intros H. exists c, w. repeat split; auto.
Qed.

Lemma raises_at_tail (c : Command) (cs : list Command) (w : World) (k : nat) (e : exn) :
  raises_at (c :: cs) w (S k) e <->
  exists w1, execute_command c w = (Ok tt, w1) /\ raises_at cs w1 k e.
Proof.
  split.
  - intros (c' & wk & Hn & Hf & He). simpl in Hn, Hf.
    apply bind_inv in Hf. destruct Hf as ([] & w1 & E1 & E2).
    exists w1. split; [exact E1 |]. exists c', wk. auto.
  - intros (w1 & E1 & c' & wk & Hn & Hf & He).
    exists c', wk. split; [exact Hn |]. split; [| exact He].
    simpl. rewrite (bind_ok _ _ _ _ _ E1). exact Hf.
Qed.

(** A batch is executed in order: whole when no execution raises, and
    otherwise up to and including the first entry whose execution raises. *)
Lemma for_each_command_outcome (cs : list Command) (w : World) :
  match fst (for_each_command cs w) with
  | Ok _ =>
      executed (events_since w (snd (for_each_command cs w))) = cs /\
      forall k e, ~ raises_at cs w k e
  | Raise e =>
      exists n c,
        executed (events_since w (snd (for_each_command cs w))) = firstn (S n) cs /\
        nth_error cs n = Some c /\ can_raise c = true /\
        raises_at cs w n e /\
        forall k e', k < n -> ~ raises_at cs w k e'
  end.
Proof.
  revert w. induction cs as [|c cs IH]; intros w.
  - simpl. rewrite events_since_refl. split; [reflexivity |].
    intros k e (c & wk & Hn & _). destruct k; discriminate.
  - destruct (execute_command_events c w) as (rest & Ev & Hin).
    pose proof (execute_command_cmd c w) as G1.
    cbn [for_each_command].
    destruct (execute_command c w) as [[[]|e] w1] eqn:E1.
    + rewrite (bind_ok _ _ _ _ _ E1). cbn [snd] in Ev, G1.
      pose proof (for_each_command_cmd cs w1) as G2.
      assert (Hex : executed (events_since w (snd (for_each_command cs w1))) =
                    c :: executed (events_since w1 (snd (for_each_command cs w1)))).
      { rewrite (events_since_trans _ _ _ _ G1 G2), executed_app, Ev.
        simpl. rewrite (executed_inner _ Hin). reflexivity. }
      specialize (IH w1).
      destruct (fst (for_each_command cs w1)) as [u|e].
      * destruct IH as [Hall Hno]. split; [rewrite Hex, Hall; reflexivity |].
        intros [|k] e H.
        -- apply raises_at_head in H. rewrite E1 in H. discriminate.
        -- apply raises_at_tail in H. destruct H as (w1' & E1' & H).
           rewrite E1 in E1'. inversion E1'; subst. exact (Hno k e H).
      * destruct IH as (n & c' & Hfirst & Hn & Hcan & Hat & Hbefore).
        exists (S n), c'. split; [rewrite Hex, Hfirst; reflexivity |].
        split; [exact Hn |]. split; [exact Hcan |]. split.
        -- apply raises_at_tail. exists w1. auto.
        -- intros [|k] e' Hk H.
           ++ apply raises_at_head in H. rewrite E1 in H. discriminate.
           ++ apply raises_at_tail in H. destruct H as (w1' & E1' & H).
              rewrite E1 in E1'. inversion E1'; subst.
              apply (Hbefore k e'); [lia | exact H].
    + rewrite (bind_raise _ _ _ _ _ E1). cbn [fst snd] in *.
      exists 0, c. split.
      * rewrite Ev. simpl. rewrite (executed_inner _ Hin). reflexivity.
      * split; [reflexivity |]. split.
        -- apply (execute_command_raise c w e). rewrite E1. reflexivity.
        -- split; [apply raises_at_head; rewrite E1; reflexivity |].
           intros k e' Hk. lia.
Qed.

Lemma for_each_command_batch (cs : list Command) (w : World) :
  batch_outcome cs w (events_since w (snd (for_each_command cs w))).
Proof.
  pose proof (for_each_command_outcome cs w) as H.
  destruct (fst (for_each_command cs w)) as [u|e].
  - destruct H as [Hall Hno]. exists (length cs).
    split; [rewrite firstn_all; exact Hall |]. left. auto.
  - destruct H as (n & c & Hfirst & Hn & Hcan & Hat & Hbefore).
    exists (S n). split; [exact Hfirst |]. right.
    exists c, e. replace (S n - 1) with n by lia.
    split; [lia |]. auto.
Qed.

Lemma check_commands_run (w : World) (cs : list Command) :
  fetch (env w) (calls w ChFetch) = Ok (200%Z, cs) ->
  snd (check_commands w) = snd (for_each_command cs (fetched w)).
Proof.
  intros H.
  unfold check_commands, try_except, session_get_commands, bind, emit, ask.
  simpl. rewrite H. simpl.
  match goal with |- context [for_each_command cs ?x] => change x with (fetched w) end.
  destruct (for_each_command cs (fetched w)) as [[[]|e] w3]; reflexivity.
Qed.

(** The events of a [check_commands] that received a batch. *)
Lemma check_commands_batch (w : World) (cs : list Command) :
  fetch (env w) (calls w ChFetch) = Ok (200%Z, cs) ->
  events_since w (snd (check_commands w)) =
    EvCall CheckCommands :: EvFetch 10 ::
      events_since (fetched w) (snd (for_each_command cs (fetched w))).
Proof.
  intros H. rewrite (check_commands_run w cs H).
  apply (events_since_split cmd_event w (fetched w) _ [EvCall CheckCommands; EvFetch 10]).
  - unfold fetched. simpl. rewrite <- app_assoc. reflexivity.
  - apply for_each_command_cmd.
Qed.

(** C10 (amended).  The entries of a fetched batch are executed in list
    order, up to and including the first one whose execution raises, where
    the batch is given up; only a [change_ip] command (its rotation or its
    report request) and an entry that is not a JSON object can raise.  A
    batch is executed whole when no execution raises, in particular when
    it holds neither of these: a [stop] command never keeps later commands
    from being executed. *)
Theorem batch_executed_in_order (w : World) (cs : list Command) :
  fetch (env w) (calls w ChFetch) = Ok (200%Z, cs) ->
  batch_outcome cs (fetched w) (events_since w (snd (check_commands w))) /\
  ((forall k e, ~ raises_at cs (fetched w) k e) ->
   executed (events_since w (snd (check_commands w))) = cs) /\
  (forallb (fun c => negb (can_raise c)) cs = true ->
   executed (events_since w (snd (check_commands w))) = cs).
Proof.
  intros H.
  assert (Hb : batch_outcome cs (fetched w) (events_since w (snd (check_commands w)))).
  { rewrite (check_commands_batch w cs H).
    destruct (for_each_command_batch cs (fetched w)) as (n & Hex & Hn).
    exists n. split; [exact Hex | exact Hn]. }
  split; [exact Hb |].
  destruct Hb as (n & Hex & [[-> Hno] | (c & e & Hn & Hc & Hcan & Hat & _)]).
  - rewrite firstn_all in Hex. split; intros _; exact Hex.
  - split.
    + intros Hno. exfalso. exact (Hno _ _ Hat).
    + intros Hall. apply nth_error_In in Hc. rewrite forallb_forall in Hall.
      specialize (Hall c Hc). rewrite Hcan in Hall. discriminate.
Qed.

Lemma batch_executed_in_order_witness :
  let w := Server.stop_then_test in
  let cs := [cmd "stop"; cmd "test"; cmd "noop"] in
  batch_outcome cs (fetched w) (events_since w (snd (check_commands w))) /\
  ((forall k e, ~ raises_at cs (fetched w) k e) ->
   executed (events_since w (snd (check_commands w))) = cs) /\
  (forallb (fun c => negb (can_raise c)) cs = true ->
   executed (events_since w (snd (check_commands w))) = cs).
Proof.
  intros w cs. apply (batch_executed_in_order w cs). reflexivity.
Defined.

(** C10, as stated, fails: when the report of a [change_ip] command cannot
    be sent, the [stop] command that follows it in the batch is not
    executed and the agent keeps running. *)
Lemma batch_executed_in_order_counterexample :
  let w := Server.report_lost in
  fetch (env w) (calls w ChFetch) = Ok (200%Z, [cmd "change_ip"; cmd "stop"]) /\
  executed (events_since w (snd (check_commands w))) = [cmd "change_ip"] /\
  running (snd (check_commands w)) = true.
Proof. cbv zeta. split; [| split]; vm_compute; reflexivity. Qed.

(** An entry that is not an object ends the batch as well: the [stop]
    command behind it is not executed. *)
Example batch_not_object :
  let w := Batch.odd_entry in
  fetch (env w) (calls w ChFetch) = Ok (200%Z, [NotObject; cmd "stop"]) /\
  fst (check_commands w) = Ok tt /\
  executed (events_since w (snd (check_commands w))) = [NotObject] /\
  running (snd (check_commands w)) = true.
Proof. cbv zeta. repeat split; vm_compute; reflexivity. Qed.

(** ** The stop command *)

Lemma tracked_preorder : preorder tracked.
Proof.
  split.
  - intros w. split; [apply (pre_refl (grows_preorder _)) |].
    intros [H | H]; [exact H |]. rewrite events_since_refl in H. destruct H.
  - intros a b c [Gab Sab] [Gbc Sbc].
    split; [apply (pre_trans (grows_preorder _) a b c); assumption |].
    intros [H | H].
    + apply Sbc. left. apply Sab. left. exact H.
    + rewrite (events_since_trans _ _ _ _ Gab Gbc) in H.
      apply in_app_or in H. destruct H as [H | H].
      * apply Sbc. left. apply Sab. right. exact H.
      * apply Sbc. right. exact H.
Qed.

Lemma inner_tracked {A} (m : M A) : keeps (grows inner_event) m -> keeps tracked m.
Proof.
  intros Hm w. specialize (Hm w). split.
  - eapply grows_weaken; [exact inner_timeout | exact Hm].
  - intros [H | H].
    + destruct Hm as (_ & _ & Hr & _). auto.
    + destruct (grows_events _ _ _ Hm) as [_ F].
      rewrite Forall_forall in F. destruct (F _ H) as [_ []].
Qed.

Lemma tracked_emit (e : event) :
  timeout_ok e -> e <> stop_event -> keeps tracked (emit e).
Proof.
  intros Ht Hne w. split.
  - apply grows_emit. exact Ht.
  - intros [H | H]; [exact H |].
    rewrite (events_since_exact w (snd (emit e w)) [e]) in H by reflexivity.
    destruct H as [H | []]. contradiction.
Qed.

Lemma tracked_silent (w w' : World) :
  env w' = env w -> (forall c, calls w c <= calls w' c) ->
  running w' = running w -> trace w' = trace w ->
  tracked w w'.
Proof.
  intros E C Rn T. split.
  - apply grows_silent; auto. rewrite Rn. auto.
  - intros [H | H]; [congruence |].
    rewrite (events_since_exact w w' []) in H by (rewrite app_nil_r; exact T).
    destruct H.
Qed.

Lemma tracked_ask {A} (c : channel) (f : Env -> nat -> A) : keeps tracked (ask c f).
Proof.
  intros w. apply tracked_silent; simpl; auto.
  intros c'. destruct (channel_eqb c c'); lia.
Qed.

Lemma execute_stop (w : World) :
  execute_command (cmd "stop") w =
  (Ok tt, set_running false
            (add_event (EvPrint MsgCmdStop)
               (add_event (EvCall (ExecuteCommand (cmd "stop"))) w))).
Proof. reflexivity. Qed.

Lemma execute_command_tracked (c : Command) : keeps tracked (execute_command c).
Proof.
  intros w. split.
  - eapply grows_weaken; [exact cmd_timeout | apply execute_command_cmd].
  - intros [H | H].
    + destruct (execute_command_cmd c w) as (_ & _ & Hr & _). auto.
    + destruct (execute_command_events c w) as (rest & Ev & Hin).
      rewrite Ev in H. destruct H as [H | H].
      * inversion H; subst. rewrite execute_stop. reflexivity.
      * rewrite Forall_forall in Hin. destruct (Hin _ H) as [_ []].
Qed.

Ltac tracked_leaf :=
  first
    [ solve [eauto]
    | apply tracked_emit; [cbv [timeout_ok]; solve [auto | lia] | discriminate]
    | apply tracked_ask
    | apply inner_tracked; solve [eauto with grows]
    | let w := fresh "w" in
      intros w; cbv beta delta [lift_result]; simpl;
      repeat match goal with
        | |- context [match ?x with _ => _ end] => destruct x; simpl
        end;
      solve [apply tracked_silent; simpl; auto] ].

Lemma for_each_command_tracked (cs : list Command) :
  keeps tracked (for_each_command cs).
Proof.
  pose proof execute_command_tracked as He.
  induction cs as [|c cs IH]; simpl; keeps_with tracked_preorder tracked_leaf.
Qed.

Lemma check_commands_tracked : keeps tracked check_commands.
Proof.
  pose proof for_each_command_tracked as Hf.
  unfold check_commands, session_get_commands.
  keeps_with tracked_preorder tracked_leaf.
Qed.

Lemma tick_tracked (lc ls : Z) : keeps tracked (tick lc ls).
Proof.
  pose proof check_commands_tracked as Hc.
  unfold tick, tick_block, time_time. keeps_with tracked_preorder tracked_leaf.
Qed.

Lemma tick_ok (lc ls : Z) (w : World) : exists t, fst (tick lc ls w) = Ok t.
Proof.
  unfold tick, try_except.
  match goal with |- context [let (_, _) := ?m w in _] => destruct (m w) as [[t|e] w1] end.
  - exists t. reflexivity.
  - unfold interrupt_or_Exception, is_Exception.
    destruct (exn_eqb e KeyboardInterrupt); simpl; eexists; reflexivity.
Qed.

Lemma tick_block_returns (lc ls : Z) (w : World) :
  exists t, fst (tick_block lc ls w) = Ok t.
Proof.
  unfold tick_block, time_time. rewrite bind_ask.
  set (w0 := bump ChClock w). set (ct := clock (env w) (calls w ChClock)).
  assert (H1 : exists l w1,
             (if (ct - lc >=? command_interval)%Z
              then check_commands;; ret ct else ret lc) w0 = (Ok l, w1)).
  { destruct (ct - lc >=? command_interval)%Z; [| eexists; eexists; reflexivity].
    exists ct, (snd (check_commands w0)).
    rewrite (bind_ok _ _ _ _ _ (run_eq _ _ _ (check_commands_ok w0))). reflexivity. }
  destruct H1 as (l & w1 & E1). rewrite (bind_ok _ _ _ _ _ E1).
  assert (H2 : exists l' w2,
             (if (ct - ls >=? status_interval)%Z
              then send_status;; ret ct else ret ls) w1 = (Ok l', w2)).
  { destruct (ct - ls >=? status_interval)%Z; [| eexists; eexists; reflexivity].
    exists ct, (snd (send_status w1)).
    rewrite (bind_ok _ _ _ _ _ (run_eq _ _ _ (send_status_ok w1))). reflexivity. }
  destruct H2 as (l' & w2 & E2). rewrite (bind_ok _ _ _ _ _ E2).
  eexists. reflexivity.
Qed.

Lemma run_loop_stopped (fuel : nat) (lc ls : Z) (w : World) :
  running w = false -> run_loop fuel lc ls w = (Ok (Some tt), w).
Proof. intros H. destruct fuel; simpl; rewrite H; reflexivity. Qed.

(** The events of [check_commands]: the call, the request, then events of
    the execution of commands. *)
Lemma check_commands_events (w : World) :
  exists evs,
    events_since w (snd (check_commands w)) =
      EvCall CheckCommands :: EvFetch 10 :: evs /\
    Forall cmd_event evs.
Proof.
  unfold check_commands. rewrite bind_emit.
  set (w1 := add_event (EvCall CheckCommands) w).
  match goal with |- context [snd (?k ?w0)] => set (body := k) end.
  assert (exists wf, wf = bump ChFetch (add_event (EvFetch 10) w1) /\
                     grows cmd_event wf (snd (body w1))) as (wf & Ewf & G).
  { eexists. split; [reflexivity |].
    unfold body, try_except, session_get_commands, bind, emit, ask. simpl.
    destruct (fetch (env w) (calls w ChFetch)) as [[status cs]|e]; simpl.
    - unfold lift_result, ret. simpl. destruct (status =? 200)%Z.
      + match goal with |- context [for_each_command cs ?x] =>
          pose proof (for_each_command_cmd cs x) as G;
          destruct (for_each_command cs x) as [[[]|e] w3] end; exact G.
      + apply (pre_refl (grows_preorder _)).
    - apply (pre_refl (grows_preorder _)). }
  exists (events_since wf (snd (body w1))). split.
  - apply (events_since_split cmd_event w wf _ [EvCall CheckCommands; EvFetch 10]).
    + subst wf. unfold w1. simpl. rewrite <- app_assoc. reflexivity.
    + exact G.
  - apply (grows_events _ _ _ G).
Qed.

Lemma cmd_no_fetch (e : event) : cmd_event e -> no_fetch e.
Proof.
  intros [_ H]. split.
  - intros ->. exact H.
  - intros t ->. exact H.
Qed.

(** What follows an event [x] in [h ++ t], when [x] is not in [h]. *)
Lemma after_event (P : event -> Prop) (x : event) (h t pre post : list event) :
  h ++ t = pre ++ x :: post -> ~ In x h -> Forall P t -> Forall P post.
Proof.
  revert pre. induction h as [|a h IH]; simpl; intros pre E Hn F.
  - subst t. apply Forall_app in F. destruct F as [_ F].
    inversion F; assumption.
  - destruct pre as [|b pre]; simpl in E; inversion E; subst.
    + exfalso. apply Hn. left. reflexivity.
    + apply (IH pre); auto.
Qed.

(** The events of one pass: a possible command fetch first, then events
    among which there is no fetch. *)
Lemma tick_events (lc ls : Z) (w : World) :
  exists h t,
    events_since w (snd (tick lc ls w)) = h ++ t /\
    ~ In stop_event h /\ Forall cmd_event t.
Proof.
  unfold tick, tick_block, try_except, time_time. rewrite bind_ask.
  set (w0 := bump ChClock w). set (ct := clock (env w) (calls w ChClock)).
  assert (T0 : trace w0 = trace w ++ []) by (rewrite app_nil_r; reflexivity).
  set (rest := fun (last_command : Z) =>
                 last_status <-
                   (if (ct - ls >=? status_interval)%Z
                    then send_status;; ret ct else ret ls);;
                 sleep 1;; ret (Continue last_command last_status)).
  set (handler := fun e : exn =>
                    if exn_eqb e KeyboardInterrupt
                    then print MsgInterrupted;; ret Break
                    else sleep 5;; ret (Continue lc ls)).
  assert (Hrest : forall l, keeps (grows cmd_event) (rest l)).
  { intros l. unfold rest. keeps_with (grows_preorder cmd_event) grows_leaf. }
  assert (Hh : forall e, keeps (grows cmd_event) (handler e)).
  { intros e. unfold handler. keeps_with (grows_preorder cmd_event) grows_leaf. }
  assert (Htail : forall l wa,
            grows cmd_event wa
              (snd (let (r, w') := rest l wa in
                    match r with
                    | Ok a => (Ok a, w')
                    | Raise e =>
                        if interrupt_or_Exception e then handler e w' else (Raise e, w')
                    end))).
  { intros l wa. pose proof (Hrest l wa) as G.
    destruct (rest l wa) as [[a|e] w']; simpl in *; [exact G |].
    destruct (interrupt_or_Exception e); [| exact G].
    apply (pre_trans (grows_preorder _) wa w'); [exact G | apply Hh]. }
  destruct (ct - lc >=? command_interval)%Z.
  - destruct (check_commands_events w0) as (evs & Ev & Fev).
    pose proof (check_commands_ok w0) as Hok.
    pose proof (check_commands_timeouts w0) as Gc.
    destruct (check_commands w0) as [[[]|e] w1] eqn:E1; simpl in Hok; [| discriminate].
    simpl in Ev, Gc.
    assert (E2 : (check_commands;; ret ct) w0 = (Ok ct, w1))
      by (rewrite (bind_ok _ _ _ _ _ E1); reflexivity).
    rewrite (bind_ok _ _ _ _ _ E2).
    specialize (Htail ct w1).
    match goal with |- context [events_since w ?x] => set (wf := x) end.
    change (grows cmd_event w1 wf) in Htail.
    exists [EvCall CheckCommands; EvFetch 10], (evs ++ events_since w1 wf).
    split; [| split].
    + destruct (grows_events _ _ _ Gc) as [T1 _]. rewrite Ev in T1.
      rewrite (events_since_split cmd_event w w1 wf
                 (EvCall CheckCommands :: EvFetch 10 :: evs)).
      * reflexivity.
      * rewrite T1, T0, app_nil_r. reflexivity.
      * exact Htail.
    + simpl. intros [H | [H | []]]; discriminate.
    + apply Forall_app. split; [exact Fev | apply (grows_events _ _ _ Htail)].
  - rewrite (bind_ok _ _ w0 w0 lc); [| reflexivity].
    specialize (Htail lc w0).
    match goal with |- context [events_since w ?x] => set (wf := x) end.
    change (grows cmd_event w0 wf) in Htail.
    exists [], (events_since w0 wf). split; [| split].
    + apply (events_since_split cmd_event w w0 wf [] T0 Htail).
    + simpl. tauto.
    + apply (grows_events _ _ _ Htail).
Qed.

Lemma tick_is_block (lc ls : Z) (w : World) : tick lc ls w = tick_block lc ls w.
Proof.
  unfold tick, try_except. destruct (tick_block_returns lc ls w) as (t & Ht).
  destruct (tick_block lc ls w) as [[a|e] w']; simpl in Ht; [reflexivity | discriminate].
Qed.

Lemma send_status_events (w : World) :
  exists rest,
    events_since w (snd (send_status w)) = EvCall SendStatus :: rest /\
    Forall inner_event rest.
Proof.
  unfold send_status. rewrite bind_emit.
  match goal with |- context [snd (?k ?w0)] => set (body := k); set (w1 := w0) end.
  assert (Hk : keeps (grows inner_event) body) by (unfold body; grows_auto).
  exists (events_since w1 (snd (body w1))). split.
  - apply (events_since_split inner_event w w1 _ [EvCall SendStatus]);
      [reflexivity | apply Hk].
  - apply (grows_events _ _ _ (Hk w1)).
Qed.

(** Without a batch, [check_commands] does nothing after its request. *)
Lemma check_commands_idle (w : World) :
  (forall cs, fetch (env w) (calls w ChFetch) <> Ok (200%Z, cs)) ->
  events_since w (snd (check_commands w)) = [EvCall CheckCommands; EvFetch 10].
Proof.
  intros H. apply events_since_exact.
  unfold check_commands, try_except, session_get_commands, bind, emit, ask. simpl.
  destruct (fetch (env w) (calls w ChFetch)) as [[status cs]|e]; simpl.
  - destruct (status =? 200)%Z eqn:Es; simpl.
    + apply Z.eqb_eq in Es. subst. exfalso. exact (H cs eq_refl).
    + rewrite <- app_assoc. reflexivity.
  - rewrite <- app_assoc. reflexivity.
Qed.

(** The events of one pass: those of [check_commands] when a fetch is due,
    those of [send_status], run in the world [check_commands] left, when
    a status report is due, and the pause of one second. *)
Lemma tick_trace (lc ls : Z) (w : World) :
  let now := clock (env w) (calls w ChClock) in
  let w1 := if (now - lc >=? command_interval)%Z
            then snd (check_commands (bump ChClock w)) else bump ChClock w in
  events_since w (snd (tick lc ls w)) =
    (if (now - lc >=? command_interval)%Z
     then events_since w (snd (check_commands (bump ChClock w))) else []) ++
    (if (now - ls >=? status_interval)%Z
     then events_since w1 (snd (send_status w1)) else []) ++
    [EvSleep 1].
Proof.
  cbv zeta. rewrite tick_is_block. unfold tick_block, time_time. rewrite bind_ask.
  set (w0 := bump ChClock w). set (now := clock (env w) (calls w ChClock)).
  set (polls := (now - lc >=? command_interval)%Z).
  set (due := (now - ls >=? status_interval)%Z).
  set (w1 := if polls then snd (check_commands w0) else w0).
  assert (H1 : exists l,
             (if polls then check_commands;; ret now else ret lc) w0 = (Ok l, w1) /\
             trace w1 = trace w ++ (if polls then events_since w (snd (check_commands w0))
                                    else [])).
  { unfold w1. destruct polls.
    - exists now. split.
      + rewrite (bind_ok _ _ _ _ _ (run_eq _ _ _ (check_commands_ok w0))). reflexivity.
      + apply (grows_events _ _ _ (check_commands_timeouts w0)).
    - exists lc. split; [reflexivity |]. rewrite app_nil_r. reflexivity. }
  destruct H1 as (l & E1 & T1). rewrite (bind_ok _ _ _ _ _ E1).
  assert (H2 : exists l' w2,
             (if due then send_status;; ret now else ret ls) w1 = (Ok l', w2) /\
             trace w2 = trace w1 ++ (if due then events_since w1 (snd (send_status w1))
                                     else [])).
  { destruct due.
    - exists now, (snd (send_status w1)). split.
      + rewrite (bind_ok _ _ _ _ _ (run_eq _ _ _ (send_status_ok w1))). reflexivity.
      + apply (grows_events _ _ _ (send_status_inner w1)).
    - exists ls, w1. split; [reflexivity |]. rewrite app_nil_r. reflexivity. }
  destruct H2 as (l' & w2 & E2 & T2). rewrite (bind_ok _ _ _ _ _ E2).
  rewrite bind_sleep. apply events_since_exact. cbn.
  rewrite T2, T1, <- !app_assoc. reflexivity.
Qed.

(** Where an event [x] of [c ++ d] that is not in [d] splits the list. *)
Lemma split_before (x : event) (a b c d : list event) :
  a ++ x :: b = c ++ d -> ~ In x d ->
  exists r, c = a ++ x :: r /\ b = r ++ d.
Proof.
  revert c. induction a as [|y a IH]; intros c E Hn.
  - destruct c as [|z c]; simpl in E.
    + exfalso. apply Hn. rewrite <- E. left. reflexivity.
    + inversion E; subst. exists c. split; reflexivity.
  - destruct c as [|z c]; simpl in E.
    + exfalso. apply Hn. rewrite <- E. right. apply in_or_app. right. left. reflexivity.
    + inversion E; subst. destruct (IH c H1 Hn) as (r & -> & ->).
      exists r. split; reflexivity.
Qed.

(** C8 (amended).  When the stop command is executed during a pass of the
    loop, the running flag is cleared, [run] leaves its loop at the end of
    this pass, and after the stop command no command fetch is made.  The
    rest of the pass is still carried out: the stop command came with a
    batch, whose remaining entries are executed as those of any batch (in
    order, up to the first one whose execution raises), and after them
    [send_status] is run when the status report is due in this pass. *)
Theorem stop_ends_run (fuel : nat) (lc ls : Z) (w : World) (pre post : list event) :
  running w = true ->
  events_since w (snd (tick lc ls w)) = pre ++ stop_event :: post ->
  running (snd (tick lc ls w)) = false /\
  run_loop (S fuel) lc ls w = (Ok (Some tt), snd (tick lc ls w)) /\
  Forall no_fetch post /\
  exists cs later status,
    fetch (env w) (calls w ChFetch) = Ok (200%Z, cs) /\
    post = later ++ status ++ [EvSleep 1] /\
    pre ++ stop_event :: later =
      events_since w (snd (check_commands (bump ChClock w))) /\
    batch_outcome cs (fetched (bump ChClock w)) (pre ++ stop_event :: later) /\
    (if (clock (env w) (calls w ChClock) - ls >=? status_interval)%Z
     then
       status = events_since (snd (check_commands (bump ChClock w)))
                  (snd (send_status (snd (check_commands (bump ChClock w))))) /\
       exists rest, status = EvCall SendStatus :: rest
     else status = []).
Proof.
  intros Hrun Hev.
  assert (Hstop : running (snd (tick lc ls w)) = false).
  { destruct (tick_tracked lc ls w) as [_ S]. apply S. right.
    rewrite Hev. apply in_or_app. right. left. reflexivity. }
  split; [exact Hstop | split; [| split]].
  - simpl. rewrite Hrun. destruct (tick_ok lc ls w) as (t & Ht).
    rewrite (bind_ok _ _ _ _ _ (run_eq _ _ _ Ht)).
    destruct t as [lc' ls'|]; [apply run_loop_stopped; exact Hstop | reflexivity].
  - destruct (tick_events lc ls w) as (h & t & E & Hn & F).
    rewrite Hev in E. symmetry in E.
    eapply Forall_impl; [exact cmd_no_fetch |].
    exact (after_event cmd_event stop_event h t pre post E Hn F).
  - pose proof (tick_trace lc ls w) as T. cbv zeta in T. rewrite Hev in T.
    set (w0 := bump ChClock w) in *.
    set (now := clock (env w) (calls w ChClock)) in *.
    set (status := if (now - ls >=? status_interval)%Z
                   then events_since
                          (if (now - lc >=? command_interval)%Z
                           then snd (check_commands w0) else w0)
                          (snd (send_status
                                  (if (now - lc >=? command_interval)%Z
                                   then snd (check_commands w0) else w0)))
                   else []) in *.
    assert (Hstatus : ~ In stop_event (status ++ [EvSleep 1])).
    { intros H. apply in_app_or in H. destruct H as [H | [H | []]]; [| discriminate].
      unfold status in H. destruct (now - ls >=? status_interval)%Z; [| exact H].
      match type of H with
      | In _ (events_since ?x _) => destruct (send_status_events x) as (rest & Ev & Hin)
      end.
      rewrite Ev in H. destruct H as [H | H]; [discriminate |].
      rewrite Forall_forall in Hin. destruct (Hin _ H) as [_ []]. }
    destruct (split_before _ _ _ _ _ T Hstatus) as (later & Hbatch & Hpost).
    destruct (now - lc >=? command_interval)%Z;
      [| destruct pre; discriminate].
    change (events_since w (snd (check_commands w0)))
      with (events_since w0 (snd (check_commands w0))) in Hbatch.
    assert (Hfetch : exists cs, fetch (env w) (calls w ChFetch) = Ok (200%Z, cs)).
    { destruct (fetch (env w) (calls w ChFetch)) as [[st cs]|e] eqn:Ef.
      - destruct (st =? 200)%Z eqn:Es; [apply Z.eqb_eq in Es; subst; eauto |].
        exfalso. rewrite (check_commands_idle w0) in Hbatch.
        + destruct pre as [|a [|b [|c pre]]]; inversion Hbatch.
        + intros cs' H. change (fetch (env w) (calls w ChFetch) = Ok (200%Z, cs')) in H.
          rewrite Ef in H. inversion H; subst. discriminate.
      - exfalso. rewrite (check_commands_idle w0) in Hbatch.
        + destruct pre as [|a [|b [|c pre]]]; inversion Hbatch.
        + intros cs' H. change (fetch (env w) (calls w ChFetch) = Ok (200%Z, cs')) in H.
          rewrite Ef in H. discriminate. }
    destruct Hfetch as (cs & Ef).
    exists cs, later, status.
    split; [exact Ef |]. split; [exact Hpost |]. split; [symmetry; exact Hbatch |].
    split.
    + rewrite <- Hbatch.
      assert (Ef0 : fetch (env w0) (calls w0 ChFetch) = Ok (200%Z, cs)) by exact Ef.
      rewrite (check_commands_batch w0 cs Ef0).
      destruct (for_each_command_batch cs (fetched w0)) as (n & Hex & Hn).
      exists n. split; [exact Hex | exact Hn].
    + unfold status. destruct (now - ls >=? status_interval)%Z; [| reflexivity].
      split; [reflexivity |].
      destruct (send_status_events (snd (check_commands w0))) as (rest & Ev & _).
      exists rest. exact Ev.
Qed.

Lemma stop_ends_run_witness :
  let w := Server.stop_first in
  running (snd (tick 0 0 w)) = false /\
  run_loop 3 0 0 w = (Ok (Some tt), snd (tick 0 0 w)) /\
  Forall no_fetch Heartbeat.after_stop /\
  exists cs later status,
    fetch (env w) (calls w ChFetch) = Ok (200%Z, cs) /\
    Heartbeat.after_stop = later ++ status ++ [EvSleep 1] /\
    [EvCall CheckCommands; EvFetch 10] ++ stop_event :: later =
      events_since w (snd (check_commands (bump ChClock w))) /\
    batch_outcome cs (fetched (bump ChClock w))
      ([EvCall CheckCommands; EvFetch 10] ++ stop_event :: later) /\
    (if (clock (env w) (calls w ChClock) - 0 >=? status_interval)%Z
     then
       status = events_since (snd (check_commands (bump ChClock w)))
                  (snd (send_status (snd (check_commands (bump ChClock w))))) /\
       exists rest, status = EvCall SendStatus :: rest
     else status = []).
Proof.
  intros w.
  apply (stop_ends_run 2 0 0 w [EvCall CheckCommands; EvFetch 10] Heartbeat.after_stop).
  - reflexivity.
  - vm_compute. reflexivity.
Defined.

(** C8, as stated, fails: in the pass that executes the stop command the
    status report is due as well (the first pass of every run), and
    [send_status] is called after the stop command was processed. *)
Lemma stop_ends_run_counterexample :
  let w := Server.stop_first in
  fst (run 1 w) = Ok (Some tt) /\
  events_since w (snd (run 1 w)) =
    Startup.registration ++
    [EvCall CheckCommands; EvFetch 10; stop_event] ++
    Heartbeat.after_stop ++ [EvPrint MsgAgentExit] /\
  events_since w (snd (run_loop 1 0 0 w)) =
    [EvCall CheckCommands; EvFetch 10; stop_event] ++ Heartbeat.after_stop /\
  In (EvCall SendStatus) Heartbeat.after_stop /\
  In (EvPost (ApiStatus "Unknown") 10) Heartbeat.after_stop.
Proof.
  cbv zeta. split; [| split; [| split; [| split]]].
  - vm_compute. reflexivity.
  - vm_compute. reflexivity.
  - vm_compute. reflexivity.
  - simpl. tauto.
  - simpl. tauto.
Qed.

(* ===================================================================== *)
(** * Further properties of the history store *)
(* ===================================================================== *)

Lemma first_seen_In (ips lines : list string) (x : string) :
  In x (lines ++ first_seen lines ips) <-> In x lines \/ In x ips.
Proof.
  revert lines. induction ips as [|ip ips IH]; simpl; intros lines.
  - rewrite app_nil_r. tauto.
  - destruct (in_list ip lines) eqn:E.
    + apply in_list_spec in E. rewrite IH. split; [tauto |].
      intros [H | [<- | H]]; tauto.
    + change (ip :: first_seen (lines ++ [ip]) ips)
        with ([ip] ++ first_seen (lines ++ [ip]) ips).
      rewrite app_assoc, IH, in_app_iff. simpl. tauto.
Qed.

Lemma new_flags_count (ips lines : list string) :
  count_new (new_flags lines ips) = length (first_seen lines ips).
Proof.
  revert lines. induction ips as [|ip ips IH]; simpl; intros lines; [reflexivity |].
  destruct (in_list ip lines); unfold count_new in *; simpl; rewrite IH; reflexivity.
Qed.

(** X1.  From a tidy store, after any run of [record_ip] calls on single-line
    addresses the count is the number of distinct values among the old
    entries and the submitted addresses, whatever their order and
    repetition, and [True] was returned once for each new value. *)
Theorem history_counts_distinct (w : World) (lines ips : list string) :
  store_holds (store w) lines ->
  Forall one_line lines ->
  NoDup lines ->
  Forall one_line ips ->
  exists flags w',
    record_all ips w = (Ok flags, w') /\
    count (store w') = length (nodup string_dec (lines ++ ips)) /\
    count (store w') = length lines + count_new flags /\
    (forall ips' w2,
       store w2 = store w ->
       Permutation ips ips' ->
       count (store (snd (record_all ips' w2))) = count (store w')).
Proof.
  intros Hs Hl Hnd Hi.
  assert (Hcount : forall l w0,
            store_holds (store w0) lines -> Forall one_line l ->
            exists w',
              record_all l w0 = (Ok (new_flags lines l), w') /\
              count (store w') = length (nodup string_dec (lines ++ l)) /\
              count (store w') = length lines + count_new (new_flags lines l)).
  { intros l w0 Hs0 Hl0.
    destruct (record_all_run l lines w0 Hs0 Hl Hl0) as (w' & Hrun & Hst).
    exists w'. split; [exact Hrun |].
    assert (Hfs : Forall one_line (lines ++ first_seen lines l)).
    { apply Forall_forall. intros x Hx. apply first_seen_In in Hx.
      rewrite Forall_forall in Hl, Hl0. destruct Hx; auto. }
    unfold count. rewrite (entries_store w' _ Hst Hfs). split.
    - apply Permutation_length. apply NoDup_Permutation.
      + apply first_seen_NoDup. exact Hnd.
      + apply NoDup_nodup.
      + intros x. rewrite nodup_In, first_seen_In, in_app_iff. tauto.
    - rewrite length_app, new_flags_count. reflexivity. }
  destruct (Hcount ips w Hs Hi) as (w' & Hrun & Hc1 & Hc2).
  exists (new_flags lines ips), w'. split; [exact Hrun | split; [exact Hc1 | split; [exact Hc2 |]]].
  intros ips' w2 E Hp.
  destruct (Hcount ips' w2) as (w2' & Hrun2 & Hc3 & _).
  - rewrite E. exact Hs.
  - eapply Permutation_Forall; eauto.
  - rewrite Hrun2. simpl. rewrite Hc3, Hc1.
    apply Permutation_length. apply NoDup_Permutation; try apply NoDup_nodup.
    intros x. rewrite !nodup_In, !in_app_iff.
    split; intros [H | H]; auto; right.
    + apply (Permutation_in _ (Permutation_sym Hp)). exact H.
    + apply (Permutation_in _ Hp). exact H.
Qed.

Lemma history_counts_distinct_witness :
  exists flags w',
    record_all ["3.3.3.3"; "3.3.3.3"; "4.4.4.4"]
      (Sample.world Sample.quiet_env StoreAbsent) = (Ok flags, w') /\
    count (store w') = 2.
Proof.
  destruct (history_counts_distinct (Sample.world Sample.quiet_env StoreAbsent) []
              ["3.3.3.3"; "3.3.3.3"; "4.4.4.4"])
    as (flags & w' & Hrun & Hc & _).
  - reflexivity.
  - constructor.
  - constructor.
  - repeat constructor.
  - exists flags, w'. split; [exact Hrun | exact Hc].
Defined.

(** X2.  [record_ip] only ever appends: through any run of calls, on any
    addresses, the text of an existing file stays a prefix of the new text,
    and no call raises. *)
Theorem record_ip_append_only (ips : list string) (w : World) (content : string) :
  store w = StoreFile content ->
  exists flags w' added,
    record_all ips w = (Ok flags, w') /\
    store w' = StoreFile (content ++ added) /\
    length flags = length ips.
Proof.
  revert w content. induction ips as [|ip ips IH]; intros w content Hs; simpl.
  - exists [], w, EmptyString. split; [reflexivity | split; [| reflexivity]].
    rewrite Hs. f_equal. clear. induction content; simpl; congruence.
  - assert (H1 : exists b w1 add1,
               record_ip ip w = (Ok b, w1) /\ store w1 = StoreFile (content ++ add1)).
    { unfold record_ip, bind, os_path_exists, file_read, file_append, ret.
      rewrite Hs. simpl. rewrite Hs.
      destruct (in_list ip (splitlines content)); simpl.
      - exists false, w, EmptyString. split; [reflexivity |].
        rewrite Hs. f_equal. clear. induction content; simpl; congruence.
      - rewrite Hs. eexists; eexists; eexists. split; reflexivity. }
    destruct H1 as (b & w1 & add1 & E1 & Hs1).
    destruct (IH w1 _ Hs1) as (flags & w' & added & E2 & Hs2 & Hlen).
    exists (b :: flags), w', (add1 ++ added)%string.
    rewrite (bind_ok _ _ _ _ _ E1), (bind_ok _ _ _ _ _ E2).
    split; [reflexivity | split; [| simpl; congruence]].
    rewrite Hs2, string_app_assoc. reflexivity.
Qed.

Lemma record_ip_append_only_witness :
  exists flags w' added,
    record_all [Sample.two_lines; "5.5.5.5"]
      (Sample.world Sample.quiet_env (StoreFile "no newline")) = (Ok flags, w') /\
    store w' = StoreFile ("no newline" ++ added) /\
    length flags = 2.
Proof.
  apply (record_ip_append_only [Sample.two_lines; "5.5.5.5"]
           (Sample.world Sample.quiet_env (StoreFile "no newline")) "no newline").
  reflexivity.
Defined.

(* ===================================================================== *)
(** * The rotation and the history *)
(* ===================================================================== *)

Lemma store_kept_preorder : preorder store_kept.
Proof.
  split.
  - intros w. reflexivity.
  - intros a b c H1 H2. unfold store_kept in *. congruence.
Qed.

Ltac store_leaf :=
  first
    [ solve [eauto]
    | let w := fresh "w" in
      intros w; cbv beta delta [emit ask lift_result assign_current_ip
                                assign_running os_path_exists file_read];
      simpl;
      repeat match goal with
        | |- context [match ?x with _ => _ end] => destruct x; simpl
        end;
      solve [reflexivity] ].

Lemma get_public_ipv4_store : keeps store_kept get_public_ipv4.
Proof.
  unfold get_public_ipv4, requests_get. keeps_with store_kept_preorder store_leaf.
Qed.

Lemma toggle_airplane_mode_store (state : string) :
  keeps store_kept (toggle_airplane_mode state).
Proof.
  unfold toggle_airplane_mode, subprocess_su.
  keeps_with store_kept_preorder store_leaf.
Qed.

Lemma load_device_name_store : keeps store_kept load_device_name.
Proof. unfold load_device_name. keeps_with store_kept_preorder store_leaf. Qed.

Lemma confirmed_store (ip : string) (w w' : World) (lines : list string) (o : option string) :
  store_holds (store w) lines ->
  Forall one_line lines ->
  confirmed ip w = (Ok o, w') ->
  store_holds (store w') (if in_list ip lines then lines else lines ++ [ip]).
Proof.
  intros Hs Hl. unfold confirmed. intros H.
  apply bind_inv in H. destruct H as (b & w1 & Hrec & H).
  assert (Hk : store w' = store w1).
  { assert (K : keeps store_kept
                  (print (MsgChanged ip);;
                   file_exists <- os_path_exists;;
                   total_ips <-
                     (if file_exists
                      then content <- file_read;;
                           ret (Datatypes.length (splitlines content))
                      else ret 1);;
                   print (if b then MsgRecorded else MsgAlreadyRecorded);;
                   print (MsgTotal total_ips);; ret (Some ip))).
    { keeps_with store_kept_preorder store_leaf. }
    specialize (K w1). rewrite H in K. exact K. }
  rewrite Hk. destruct (in_list ip lines) eqn:E.
  - apply in_list_spec in E.
    rewrite (record_ip_present w lines Hs Hl ip E) in Hrec. inversion Hrec; subst.
    exact Hs.
  - apply in_list_false in E.
    rewrite (record_ip_new w lines Hs Hl ip E) in Hrec. inversion Hrec; subst.
    reflexivity.
Qed.

Lemma confirm_loop_store (attempt : nat) (w w' : World) (lines : list string)
      (o : option string) :
  store_holds (store w) lines ->
  Forall one_line lines ->
  confirm_loop attempt w = (Ok o, w') ->
  match o with
  | None => store w' = store w
  | Some ip =>
      store_holds (store w') (if in_list ip lines then lines else lines ++ [ip])
  end.
Proof.
  intros Hs Hl. revert w Hs.
  induction attempt as [attempt IH] using attempts_ind. intros w Hs.
  rewrite confirm_loop_unroll.
  destruct (lt_dec attempt max_attempts) as [Hlt|Hge].
  2: { rewrite bind_print. intros H. inversion H; subst. reflexivity. }
  intros H. apply bind_inv in H. destruct H as (new & w1 & Hget & H). cbv zeta in H.
  assert (Hs1 : store w1 = store w).
  { pose proof (get_public_ipv4_store w) as K. rewrite Hget in K. exact K. }
  assert (Hnext : (print (MsgWaiting (attempt + 1) max_attempts);;
                   sleep 2;; confirm_loop (S attempt)) w1 = (Ok o, w') ->
                  match o with
                  | None => store w' = store w
                  | Some ip =>
                      store_holds (store w')
                        (if in_list ip lines then lines else lines ++ [ip])
                  end).
  { rewrite bind_print, bind_sleep. intros Hn.
    apply (IH Hlt) in Hn; [| simpl; rewrite Hs1; exact Hs].
    destruct o; [exact Hn |]. rewrite Hn. simpl. exact Hs1. }
  destruct new as [ip|]; [| exact (Hnext H)].
  destruct (truthy ip); [| exact (Hnext H)].
  pose proof (confirmed_returns _ _ _ _ H) as ->.
  apply (confirmed_store ip w1 w' lines (Some ip)); [rewrite Hs1; exact Hs | exact Hl | exact H].
Qed.

(** X3.  A rotation that confirms an address leaves the history holding
    the old entries, in their order, followed by this address when it was
    not among them: the address is in the history, once, and the history
    has grown by one line at most; a rotation that confirms none leaves
    the history file as it was.  (The address is one line in all but
    degenerate answers; the entries are then read back as such.) *)
Theorem rotation_updates_history (w w' : World) (lines : list string)
        (o : option string) :
  store_holds (store w) lines ->
  Forall one_line lines ->
  NoDup lines ->
  change_mobile_ip_at_phone w = (Ok o, w') ->
  match o with
  | None => store w' = store w
  | Some ip =>
      one_line ip ->
      entries (store w') = (if in_list ip lines then lines else lines ++ [ip]) /\
      In ip (entries (store w')) /\
      NoDup (entries (store w')) /\
      (forall x, In x lines -> In x (entries (store w'))) /\
      length (entries (store w')) <= S (length lines)
  end.
Proof.
  intros Hs Hl Hnd H. unfold change_mobile_ip_at_phone in H.
  apply bind_inv in H. destruct H as (name & w1 & E1 & H).
  apply bind_inv in H. destruct H as (old & w2 & E2 & H).
  rewrite !bind_print in H.
  apply bind_inv in H. destruct H as ([] & w3 & E3 & H).
  rewrite bind_sleep in H.
  apply bind_inv in H. destruct H as ([] & w4 & E4 & H).
  rewrite bind_sleep, bind_print in H.
  match type of H with confirm_loop 0 ?x = _ => set (wl := x) in * end.
  assert (Hwl : store wl = store w).
  { pose proof (load_device_name_store w) as K1. rewrite E1 in K1.
    pose proof (get_public_ipv4_store w1) as K2. rewrite E2 in K2.
    match type of E3 with ?m ?x = _ =>
      pose proof (toggle_airplane_mode_store "on" x) as K3 end.
    rewrite E3 in K3.
    match type of E4 with ?m ?x = _ =>
      pose proof (toggle_airplane_mode_store "off" x) as K4 end.
    rewrite E4 in K4.
    unfold store_kept in *. simpl in *. unfold wl. simpl. congruence. }
  pose proof (confirm_loop_store 0 wl w' lines o) as Hc.
  rewrite Hwl in Hc. specialize (Hc Hs Hl H).
  destruct o as [ip|]; [| congruence].
  intros Hip.
  assert (Hl' : Forall one_line (if in_list ip lines then lines else lines ++ [ip])).
  { destruct (in_list ip lines); [exact Hl |].
    apply Forall_app. split; [exact Hl | repeat constructor; exact Hip]. }
  rewrite (entries_store w' _ Hc Hl').
  destruct (in_list ip lines) eqn:Ei.
  - apply in_list_spec in Ei. repeat split; auto.
  - apply in_list_false in Ei. repeat split.
    + apply in_or_app. right. left. reflexivity.
    + apply NoDup_app; [exact Hnd | repeat constructor; simpl; tauto |].
      intros x Hx [<- | []]. contradiction.
    + intros x Hx. apply in_or_app. left. exact Hx.
    + rewrite length_app. simpl. lia.
Qed.

Lemma rotation_updates_history_witness :
  In "1.1.1.1" (entries (store (snd (change_mobile_ip_at_phone Scenario.changed)))).
Proof.
  assert (E : change_mobile_ip_at_phone Scenario.changed =
              (Ok (Some "1.1.1.1"), snd (change_mobile_ip_at_phone Scenario.changed)))
    by (apply run_eq; vm_compute; reflexivity).
  pose proof (rotation_updates_history Scenario.changed _ [] (Some "1.1.1.1")
                eq_refl (Forall_nil _) (NoDup_nil _) E) as H.
  destruct (H eq_refl) as (_ & H1 & _). exact H1.
Defined.

(* ===================================================================== *)
(** * Further properties of the toggles *)
(* ===================================================================== *)

Ltac toggle_cases w :=
  unfold toggle_airplane_mode, try_except, subprocess_su, bind, emit, ask; simpl;
  destruct (su (env w) (calls w ChSu)) as [[]|] eqn:E1; simpl;
  try (destruct (su (env w) (S (calls w ChSu))) as [[]|] eqn:E2; simpl).

(** X4.  One toggle runs the settings command of its state first and, only
    when that one succeeded, the broadcast command of its state: one or
    two commands in all.  It never raises [CalledProcessError]; it prints
    the failure message exactly when a command exits with a non-zero
    status, and then returns; any other failure of a command leaves it as
    an exception. *)
Theorem toggle_airplane_mode_outcome (state : string) (w : World) :
  state = "on" \/ state = "off" ->
  let n := calls w ChSu in
  let r := fst (toggle_airplane_mode state w) in
  let w' := snd (toggle_airplane_mode state w) in
  r <> Raise CalledProcessError /\
  calls w' ChSu = match su (env w) n with Some _ => n + 1 | None => n + 2 end /\
  events_since w w' = toggle_trace state (su (env w) n) (su (env w) (S n)) /\
  (In (EvPrint (MsgToggleFailed CalledProcessError)) (events_since w w') <->
   su (env w) n = Some CalledProcessError \/
   su (env w) n = None /\ su (env w) (S n) = Some CalledProcessError) /\
  (r = Ok tt <->
   su (env w) n = Some CalledProcessError \/
   su (env w) n = None /\
   (su (env w) (S n) = None \/ su (env w) (S n) = Some CalledProcessError)).
Proof.
  intros [-> | ->]; cbv zeta; toggle_cases w;
    (erewrite events_since_exact;
     [| simpl; rewrite <- ?app_assoc; reflexivity]);
    (split; [discriminate |]);
    (split; [lia |]);
    (split; [reflexivity |]);
    simpl; split; split;
    try solve [ intros [H | [H | [H | []]]]; discriminate
              | intros [H | [H | []]]; discriminate
              | intros [H | []]; discriminate
              | intros [H | [_ H]]; discriminate
              | intros [H | [_ [H | H]]]; discriminate
              | intros H; discriminate
              | tauto
              | intros _; tauto
              | intros _; right; split; [reflexivity | tauto] ].
Qed.

Lemma toggle_airplane_mode_outcome_witness :
  let w := Failure.su_refused in
  fst (toggle_airplane_mode "on" w) = Ok tt /\
  events_since w (snd (toggle_airplane_mode "on" w)) =
    [EvSu SettingsAirplaneOn; EvPrint (MsgToggleFailed CalledProcessError)] /\
  In (EvPrint (MsgToggleFailed CalledProcessError))
     (events_since w (snd (toggle_airplane_mode "on" w))).
Proof.
  intros w.
  destruct (toggle_airplane_mode_outcome "on" w (or_introl eq_refl))
    as (_ & _ & Hev & Hlog & Hok).
  split; [| split].
  - apply Hok. left. reflexivity.
  - exact Hev.
  - apply Hlog. left. reflexivity.
Defined.

Lemma toggle_good (state : string) (w : World) :
  state = "on" \/ state = "off" ->
  good w ->
  exists w1,
    toggle_airplane_mode state w = (Ok tt, w1) /\
    trace w1 =
      trace w ++ toggle_trace state (su (env w) (calls w ChSu))
                   (su (env w) (S (calls w ChSu))) /\
    calls w1 ChSu =
      match su (env w) (calls w ChSu) with
      | Some _ => calls w ChSu + 1
      | None => calls w ChSu + 2
      end /\
    env w1 = env w /\ store w1 = store w.
Proof.
  intros Hst (Hsu & _ & _).
  pose proof (Hsu (calls w ChSu)) as H1.
  pose proof (Hsu (S (calls w ChSu))) as H2.
  destruct Hst as [-> | ->]; toggle_cases w;
    try (destruct H1; discriminate); try (destruct H2; discriminate);
    eexists;
    (split; [reflexivity |]);
    simpl; rewrite <- ?app_assoc;
    (split; [reflexivity |]);
    (split; [lia | split; reflexivity]).
Qed.

(** X5.  When [su] can be started, a rotation does this before its first
    confirmation poll, in this order and nothing else: it reads the
    device name (printing a message when the configuration cannot be
    read), resolves the old address and prints three lines; it toggles
    airplane mode on (the settings command, then the broadcast command
    when that one succeeded), waits 3 seconds, toggles airplane mode off
    in the same way, waits 4 seconds and prints that it starts polling. *)
Theorem toggles_before_polling (w : World) :
  good w ->
  let n := calls w ChSu in
  let m := match su (env w) n with Some _ => n + 1 | None => n + 2 end in
  exists wl old_ip,
    change_mobile_ip_at_phone w = confirm_loop 0 wl /\
    resolution (env w) (calls w ChIcanhazip) = Ok old_ip /\
    trace wl =
      trace w ++ prelude_events (env w) old_ip ++
      toggle_trace "on" (su (env w) n) (su (env w) (S n)) ++
      [EvSleep 3] ++
      toggle_trace "off" (su (env w) m) (su (env w) (S m)) ++
      [EvSleep 4; EvPrint MsgTrying] /\
    good wl.
Proof.
  intros Hg. cbv zeta. unfold change_mobile_ip_at_phone.
  assert (H1 : exists name w1,
             load_device_name w = (Ok name, w1) /\
             trace w1 = trace w ++ match config_json (env w) with
                                   | ConfigBroken => [EvPrint (MsgConfigError ValueError)]
                                   | _ => []
                                   end /\
             name = match config_json (env w) with
                    | ConfigLoaded device_name => device_name
                    | _ => "Unknown"
                    end /\
             env w1 = env w /\ store w1 = store w /\ calls w1 = calls w).
  { unfold load_device_name, try_except.
    destruct (config_json (env w)); simpl.
    - exists "Unknown", w. rewrite app_nil_r. repeat split; auto.
    - eexists _, w. rewrite app_nil_r. repeat split; auto.
    - eexists; eexists. repeat split; reflexivity. }
  destruct H1 as (name & w1 & E1 & T1 & Hname & He1 & Hs1 & Hc1).
  rewrite (bind_ok _ _ _ _ _ E1).
  assert (Hg1 : good w1) by (apply (good_same w); assumption).
  destruct (contained_ok get_public_ipv4 w1 get_public_ipv4_contained Hg1)
    as (old & E2 & Hg2).
  assert (Hold : resolution (env w) (calls w ChIcanhazip) = Ok old).
  { pose proof (f_equal fst E2) as Hr. rewrite get_public_ipv4_run in Hr.
    cbn [fst] in Hr. rewrite He1, Hc1 in Hr. exact Hr. }
  assert (Ew2 : snd (get_public_ipv4 w1) =
                bump ChIcanhazip (add_event (EvRequestsGet 10) w1))
    by (rewrite get_public_ipv4_run; reflexivity).
  rewrite Ew2 in E2, Hg2. clear Ew2.
  set (w2 := bump ChIcanhazip (add_event (EvRequestsGet 10) w1)) in *.
  rewrite (bind_ok _ _ _ _ _ E2).
  rewrite !bind_print.
  set (w3 := add_event _ (add_event _ (add_event _ w2))).
  assert (Hg3 : good w3) by (apply (good_same w2); auto).
  assert (He3 : env w3 = env w) by exact He1.
  assert (Hc3 : calls w3 ChSu = calls w ChSu) by (unfold w3, w2; simpl; rewrite Hc1; reflexivity).
  destruct (toggle_good "on" w3 (or_introl eq_refl) Hg3)
    as (w4 & E4 & T4 & Hc4 & He4 & Hs4).
  rewrite He3, Hc3 in T4, Hc4.
  rewrite (bind_ok _ _ _ _ _ E4), bind_sleep.
  set (w5 := add_event (EvSleep 3) w4).
  assert (Hg5 : good w5).
  { apply (good_same w3); [| | exact Hg3]; unfold w5; simpl; assumption. }
  assert (He5 : env w5 = env w) by (unfold w5; simpl; rewrite He4; exact He3).
  destruct (toggle_good "off" w5 (or_intror eq_refl) Hg5)
    as (w6 & E6 & T6 & _ & He6 & Hs6).
  change (calls w5 ChSu) with (calls w4 ChSu) in T6.
  rewrite He5, Hc4 in T6.
  rewrite (bind_ok _ _ _ _ _ E6), bind_sleep, bind_print.
  eexists. exists old.
  split; [reflexivity |]. split; [exact Hold |]. split.
  - cbn [trace add_event]. rewrite T6. unfold w5. cbn [trace add_event].
    rewrite T4. unfold w3, w2. cbn [trace add_event bump].
    rewrite T1. unfold prelude_events. rewrite <- Hname.
    rewrite <- ?app_assoc. reflexivity.
  - apply (good_same w5); [| | exact Hg5]; simpl; assumption.
Qed.

Lemma toggles_before_polling_witness :
  let w := Failure.su_refused in
  exists wl old_ip,
    change_mobile_ip_at_phone w = confirm_loop 0 wl /\
    resolution (env w) (calls w ChIcanhazip) = Ok old_ip /\
    trace wl =
      trace w ++ prelude_events (env w) old_ip ++
      toggle_trace "on" (su (env w) 0) (su (env w) 1) ++
      [EvSleep 3] ++
      toggle_trace "off" (su (env w) 1) (su (env w) 2) ++
      [EvSleep 4; EvPrint MsgTrying] /\
    good wl.
Proof.
  intros w. apply (toggles_before_polling Failure.su_refused). exact good_su_refused.
Defined.

(* ===================================================================== *)
(** * Further properties of the string functions *)
(* ===================================================================== *)

Lemma split_dot_nonempty (s : string) : split_dot s <> [].
Proof.
  destruct s as [|c r]; simpl; [discriminate |].
  destruct (Ascii.eqb c "."); [discriminate |].
  destruct (split_dot r); discriminate.
Qed.

Lemma join_dot_cons (p : string) (rest : list string) :
  rest <> [] -> join_dot (p :: rest) = (p ++ String "." (join_dot rest))%string.
Proof. destruct rest; [congruence | reflexivity]. Qed.

(** Splitting at the dots and joining with dots gives the string back. *)
Lemma join_split_dot (s : string) : join_dot (split_dot s) = s.
Proof.
  induction s as [|c r IH]; simpl; [reflexivity |].
  destruct (Ascii.eqb c ".") eqn:E.
  - apply Ascii.eqb_eq in E. subst.
    rewrite join_dot_cons by apply split_dot_nonempty. simpl. rewrite IH. reflexivity.
  - pose proof (split_dot_nonempty r) as Hne.
    destruct (split_dot r) as [|p ps]; [congruence |].
    destruct ps as [|q ps]; simpl in *; rewrite <- IH; reflexivity.
Qed.

Lemma split_dot_single (p : string) : no_dotb p = true -> split_dot p = [p].
Proof.
  induction p as [|c r IH]; simpl; intros H; [reflexivity |].
  apply andb_true_iff in H. destruct H as [Hc Hr].
  apply negb_true_iff in Hc. rewrite Hc, (IH Hr). reflexivity.
Qed.

Lemma split_dot_part (p rest : string) :
  no_dotb p = true ->
  split_dot (p ++ String "." rest) = p :: split_dot rest.
Proof.
  induction p as [|c r IH]; simpl; intros H; [reflexivity |].
  apply andb_true_iff in H. destruct H as [Hc Hr].
  apply negb_true_iff in Hc. rewrite Hc, (IH Hr). reflexivity.
Qed.

Lemma split_dot_parts_no_dot (s : string) : Forall (fun p => no_dotb p = true) (split_dot s).
Proof.
  induction s as [|c r IH]; simpl; [repeat constructor |].
  destruct (Ascii.eqb c ".") eqn:E; [constructor; [reflexivity | exact IH] |].
  destruct (split_dot r) as [|p ps]; [repeat constructor; simpl; rewrite E; reflexivity |].
  inversion IH; subst. constructor; [simpl; rewrite E; simpl; assumption | assumption].
Qed.

(** X6.  [validate_ip] accepts exactly the strings made of four parts without
    dots, joined by dots, each of which [int] reads as a number from 0 to
    255 (so also parts with a sign, with underscores or with white space
    around the digits). *)
Theorem validate_ip_iff (ip : string) :
  validate_ip ip = true <->
  exists p1 p2 p3 p4,
    ip = join_dot [p1; p2; p3; p4] /\
    Forall (fun p => no_dotb p = true /\
                     exists n, py_int p = Some n /\ (0 <= n <= 255)%Z)
           [p1; p2; p3; p4].
Proof.
  assert (Hoct : forall p, octet_ok p = true <->
                           exists n, py_int p = Some n /\ (0 <= n <= 255)%Z).
  { intros p. unfold octet_ok. destruct (py_int p) as [n|].
    - rewrite andb_true_iff, !Z.leb_le. split.
      + intros H. exists n. split; [reflexivity | lia].
      + intros (m & E & H). inversion E; subst. lia.
    - split; [discriminate | intros (m & E & _); discriminate]. }
  unfold validate_ip. split.
  - intros H. apply andb_true_iff in H. destruct H as [Hlen Hall].
    apply Nat.eqb_eq in Hlen.
    pose proof (join_split_dot ip) as Hj.
    pose proof (split_dot_parts_no_dot ip) as Hnd.
    destruct (split_dot ip) as [|p1 [|p2 [|p3 [|p4 [|p5 l]]]]]; try discriminate.
    exists p1, p2, p3, p4. split; [symmetry; exact Hj |].
    rewrite forallb_forall in Hall. rewrite Forall_forall in *.
    intros p Hp. split; [apply Hnd; exact Hp | apply Hoct, Hall, Hp].
  - intros (p1 & p2 & p3 & p4 & -> & Hall).
    assert (Hs : split_dot (join_dot [p1; p2; p3; p4]) = [p1; p2; p3; p4]).
    { inversion Hall as [|? ? [H1 _] Hall1]; subst.
      inversion Hall1 as [|? ? [H2 _] Hall2]; subst.
      inversion Hall2 as [|? ? [H3 _] Hall3]; subst.
      inversion Hall3 as [|? ? [H4 _] _]; subst.
      simpl join_dot.
      rewrite (split_dot_part p1 _ H1), (split_dot_part p2 _ H2),
        (split_dot_part p3 _ H3), (split_dot_single p4 H4). reflexivity. }
    rewrite Hs. simpl length. simpl Nat.eqb. rewrite andb_true_l.
    apply forallb_forall. intros p Hp. rewrite Forall_forall in Hall.
    apply Hoct. apply (Hall p Hp).
Qed.

Lemma octet_table :
  forallb (fun k => octet_ok (decimal (Z.of_nat k)) && no_dotb (decimal (Z.of_nat k)))
          (seq 0 256) = true.
Proof. vm_compute. reflexivity. Qed.

Lemma octet_decimal (n : Z) :
  (0 <= n <= 255)%Z -> octet_ok (decimal n) = true /\ no_dotb (decimal n) = true.
Proof.
  intros H. pose proof octet_table as T. rewrite forallb_forall in T.
  specialize (T (Z.to_nat n)). rewrite Z2Nat.id in T by lia.
  apply andb_true_iff. apply T. apply in_seq. lia.
Qed.

(** X7.  Every address written as four decimal numbers from 0 to 255 passes
    [validate_ip]. *)
Theorem validate_ip_dotted (a b c d : Z) :
  (0 <= a <= 255)%Z -> (0 <= b <= 255)%Z ->
  (0 <= c <= 255)%Z -> (0 <= d <= 255)%Z ->
  validate_ip (dotted a b c d) = true.
Proof.
  intros Ha Hb Hc Hd.
  destruct (octet_decimal a Ha) as [Oa Na]. destruct (octet_decimal b Hb) as [Ob Nb].
  destruct (octet_decimal c Hc) as [Oc Nc]. destruct (octet_decimal d Hd) as [Od Nd].
  unfold validate_ip, dotted. simpl join_dot.
  rewrite (split_dot_part _ _ Na), (split_dot_part _ _ Nb),
    (split_dot_part _ _ Nc), (split_dot_single _ Nd).
  simpl. rewrite Oa, Ob, Oc, Od. reflexivity.
Qed.

Lemma validate_ip_dotted_witness : validate_ip (dotted 192 168 1 100) = true.
Proof. apply validate_ip_dotted; lia. Defined.

Lemma validate_ip_iff_witness :
  exists p1 p2 p3 p4,
    " +1_0.0 .0.255" = join_dot [p1; p2; p3; p4] /\
    Forall (fun p => no_dotb p = true /\
                     exists n, py_int p = Some n /\ (0 <= n <= 255)%Z)
           [p1; p2; p3; p4].
Proof. apply (proj1 (validate_ip_iff " +1_0.0 .0.255")). reflexivity. Defined.


Lemma lstrip_head (s : string) (c : ascii) (r : string) :
  lstrip s = String c r -> is_space c = false.
Proof.
  induction s as [|a s IH]; simpl; [discriminate |].
  destruct (is_space a) eqn:E; [exact IH |].
  intros H. inversion H; subst. exact E.
Qed.

Lemma lstrip_fixed (s : string) :
  match s with EmptyString => True | String c _ => is_space c = false end ->
  lstrip s = s.
Proof. destruct s as [|c r]; simpl; [reflexivity | intros ->; reflexivity]. Qed.

Lemma rstrip_cons (c : ascii) (r : string) :
  is_space c = false ->
  exists r', rstrip (String c r) = String c r'.
Proof.
  intros H. simpl. destruct (rstrip r); [rewrite H |]; eauto.
Qed.

Lemma rstrip_last (s : string) :
  match rstrip s with
  | EmptyString => True
  | t => exists l, last_char t = Some l /\ is_space l = false
  end.
Proof.
  induction s as [|c r IH]; simpl; [exact I |].
  destruct (rstrip r) as [|a t] eqn:E.
  - destruct (is_space c) eqn:Ec; [exact I |]. exists c. split; [reflexivity | exact Ec].
  - destruct IH as (l & Hl & Hs). exists l. split; [| exact Hs].
    simpl in *. exact Hl.
Qed.

Lemma rstrip_idem (s : string) : rstrip (rstrip s) = rstrip s.
Proof.
  induction s as [|c r IH]; simpl; [reflexivity |].
  destruct (rstrip r) as [|a t] eqn:E.
  - destruct (is_space c) eqn:Ec; simpl; [reflexivity | rewrite Ec; reflexivity].
  - change (rstrip (String c (String a t))) with
      (match rstrip (String a t) with
       | EmptyString => if is_space c then EmptyString else String c EmptyString
       | r' => String c r'
       end).
    rewrite IH. reflexivity.
Qed.

Lemma strip_clean (s : string) : clean_ends (strip s) /\ strip (strip s) = strip s.
Proof.
  unfold strip.
  pose proof (rstrip_last (lstrip s)) as Hl.
  destruct (lstrip s) as [|c r] eqn:E; [simpl; auto |].
  pose proof (lstrip_head _ _ _ E) as Hc.
  destruct (rstrip_cons c r Hc) as (r' & Er).
  rewrite Er in *. split.
  - simpl. split; [exact Hc | exact Hl].
  - rewrite lstrip_fixed by exact Hc. rewrite <- Er. apply rstrip_idem.
Qed.

(** X8.  The address [get_public_ipv4] returns has no white space at either end,
    so stripping it again changes nothing; and it is reported as [None]
    only when the request raised [RequestException]. *)
Theorem get_public_ipv4_stripped (w : World) :
  match fst (get_public_ipv4 w) with
  | Ok (Some ip) =>
      clean_ends ip /\ strip ip = ip /\
      exists body, icanhazip (env w) (calls w ChIcanhazip) = Ok body /\ ip = strip body
  | Ok None => icanhazip (env w) (calls w ChIcanhazip) = Raise RequestException
  | Raise e => icanhazip (env w) (calls w ChIcanhazip) = Raise e /\ e <> RequestException
  end.
Proof.
  rewrite get_public_ipv4_run. cbn [fst]. unfold resolution.
  destruct (icanhazip (env w) (calls w ChIcanhazip)) as [body|e] eqn:E.
  - destruct (strip_clean body) as [H1 H2].
    split; [exact H1 | split; [exact H2 | exists body; split; reflexivity]].
  - destruct e; cbn; try (split; [reflexivity | discriminate]); reflexivity.
Qed.


(* ===================================================================== *)
(** * The resolvers of the agent: facts *)
(* ===================================================================== *)

Lemma try_services_step (service : string) (rest : list string) (w : World) :
  try_services (service :: rest) w =
  let w1 := bump ChEcho (add_event (EvSessionGet service 5) w) in
  match service_answer (echo (env w) (calls w ChEcho)) with
  | Some ip => (Ok (Some ip), w1)
  | None => try_services rest w1
  end.
Proof.
  cbn [try_services]. unfold bind at 1, try_except, session_get, bind, emit, ask,
    service_answer. cbn.
  destruct (echo (env w) (calls w ChEcho)) as [[status body]|e]; cbn; [| reflexivity].
  destruct (status =? 200)%Z; cbn; [| reflexivity].
  change (rstrip (lstrip body)) with (strip body).
  destruct (validate_ip (strip body)); reflexivity.
Qed.

(** The services are asked in order until one gives a valid address. *)
Lemma try_services_first (l : list string) (k : nat) (w : World) (ip : string) :
  k < length l ->
  (forall j, j < k -> service_answer (echo (env w) (calls w ChEcho + j)) = None) ->
  service_answer (echo (env w) (calls w ChEcho + k)) = Some ip ->
  exists w',
    try_services l w = (Ok (Some ip), w') /\
    env w' = env w /\
    calls w' ChEcho = calls w ChEcho + k + 1 /\
    calls w' ChCurl = calls w ChCurl /\
    trace w' = trace w ++ service_requests (firstn (S k) l).
Proof.
  revert k w. induction l as [|service rest IH]; intros k w Hk Hnone Hsome;
    [simpl in Hk; lia |].
  rewrite try_services_step. cbv zeta.
  destruct k as [|k].
  - rewrite Nat.add_0_r in Hsome. rewrite Hsome.
    eexists. split; [reflexivity |]. cbn.
    repeat split; try reflexivity; lia.
  - pose proof (Hnone 0 ltac:(lia)) as H0. rewrite Nat.add_0_r in H0. rewrite H0.
    set (w1 := bump ChEcho (add_event (EvSessionGet service 5) w)).
    assert (Hc : calls w1 ChEcho = S (calls w ChEcho)) by reflexivity.
    destruct (IH k w1) as (w' & E & He & Hce & Hcc & Ht).
    + simpl in Hk. lia.
    + intros j Hj. change (env w1) with (env w). rewrite Hc.
      replace (S (calls w ChEcho) + j) with (calls w ChEcho + S j) by lia.
      apply Hnone. lia.
    + change (env w1) with (env w). rewrite Hc.
      replace (S (calls w ChEcho) + k) with (calls w ChEcho + S k) by lia.
      exact Hsome.
    + exists w'. split; [exact E |]. split; [exact He |].
      split; [rewrite Hce, Hc; lia |]. split; [rewrite Hcc; reflexivity |].
      rewrite Ht. cbn. rewrite <- app_assoc. reflexivity.
Qed.

Lemma try_services_none (l : list string) (w : World) :
  (forall j, j < length l -> service_answer (echo (env w) (calls w ChEcho + j)) = None) ->
  exists w',
    try_services l w = (Ok None, w') /\
    env w' = env w /\
    calls w' ChEcho = calls w ChEcho + length l /\
    calls w' ChCurl = calls w ChCurl /\
    trace w' = trace w ++ service_requests l.
Proof.
  revert w. induction l as [|service rest IH]; intros w Hnone.
  - exists w. cbn. rewrite app_nil_r. repeat split; lia.
  - rewrite try_services_step. cbv zeta.
    pose proof (Hnone 0 ltac:(simpl; lia)) as H0. rewrite Nat.add_0_r in H0. rewrite H0.
    set (w1 := bump ChEcho (add_event (EvSessionGet service 5) w)).
    assert (Hc : calls w1 ChEcho = S (calls w ChEcho)) by reflexivity.
    destruct (IH w1) as (w' & E & He & Hce & Hcc & Ht).
    + intros j Hj. change (env w1) with (env w). rewrite Hc.
      replace (S (calls w ChEcho) + j) with (calls w ChEcho + S j) by lia.
      apply Hnone. simpl. lia.
    + exists w'. split; [exact E |]. split; [exact He |].
      split; [rewrite Hce, Hc; simpl; lia |]. split; [rewrite Hcc; reflexivity |].
      rewrite Ht. cbn. rewrite <- app_assoc. reflexivity.
Qed.

(** X9.  [get_current_ip] returns the address of the first echo service, in the
    order of the list, that answers 200 with a valid address: services
    before it that raised anything (an interrupt included), answered with
    another status or sent something else are passed over, no later
    service is asked, and [curl] is not run. *)
Theorem get_current_ip_first_valid (w : World) (k : nat) (ip : string) :
  k < length services ->
  (forall j, j < k -> service_answer (echo (env w) (calls w ChEcho + j)) = None) ->
  service_answer (echo (env w) (calls w ChEcho + k)) = Some ip ->
  exists w',
    get_current_ip w = (Ok ip, w') /\
    validate_ip ip = true /\
    calls w' ChEcho = calls w ChEcho + k + 1 /\
    calls w' ChCurl = calls w ChCurl /\
    events_since w w' = service_requests (firstn (S k) services).
Proof.
  intros Hk Hnone Hsome.
  destruct (try_services_first services k w ip Hk Hnone Hsome)
    as (w' & E & He & Hce & Hcc & Ht).
  exists w'. split.
  - unfold get_current_ip, try_except. rewrite (bind_ok _ _ _ _ _ E). reflexivity.
  - split; [eapply try_services_valid; exact E |].
    split; [exact Hce |]. split; [exact Hcc |].
    apply events_since_exact. exact Ht.
Qed.

Lemma get_current_ip_first_valid_witness :
  exists w',
    get_current_ip Resolvers.third_answers = (Ok "10.0.0.7", w') /\
    validate_ip "10.0.0.7" = true /\
    calls w' ChEcho = calls Resolvers.third_answers ChEcho + 2 + 1 /\
    calls w' ChCurl = calls Resolvers.third_answers ChCurl /\
    events_since Resolvers.third_answers w' = service_requests (firstn 3 services).
Proof.
  apply (get_current_ip_first_valid Resolvers.third_answers 2 "10.0.0.7").
  - simpl. lia.
  - intros j Hj. destruct j as [|[|j]]; [reflexivity | reflexivity | lia].
  - reflexivity.
Defined.

(** X10.  When none of the three services gives a valid address, each was asked
    once, [curl] is run once with a timeout of ten seconds, and the result
    is the stripped output of a [curl] that exited with 0 and printed a
    valid address, and ["Unknown"] otherwise; only an exception of [curl]
    that is not an [Exception] is raised. *)
Theorem get_current_ip_fallback (w : World) :
  (forall j, j < length services ->
             service_answer (echo (env w) (calls w ChEcho + j)) = None) ->
  fst (get_current_ip w) = curl_answer (curl (env w) (calls w ChCurl)) /\
  calls (snd (get_current_ip w)) ChEcho = calls w ChEcho + 3 /\
  calls (snd (get_current_ip w)) ChCurl = calls w ChCurl + 1 /\
  events_since w (snd (get_current_ip w)) = service_requests services ++ [EvCurl 10].
Proof.
  intros Hnone.
  destruct (try_services_none services w Hnone) as (w1 & E & He & Hce & Hcc & Ht).
  assert (Hrun : get_current_ip w =
                 (curl_answer (curl (env w) (calls w ChCurl)),
                  bump ChCurl (add_event (EvCurl 10) w1))).
  { unfold get_current_ip, try_except. rewrite (bind_ok _ _ _ _ _ E).
    unfold subprocess_curl, bind, emit, ask, curl_answer. cbn.
    rewrite He, Hcc.
    destruct (curl (env w) (calls w ChCurl)) as [[code out]|e]; cbn.
    - destruct (code =? 0)%Z; cbn; [| reflexivity].
      change (rstrip (lstrip out)) with (strip out).
      destruct (validate_ip (strip out)); reflexivity.
    - unfold any_Exception. destruct (is_Exception e); reflexivity. }
  rewrite Hrun. cbn [fst snd]. split; [reflexivity |].
  split; [cbn; rewrite Hce; reflexivity |].
  split; [cbn; rewrite Hcc; lia |].
  apply events_since_exact. cbn. rewrite Ht, <- app_assoc. reflexivity.
Qed.

Lemma get_current_ip_fallback_witness :
  fst (get_current_ip Resolvers.curl_answers) =
    curl_answer (curl (env Resolvers.curl_answers) (calls Resolvers.curl_answers ChCurl)) /\
  calls (snd (get_current_ip Resolvers.curl_answers)) ChEcho =
    calls Resolvers.curl_answers ChEcho + 3 /\
  calls (snd (get_current_ip Resolvers.curl_answers)) ChCurl =
    calls Resolvers.curl_answers ChCurl + 1 /\
  events_since Resolvers.curl_answers (snd (get_current_ip Resolvers.curl_answers)) =
    service_requests services ++ [EvCurl 10].
Proof.
  apply (get_current_ip_fallback Resolvers.curl_answers).
  intros j Hj. reflexivity.
Defined.


(* ===================================================================== *)
(** * Registration and status reports: facts *)
(* ===================================================================== *)

Lemma same_on_preorder {B} (f : World -> B) : preorder (same_on f).
Proof.
  split.
  - intros w. reflexivity.
  - intros a b c H1 H2. unfold same_on in *. congruence.
Qed.

(** Leaves of a computation that only emits events of one kind. *)
Ltac events_leaf :=
  first
    [ solve [eauto]
    | apply grows_emit; solve [cbv [resolver_event]; auto]
    | apply grows_ask
    | let w := fresh "w" in
      intros w;
      cbv beta delta [os_path_exists file_write file_read file_append
                      assign_current_ip assign_running lift_result];
      simpl;
      repeat match goal with
        | |- context [match ?x with _ => _ end] => destruct x; simpl
        end;
      solve [apply grows_silent; simpl; auto] ].

Lemma try_services_resolver (l : list string) :
  keeps (grows resolver_event) (try_services l).
Proof.
  induction l as [|service rest IH]; simpl; unfold session_get;
    keeps_with (grows_preorder resolver_event) events_leaf.
Qed.

Lemma get_current_ip_resolver : keeps (grows resolver_event) get_current_ip.
Proof.
  pose proof try_services_resolver as H.
  unfold get_current_ip, subprocess_curl.
  keeps_with (grows_preorder resolver_event) events_leaf.
Qed.

Lemma try_services_posts (l : list string) :
  keeps (untouched (only ChPost)) (try_services l).
Proof.
  induction l as [|service rest IH]; simpl; unfold session_get;
    untouched_auto (only ChPost).
Qed.

Lemma get_current_ip_posts : keeps (untouched (only ChPost)) get_current_ip.
Proof.
  pose proof try_services_posts as H.
  unfold get_current_ip, subprocess_curl. untouched_auto (only ChPost).
Qed.

(** Only an interrupt gets out of [get_current_ip]. *)
Lemma get_current_ip_raise (w : World) (e : exn) :
  fst (get_current_ip w) = Raise e -> e = KeyboardInterrupt.
Proof.
  unfold get_current_ip, try_except.
  match goal with |- context [let (_, _) := ?m w in _] => destruct (m w) as [[a|x] w1] end;
    [discriminate |].
  unfold any_Exception, is_Exception.
  destruct (exn_eqb x KeyboardInterrupt) eqn:E; simpl; [| discriminate].
  intros H. inversion H; subst. destruct e; simpl in E; congruence.
Qed.

Lemma resolver_not_post (evs : list event) :
  Forall resolver_event evs -> filter is_post evs = [].
Proof.
  induction 1 as [|e evs He _ IH]; simpl; [reflexivity |].
  destruct e; simpl in *; try contradiction; exact IH.
Qed.

Lemma registration_is_post (evs : list event) :
  filter is_post evs = [] -> filter is_registration evs = [].
Proof.
  induction evs as [|e evs IH]; simpl; [reflexivity |].
  destruct e; simpl; auto; discriminate.
Qed.

Lemma not_post_In (evs : list event) (ep : endpoint) (t : Z) :
  filter is_post evs = [] -> ~ In (EvPost ep t) evs.
Proof.
  intros H Hin.
  assert (Hf : In (EvPost ep t) (filter is_post evs))
    by (apply filter_In; split; [exact Hin | reflexivity]).
  rewrite H in Hf. exact Hf.
Qed.

(** What [register] does after the address lookup. *)
Lemma register_shape (w : World) :
  exists resolved tail,
    Forall resolver_event resolved /\ filter is_post tail = [] /\
    match fst (get_current_ip w) with
    | Ok ip =>
        events_since w (snd (register w)) =
          resolved ++ EvPrint (MsgRegistering ip) :: EvPost (ApiRegister ip) 10 :: tail /\
        current_ip (snd (register w)) = Some ip /\
        calls (snd (register w)) ChPost = S (calls w ChPost) /\
        (validate_ip ip = true \/ ip = "Unknown") /\
        fst (register w) =
          match post (env w) (calls w ChPost) with
          | Ok status =>
              match post_body (env w) (calls w ChPost) with
              | Ok _ => Ok (status =? 200)%Z
              | Raise e => if is_Exception e then Ok false else Raise e
              end
          | Raise e => if is_Exception e then Ok false else Raise e
          end
    | Raise e =>
        events_since w (snd (register w)) = resolved /\
        e = KeyboardInterrupt /\
        fst (register w) = Raise e /\
        calls (snd (register w)) ChPost = calls w ChPost
    end.
Proof.
  pose proof (get_current_ip_resolver w) as (He & _ & _ & resolved & Ht & Hres).
  pose proof (get_current_ip_posts w) as (_ & Hc). specialize (Hc ChPost eq_refl).
  pose proof (get_current_ip_raise w) as Hraise.
  pose proof (get_current_ip_valid w) as Hvalid.
  exists resolved.
  unfold register, try_except.
  destruct (get_current_ip w) as [[ip|x] w1] eqn:E; cbn [fst snd] in *.
  - rewrite (bind_ok _ _ _ _ _ E).
    specialize (Hvalid w1 ip eq_refl).
    unfold assign_current_ip, print, session_post, read_body, bind, emit, ask,
      any_Exception. cbn.
    rewrite He, Hc.
    destruct (post (env w) (calls w ChPost)) as [status|e]; cbn.
    + destruct (status =? 200)%Z; cbn; rewrite Nat.sub_0_r, He, Hc;
        destruct (post_body (env w) (calls w ChPost)) as [[]|e]; cbn;
        try (destruct (is_Exception e); cbn);
        eexists; (split; [exact Hres |]);
        (split; [| split; [apply events_since_exact; cbn; rewrite Ht, <- ?app_assoc;
                           cbn; reflexivity
                          | repeat split; auto]]); reflexivity.
    + destruct (is_Exception e); cbn;
        eexists; (split; [exact Hres |]);
        (split; [| split; [apply events_since_exact; cbn; rewrite Ht, <- ?app_assoc;
                           cbn; reflexivity
                          | repeat split; auto]]); reflexivity.
  - rewrite (bind_raise _ _ _ _ _ E).
    pose proof (Hraise x eq_refl) as ->. cbn.
    exists []. split; [exact Hres |]. split; [reflexivity |].
    split; [apply events_since_exact; exact Ht |]. auto.
Qed.

Lemma register_raise (w : World) (e : exn) :
  fst (register w) = Raise e -> e = KeyboardInterrupt.
Proof.
  destruct (register_shape w) as (resolved & tail & _ & _ & H).
  destruct (fst (get_current_ip w)) as [ip|x].
  - destruct H as (_ & _ & _ & _ & ->).
    destruct (post (env w) (calls w ChPost)) as [status|x];
      [destruct (post_body (env w) (calls w ChPost)) as [u|x]; [discriminate |] |];
      destruct x; cbn; intros H; inversion H; reflexivity.
  - destruct H as (_ & -> & -> & _). intros H. inversion H. reflexivity.
Qed.

Lemma register_once (w : World) :
  registrations (events_since w (snd (register w))) <= 1.
Proof.
  destruct (register_shape w) as (resolved & tail & Hres & Htail & H).
  pose proof (registration_is_post _ (resolver_not_post _ Hres)) as Hr.
  unfold registrations.
  destruct (fst (get_current_ip w)) as [ip|x].
  - destruct H as (-> & _). rewrite filter_app, length_app, Hr. cbn.
    rewrite (registration_is_post _ Htail). simpl. lia.
  - destruct H as (-> & _). rewrite Hr. simpl. lia.
Qed.

(** X11.  [register] returns [True] exactly when the address lookup
    returned, the server answered the POST with 200 and the body of the
    answer could be read as JSON; nothing but an interrupt gets out of it;
    it posts to [/api/register] at most once, with a timeout of ten
    seconds; and the address it posts is the one [get_current_ip]
    returned, which passes [validate_ip] or is ["Unknown"], and which is
    the agent's [current_ip] afterwards. *)
Theorem register_outcome (w : World) :
  (fst (register w) = Ok true <->
     (exists ip, fst (get_current_ip w) = Ok ip) /\
     post (env w) (calls w ChPost) = Ok 200%Z /\
     post_body (env w) (calls w ChPost) = Ok tt) /\
  (forall e, fst (register w) = Raise e -> e = KeyboardInterrupt) /\
  registrations (events_since w (snd (register w))) <= 1 /\
  calls (snd (register w)) ChPost <= calls w ChPost + 1 /\
  (forall ep t, In (EvPost ep t) (events_since w (snd (register w))) ->
     exists ip,
       ep = ApiRegister ip /\ t = 10%Z /\
       fst (get_current_ip w) = Ok ip /\
       (validate_ip ip = true \/ ip = "Unknown") /\
       current_ip (snd (register w)) = Some ip).
Proof.
  split; [| split; [exact (register_raise w) | split; [exact (register_once w) |]]].
  - destruct (register_shape w) as (resolved & tail & _ & _ & H).
    destruct (fst (get_current_ip w)) as [ip|x].
    + destruct H as (_ & _ & _ & _ & ->).
      destruct (post (env w) (calls w ChPost)) as [status|x].
      * destruct (post_body (env w) (calls w ChPost)) as [[]|x].
        -- split.
           ++ intros H. inversion H as [Hs]. apply Z.eqb_eq in Hs. subst.
              split; [exists ip; reflexivity | split; reflexivity].
           ++ intros (_ & Hs & _). inversion Hs. reflexivity.
        -- split; [| intros (_ & _ & Hb); discriminate].
           destruct (is_Exception x); discriminate.
      * split; [| intros (_ & Hs & _); discriminate].
        destruct (is_Exception x); discriminate.
    + destruct H as (_ & _ & -> & _).
      split; [discriminate | intros ((ip & Hip) & _); discriminate].
  - destruct (register_shape w) as (resolved & tail & Hres & Htail & H).
    pose proof (resolver_not_post _ Hres) as Hnp.
    destruct (fst (get_current_ip w)) as [ip|x].
    + destruct H as (Hev & Hcur & Hcalls & Hvalid & _). rewrite Hev, Hcalls.
      split; [lia |].
      intros ep t Hin. apply in_app_or in Hin.
      destruct Hin as [Hin | [Hin | [Hin | Hin]]].
      * exfalso. exact (not_post_In _ _ _ Hnp Hin).
      * discriminate.
      * inversion Hin; subst. exists ip. repeat split; auto.
      * exfalso. exact (not_post_In _ _ _ Htail Hin).
    + destruct H as (Hev & _ & _ & Hcalls). rewrite Hev, Hcalls.
      split; [lia |].
      intros ep t Hin. exfalso. exact (not_post_In _ _ _ Hnp Hin).
Qed.

(** A 200 answer whose body is not JSON does not register the agent. *)
Example register_not_json :
  let w := Registration.not_json in
  post (env w) (calls w ChPost) = Ok 200%Z /\
  fst (register w) = Ok false.
Proof. cbv zeta. split; vm_compute; reflexivity. Qed.


(** ** What a rotation and an address lookup leave alone *)

Section Steps.

Variable R : World -> World -> Prop.
Hypothesis R_pre : preorder R.
Hypothesis R_emit :
  forall e, is_post e = false -> is_rotation_start e = false -> keeps R (emit e).
Hypothesis R_ask :
  forall A (c : channel) (f : Env -> nat -> A),
    is_server_channel c = false -> keeps R (ask c f).
Hypothesis R_store : forall s w, R w (set_store s w).

Ltac step_leaf :=
  first
    [ solve [eauto]
    | apply R_emit;
      solve [ reflexivity
            | match goal with
              | |- context [if ?b then _ else _] => destruct b
              end; reflexivity ]
    | apply R_ask; reflexivity
    | let w := fresh "w" in
      intros w;
      cbv beta delta [os_path_exists file_write file_read file_append lift_result];
      simpl;
      repeat match goal with
        | |- context [match ?x with _ => _ end] => destruct x; simpl
        end;
      solve [apply (pre_refl R_pre) | apply R_store] ].

Ltac steps := keeps_with R_pre step_leaf.

Lemma get_public_ipv4_step : keeps R get_public_ipv4.
Proof. unfold get_public_ipv4, requests_get. steps. Qed.

Lemma record_ip_step (ip : string) : keeps R (record_ip ip).
Proof. unfold record_ip. steps. Qed.

Lemma confirmed_step (ip : string) : keeps R (confirmed ip).
Proof. pose proof record_ip_step as H. unfold confirmed. steps. Qed.

Lemma confirm_loop_step (attempt : nat) : keeps R (confirm_loop attempt).
Proof.
  pose proof get_public_ipv4_step as Hg. pose proof confirmed_step as Hc.
  induction attempt as [attempt IH] using attempts_ind.
  rewrite confirm_loop_unroll.
  destruct (lt_dec attempt max_attempts) as [Hlt|Hge]; [specialize (IH Hlt) |];
    cbv zeta; steps.
Qed.

Lemma toggle_airplane_mode_step (state : string) : keeps R (toggle_airplane_mode state).
Proof. unfold toggle_airplane_mode, subprocess_su. steps. Qed.

Lemma load_device_name_step : keeps R load_device_name.
Proof. unfold load_device_name. steps. Qed.

Lemma change_mobile_ip_at_phone_step : keeps R change_mobile_ip_at_phone.
Proof.
  pose proof get_public_ipv4_step as Hg. pose proof confirm_loop_step as Hc.
  pose proof toggle_airplane_mode_step as Ht. pose proof load_device_name_step as Hl.
  unfold change_mobile_ip_at_phone. steps.
Qed.

Lemma IPManager_change_ip_step : keeps R IPManager_change_ip.
Proof.
  pose proof get_public_ipv4_step as Hg.
  pose proof change_mobile_ip_at_phone_step as Hc.
  unfold IPManager_change_ip, time_time. cbv zeta. steps.
Qed.

Lemma try_services_step_keeps (l : list string) : keeps R (try_services l).
Proof. induction l as [|service rest IH]; simpl; unfold session_get; steps. Qed.

Lemma get_current_ip_step : keeps R get_current_ip.
Proof.
  pose proof try_services_step_keeps as H.
  unfold get_current_ip, subprocess_curl. steps.
Qed.

End Steps.

Lemma agent_fields_emit (e : event) : keeps (same_on agent_fields) (emit e).
Proof. intros w. reflexivity. Qed.

Lemma agent_fields_ask {A} (c : channel) (f : Env -> nat -> A) :
  keeps (same_on agent_fields) (ask c f).
Proof. intros w. reflexivity. Qed.

(** A rotation and an address lookup leave the fields of the agent alone. *)
Lemma IPManager_change_ip_agent : keeps (same_on agent_fields) IPManager_change_ip.
Proof.
  apply IPManager_change_ip_step;
    first [ apply same_on_preorder
          | intros e _ _; apply agent_fields_emit
          | intros A c f _; apply agent_fields_ask
          | intros s w; reflexivity ].
Qed.

Lemma get_current_ip_agent : keeps (same_on agent_fields) get_current_ip.
Proof.
  apply get_current_ip_step;
    first [ apply same_on_preorder
          | intros e _ _; apply agent_fields_emit
          | intros A c f _; apply agent_fields_ask
          | intros s w; reflexivity ].
Qed.

(** X12.  [DeviceAgent.change_ip] never touches the running flag, and sets
    [current_ip] exactly when the rotation reports success: to the new
    address, which is then non-empty; after a failed rotation, or one that
    raised, [current_ip] is what it was. *)
Theorem change_ip_updates_current_ip (w : World) :
  running (snd (DeviceAgent_change_ip w)) = running w /\
  match fst (DeviceAgent_change_ip w) with
  | Ok r =>
      current_ip (snd (DeviceAgent_change_ip w)) =
        (if success r then Some (new_ip r) else current_ip w) /\
      (success r = true -> truthy (new_ip r) = true)
  | Raise _ => current_ip (snd (DeviceAgent_change_ip w)) = current_ip w
  end.
Proof.
  unfold DeviceAgent_change_ip. rewrite bind_print.
  set (w0 := add_event (EvPrint MsgChangeStart) w).
  pose proof (IPManager_change_ip_agent w0) as Hk. unfold same_on, agent_fields in Hk.
  change (running w0) with (running w) in Hk.
  change (current_ip w0) with (current_ip w) in Hk.
  destruct (IPManager_change_ip w0) as [[r|e] w1] eqn:E; cbn [snd] in Hk.
  - inversion Hk as [[Hr Hc]].
    assert (Ht : success r = true -> truthy (new_ip r) = true).
    { revert E. unfold IPManager_change_ip, time_time. rewrite bind_ask. intros E.
      apply bind_inv in E. destruct E as (old & w2 & _ & E). cbv zeta in E.
      apply bind_inv in E. destruct E as (new & w3 & Hnew & E).
      rewrite bind_ask in E.
      destruct new as [ip|].
      - pose proof (change_mobile_ip_at_phone_truthy _ _ _ Hnew) as Hip.
        destruct (is_truthy (Some ip) && differs (Some ip) (or_else old "Unknown"));
          inversion E; subst; cbn; [intros _; exact Hip | discriminate].
      - cbn in E. inversion E; subst. cbn. discriminate. }
    rewrite (bind_ok _ _ _ _ _ E).
    destruct (success r) eqn:Es; unfold print, assign_current_ip, bind, emit; cbn;
      rewrite ?Es, ?Hr, ?Hc; auto.
  - rewrite (bind_raise _ _ _ _ _ E). cbn. inversion Hk. auto.
Qed.


Lemma no_registration_emit (e : event) :
  is_post e = false -> is_rotation_start e = false ->
  keeps (grows no_registration) (emit e).
Proof.
  intros H _. apply grows_emit. unfold no_registration.
  destruct e; try reflexivity. discriminate.
Qed.

Lemma no_registration_store (s : store_state) (w : World) :
  grows no_registration w (set_store s w).
Proof. apply grows_silent; simpl; auto. Qed.

Ltac quiet_leaf :=
  first
    [ solve [eauto]
    | apply grows_emit; solve [reflexivity]
    | apply grows_ask
    | let w := fresh "w" in
      intros w;
      cbv beta delta [assign_current_ip assign_running lift_result];
      simpl;
      repeat match goal with
        | |- context [match ?x with _ => _ end] => destruct x; simpl
        end;
      solve [apply grows_silent; simpl; auto] ].

Ltac quiet := keeps_with (grows_preorder no_registration) quiet_leaf.

Lemma get_current_ip_quiet : keeps (grows no_registration) get_current_ip.
Proof.
  apply get_current_ip_step;
    first [ apply grows_preorder
          | exact no_registration_emit
          | intros A c f _; apply grows_ask
          | exact no_registration_store ].
Qed.

Lemma IPManager_change_ip_quiet : keeps (grows no_registration) IPManager_change_ip.
Proof.
  apply IPManager_change_ip_step;
    first [ apply grows_preorder
          | exact no_registration_emit
          | intros A c f _; apply grows_ask
          | exact no_registration_store ].
Qed.

Lemma send_status_quiet : keeps (grows no_registration) send_status.
Proof.
  pose proof get_current_ip_quiet as H.
  unfold send_status, session_post. quiet.
Qed.

Lemma execute_command_quiet (c : Command) :
  keeps (grows no_registration) (execute_command c).
Proof.
  pose proof IPManager_change_ip_quiet as Hr. pose proof send_status_quiet as Hs.
  unfold execute_command, command_get, DeviceAgent_change_ip, session_post. cbv zeta. quiet.
Qed.

Lemma for_each_command_quiet (cs : list Command) :
  keeps (grows no_registration) (for_each_command cs).
Proof.
  pose proof execute_command_quiet as H.
  induction cs as [|c cs IH]; simpl; quiet.
Qed.

Lemma tick_quiet (lc ls : Z) : keeps (grows no_registration) (tick lc ls).
Proof.
  pose proof for_each_command_quiet as Hc. pose proof send_status_quiet as Hs.
  unfold tick, tick_block, check_commands, session_get_commands, time_time. quiet.
Qed.

Lemma run_loop_quiet (fuel : nat) (lc ls : Z) :
  keeps (grows no_registration) (run_loop fuel lc ls).
Proof.
  pose proof tick_quiet as Ht.
  revert lc ls. induction fuel as [|fuel IH]; intros lc ls w; simpl.
  - destruct (running w); apply (pre_refl (grows_preorder _)).
  - destruct (running w); [| apply (pre_refl (grows_preorder _))].
    revert w. change (keeps (grows no_registration)
                        (t <- tick lc ls ;;
                         match t with
                         | Continue lc' ls' => run_loop fuel lc' ls'
                         | Break => ret (Some tt)
                         end)).
    quiet.
Qed.

Lemma quiet_registrations (evs : list event) :
  Forall no_registration evs -> registrations evs = 0.
Proof.
  unfold registrations.
  induction 1 as [|e evs He _ IH]; simpl; [reflexivity |].
  unfold no_registration in He. rewrite He. exact IH.
Qed.

Lemma inner_no_fetch (e : event) : inner_event e -> no_fetch e.
Proof. intros H. apply cmd_no_fetch, inner_cmd, H. Qed.

(** X13.  [send_status] never raises, an interrupt included, and leaves the
    running flag alone; it posts at most once, to [/api/status] with a
    timeout of ten seconds, and the address it posts passes [validate_ip]
    or is ["Unknown"] and is the agent's [current_ip] afterwards. *)
Theorem send_status_outcome (w : World) :
  fst (send_status w) = Ok tt /\
  running (snd (send_status w)) = running w /\
  calls (snd (send_status w)) ChPost <= calls w ChPost + 1 /\
  (forall ep t, In (EvPost ep t) (events_since w (snd (send_status w))) ->
     exists ip,
       ep = ApiStatus ip /\ t = 10%Z /\
       (validate_ip ip = true \/ ip = "Unknown") /\
       current_ip (snd (send_status w)) = Some ip).
Proof.
  split; [apply send_status_ok |].
  unfold send_status. rewrite bind_emit.
  set (w0 := add_event (EvCall SendStatus) w).
  pose proof (get_current_ip_resolver w0) as (He & _ & _ & resolved & Ht & Hres).
  pose proof (get_current_ip_posts w0) as (_ & Hc). specialize (Hc ChPost eq_refl).
  pose proof (get_current_ip_agent w0) as Ha. unfold same_on, agent_fields in Ha.
  pose proof (get_current_ip_valid w0) as Hvalid.
  pose proof (resolver_not_post _ Hres) as Hnp.
  change (calls w0) with (calls w) in Hc.
  change (running w0) with (running w) in Ha.
  change (trace w0) with (trace w ++ [EvCall SendStatus]) in Ht.
  unfold try_except.
  destruct (get_current_ip w0) as [[ip|x] w1] eqn:E; cbn [fst snd] in *;
    pose proof (f_equal fst Ha) as Hr; cbn [fst] in Hr.
  - rewrite (bind_ok _ _ _ _ _ E).
    unfold assign_current_ip, session_post, bind, emit, ask. cbn.
    specialize (Hvalid w1 ip eq_refl).
    assert (Hev : forall w2,
               trace w2 = trace w1 ++ [EvPost (ApiStatus ip) 10] ->
               forall ep t, In (EvPost ep t) (events_since w w2) ->
                            ep = ApiStatus ip /\ t = 10%Z).
    { intros w2 T ep t Hin.
      rewrite (events_since_exact w w2
                 (EvCall SendStatus :: resolved ++ [EvPost (ApiStatus ip) 10])) in Hin
        by (rewrite T, Ht, <- !app_assoc; reflexivity).
      destruct Hin as [Hin | Hin]; [discriminate |].
      apply in_app_or in Hin. destruct Hin as [Hin | [Hin | []]].
      - exfalso. exact (not_post_In _ _ _ Hnp Hin).
      - inversion Hin. auto. }
    destruct (post (env w1) (calls w1 ChPost)) as [status|e]; cbn;
      (split; [exact Hr |]); (split; [rewrite Hc; lia |]);
      intros ep t Hin; apply Hev in Hin; try reflexivity;
      destruct Hin as [-> ->]; exists ip; repeat split; auto.
  - rewrite (bind_raise _ _ _ _ _ E). cbn.
    split; [exact Hr |]. split; [rewrite Hc; lia |].
    intros ep t Hin.
    rewrite (events_since_exact w w1 (EvCall SendStatus :: resolved)) in Hin
      by (rewrite Ht, <- app_assoc; reflexivity).
    destruct Hin as [Hin | Hin]; [discriminate |].
    exfalso. exact (not_post_In _ _ _ Hnp Hin).
Qed.

(** X14.  A run of the agent registers at most once, and does so before it
    calls [check_commands] or fetches commands for the first time: no
    pass of the loop posts to [/api/register] again, whatever the outcome
    of the registration was. *)
Theorem run_registers_once (fuel : nat) (w : World) :
  exists pre post,
    events_since w (snd (run fuel w)) = pre ++ post /\
    Forall no_fetch pre /\
    registrations pre <= 1 /\
    registrations post = 0.
Proof.
  pose (rest := fun registered : bool =>
          (if negb registered then print MsgRegisterRetry else ret tt) ;;
          print MsgConnected ;;
          left <- run_loop fuel 0 0 ;;
          match left with
          | Some _ => print MsgAgentExit ;; ret (Some tt)
          | None => ret None
          end).
  set (w0 := add_event (EvPrint MsgAgentStart) w).
  assert (Erun : run fuel w = bind register rest w0) by reflexivity.
  assert (Hrest : forall b, keeps (grows no_registration) (rest b)).
  { intros b. pose proof run_loop_quiet as Hl. unfold rest. quiet. }
  pose proof (register_inner w0) as Hreg.
  pose proof (register_once w0) as Hcount.
  destruct (grows_events _ _ _ Hreg) as [Treg Freg].
  assert (Hpre : Forall no_fetch (EvPrint MsgAgentStart :: events_since w0 (snd (register w0)))).
  { constructor.
    - split; [discriminate | intros t; discriminate].
    - eapply Forall_impl; [exact inner_no_fetch | exact Freg]. }
  assert (Hpre_count :
            registrations (EvPrint MsgAgentStart :: events_since w0 (snd (register w0))) <= 1)
    by exact Hcount.
  rewrite Erun.
  destruct (register w0) as [[b|e] w1] eqn:E; cbn [snd] in *.
  - rewrite (bind_ok _ _ _ _ _ E).
    pose proof (Hrest b w1) as Hgrow.
    destruct (grows_events _ _ _ Hgrow) as [Trest Frest].
    exists (EvPrint MsgAgentStart :: events_since w0 w1), (events_since w1 (snd (rest b w1))).
    split; [| split; [exact Hpre | split; [exact Hpre_count |
                                           apply quiet_registrations; exact Frest]]].
    apply events_since_exact. rewrite Trest, Treg. cbn. rewrite <- !app_assoc. reflexivity.
  - rewrite (bind_raise _ _ _ _ _ E). cbn [snd].
    exists (EvPrint MsgAgentStart :: events_since w0 w1), [].
    split; [| split; [exact Hpre | split; [exact Hpre_count | reflexivity]]].
    apply events_since_exact. rewrite Treg. cbn. rewrite <- !app_assoc, app_nil_r.
    reflexivity.
Qed.


(* ===================================================================== *)
(** * The device identifier *)
(* ===================================================================== *)

Lemma substring_length (n m : nat) (s : string) : String.length (substring n m s) <= m.
Proof.
  revert n m. induction s as [|c s IH]; intros n m.
  - destruct n, m; simpl; lia.
  - destruct n as [|n]; simpl.
    + destruct m as [|m]; simpl; [lia |]. specialize (IH 0 m). lia.
    + apply IH.
Qed.

Lemma string_length_app (a b : string) :
  String.length (a ++ b) = String.length a + String.length b.
Proof. induction a as [|c a IH]; simpl; [reflexivity | rewrite IH; reflexivity]. Qed.

Lemma prefix_app (p x : string) : prefix p (p ++ x) = true.
Proof.
  induction p as [|c p IH]; simpl; [destruct x; reflexivity |].
  destruct (ascii_dec c c); [exact IH | congruence].
Qed.

Lemma generate_device_id_result (w : World) :
  fst (generate_device_id w) =
    match phone_id (env w) with
    | Some device_id => Ok ("Phone_" ++ last_chars 8 device_id)%string
    | None =>
        match hostname (env w) with
        | Ok name => Ok ("Device_" ++ first_chars 10 name)%string
        | Raise e =>
            if is_Exception e
            then Ok ("Device_" ++
                     decimal (clock (env w) (calls w ChClock) mod 100000))%string
            else Raise e
        end
    end.
Proof.
  unfold generate_device_id, try_except, subprocess_telephony, time_time, bind, emit, ask,
    phone_id, any_Exception.
  cbn.
  destruct (termux (env w)); cbn;
    [destruct (telephony (env w)) as [[code dev]|x]; cbn;
     [destruct (code =? 0)%Z; cbn; [destruct (truthy dev); cbn |] |] |];
    try reflexivity;
    destruct (hostname (env w)) as [name|e]; cbn; try reflexivity;
    destruct (is_Exception e); reflexivity.
Qed.

(** X15.  [generate_device_id] returns ["Phone_"] followed by the last eight
    characters of the telephony device id when the agent runs on Termux
    and the tool exits with 0 and gives a non-empty id; otherwise
    ["Device_"] followed by the first ten characters of the host name; and
    when the host name lookup raised an [Exception], ["Device_"] followed
    by the time modulo 100000.  The first two have at most 17 characters.
    The telephony tool is run only on Termux, once and with a timeout of
    five seconds; whatever else the tool does, an interrupt included, the
    host name is used.  Only an interrupt of the host name lookup gets
    out. *)
Theorem generate_device_id_shape (w : World) :
  fst (generate_device_id w) =
    match phone_id (env w) with
    | Some device_id => Ok ("Phone_" ++ last_chars 8 device_id)%string
    | None =>
        match hostname (env w) with
        | Ok name => Ok ("Device_" ++ first_chars 10 name)%string
        | Raise e =>
            if is_Exception e
            then Ok ("Device_" ++
                     decimal (clock (env w) (calls w ChClock) mod 100000))%string
            else Raise e
        end
    end /\
  (forall id, fst (generate_device_id w) = Ok id ->
     (prefix "Phone_" id = true \/ prefix "Device_" id = true) /\
     (String.length id <= 17 \/
      exists e, hostname (env w) = Raise e /\
                id = ("Device_" ++
                      decimal (clock (env w) (calls w ChClock) mod 100000))%string) /\
     (prefix "Phone_" id = true ->
        termux (env w) = true /\
        exists dev, telephony (env w) = Ok (0%Z, dev) /\ truthy dev = true /\
                    id = ("Phone_" ++ last_chars 8 dev)%string)) /\
  (forall e, fst (generate_device_id w) = Raise e ->
     e = KeyboardInterrupt /\ hostname (env w) = Raise KeyboardInterrupt) /\
  events_since w (snd (generate_device_id w)) =
    (if termux (env w) then [EvTelephony 5] else []).
Proof.
  split; [apply generate_device_id_result |].
  assert (Hhost : forall name, String.length ("Device_" ++ first_chars 10 name) <= 17).
  { intros name. rewrite string_length_app. unfold first_chars.
    pose proof (substring_length 0 10 name). simpl. lia. }
  assert (Hphone : forall dev, String.length ("Phone_" ++ last_chars 8 dev) <= 17).
  { intros dev. rewrite string_length_app. unfold last_chars.
    pose proof (substring_length (String.length dev - 8) 8 dev). simpl. lia. }
  assert (Hev0 : forall w', trace w' = trace w -> events_since w w' = []).
  { intros w' T. apply events_since_exact. rewrite T, app_nil_r. reflexivity. }
  assert (Hev1 : forall w', trace w' = trace w ++ [EvTelephony 5] ->
                            events_since w w' = [EvTelephony 5]).
  { intros w' T. apply events_since_exact. exact T. }
  unfold generate_device_id, try_except, subprocess_telephony, time_time, bind, emit, ask.
  cbn.
  destruct (termux (env w)) eqn:Et; cbn.
  - destruct (telephony (env w)) as [[code dev]|x] eqn:Etel; cbn.
    + destruct (code =? 0)%Z eqn:Ec; cbn.
      * apply Z.eqb_eq in Ec. subst code.
        destruct (truthy dev) eqn:Etr; cbn.
        -- split; [| split; [discriminate | apply Hev1; reflexivity]].
           intros id H. inversion H; subst. clear H.
           split; [left; exact (prefix_app "Phone_" _) |]. split; [left; apply Hphone |].
           intros _. split; [reflexivity |]. exists dev. auto.
        -- destruct (hostname (env w)) as [name|e] eqn:Eh; cbn.
           ++ split; [| split; [discriminate | apply Hev1; reflexivity]].
              intros id H. inversion H; subst. clear H.
              split; [right; exact (prefix_app "Device_" _) |]. split; [left; apply Hhost |]. discriminate.
           ++ unfold any_Exception, is_Exception.
              destruct (exn_eqb e KeyboardInterrupt) eqn:Ee; cbn.
              ** split; [discriminate |]. split; [| apply Hev1; reflexivity].
                 intros e0 H. inversion H; subst.
                 destruct e0; simpl in Ee; try discriminate. auto.
              ** split; [| split; [discriminate | apply Hev1; reflexivity]].
                 intros id H. inversion H; subst. clear H.
                 split; [right; exact (prefix_app "Device_" _) |]. split; [right; exists e; auto |]. discriminate.
      * destruct (hostname (env w)) as [name|e] eqn:Eh; cbn.
        -- split; [| split; [discriminate | apply Hev1; reflexivity]].
           intros id H. inversion H; subst. clear H.
           split; [right; exact (prefix_app "Device_" _) |]. split; [left; apply Hhost |]. discriminate.
        -- unfold any_Exception, is_Exception.
           destruct (exn_eqb e KeyboardInterrupt) eqn:Ee; cbn.
           ++ split; [discriminate |]. split; [| apply Hev1; reflexivity].
              intros e0 H. inversion H; subst.
              destruct e0; simpl in Ee; try discriminate. auto.
           ++ split; [| split; [discriminate | apply Hev1; reflexivity]].
              intros id H. inversion H; subst. clear H.
              split; [right; exact (prefix_app "Device_" _) |]. split; [right; exists e; auto |]. discriminate.
    + destruct (hostname (env w)) as [name|e] eqn:Eh; cbn.
      * split; [| split; [discriminate | apply Hev1; reflexivity]].
        intros id H. inversion H; subst. clear H.
        split; [right; exact (prefix_app "Device_" _) |]. split; [left; apply Hhost |]. discriminate.
      * unfold any_Exception, is_Exception.
        destruct (exn_eqb e KeyboardInterrupt) eqn:Ee; cbn.
        -- split; [discriminate |]. split; [| apply Hev1; reflexivity].
           intros e0 H. inversion H; subst.
           destruct e0; simpl in Ee; try discriminate. auto.
        -- split; [| split; [discriminate | apply Hev1; reflexivity]].
           intros id H. inversion H; subst. clear H.
           split; [right; exact (prefix_app "Device_" _) |]. split; [right; exists e; auto |]. discriminate.
  - destruct (hostname (env w)) as [name|e] eqn:Eh; cbn.
    + split; [| split; [discriminate | apply Hev0; reflexivity]].
      intros id H. inversion H; subst. clear H.
      split; [right; exact (prefix_app "Device_" _) |]. split; [left; apply Hhost |]. discriminate.
    + unfold any_Exception, is_Exception.
      destruct (exn_eqb e KeyboardInterrupt) eqn:Ee; cbn.
      * split; [discriminate |]. split; [| apply Hev0; reflexivity].
        intros e0 H. inversion H; subst.
        destruct e0; simpl in Ee; try discriminate. auto.
      * split; [| split; [discriminate | apply Hev0; reflexivity]].
        intros id H. inversion H; subst. clear H.
        split; [right; exact (prefix_app "Device_" _) |]. split; [right; exists e; auto |]. discriminate.
Qed.


(* ===================================================================== *)
(** * The repeated rotation of the menu: facts *)
(* ===================================================================== *)

Lemma calm_emit (e : event) :
  is_post e = false -> is_rotation_start e = false ->
  keeps (grows calm_event) (emit e).
Proof.
  intros H1 H2. apply grows_emit. split; [| exact H2].
  destruct e; try reflexivity. discriminate.
Qed.

Lemma calm_store (s : store_state) (w : World) : grows calm_event w (set_store s w).
Proof. apply grows_silent; simpl; auto. Qed.

Ltac calm_leaf :=
  first
    [ solve [eauto]
    | apply grows_emit; solve [split; reflexivity]
    | apply grows_ask
    | let w := fresh "w" in
      intros w;
      cbv beta delta [assign_current_ip assign_running lift_result];
      simpl;
      repeat match goal with
        | |- context [match ?x with _ => _ end] => destruct x; simpl
        end;
      solve [apply grows_silent; simpl; auto] ].

Ltac calm := keeps_with (grows_preorder calm_event) calm_leaf.

Lemma IPManager_change_ip_calm : keeps (grows calm_event) IPManager_change_ip.
Proof.
  apply IPManager_change_ip_step;
    first [ apply grows_preorder
          | exact calm_emit
          | intros A c f _; apply grows_ask
          | exact calm_store ].
Qed.

Lemma get_current_ip_calm : keeps (grows calm_event) get_current_ip.
Proof.
  apply get_current_ip_step;
    first [ apply grows_preorder
          | exact calm_emit
          | intros A c f _; apply grows_ask
          | exact calm_store ].
Qed.

Lemma register_calm : keeps (grows calm_event) register.
Proof.
  pose proof get_current_ip_calm as H.
  unfold register, read_body, session_post. calm.
Qed.

Lemma calm_counts (evs : list event) :
  Forall calm_event evs -> reports evs = 0 /\ rotations evs = 0.
Proof.
  unfold reports, rotations.
  induction 1 as [|e evs [H1 H2] _ [IH1 IH2]]; simpl; [auto |].
  rewrite H1, H2. auto.
Qed.

Lemma reports_app (a b : list event) : reports (a ++ b) = reports a + reports b.
Proof. unfold reports. rewrite filter_app, length_app. reflexivity. Qed.

Lemma rotations_app (a b : list event) : rotations (a ++ b) = rotations a + rotations b.
Proof. unfold rotations. rewrite filter_app, length_app. reflexivity. Qed.

(** The store is left alone by the address lookup and by [register]. *)
Ltac same_leaf :=
  first
    [ solve [eauto]
    | let w := fresh "w" in
      intros w;
      cbv beta delta [emit ask assign_current_ip lift_result same_on];
      simpl;
      repeat match goal with
        | |- context [match ?x with _ => _ end] => destruct x; simpl
        end;
      solve [reflexivity] ].

Lemma get_current_ip_same_store : keeps (same_on store) get_current_ip.
Proof.
  apply get_current_ip_step;
    first [ apply same_on_preorder
          | intros e _ _ w; reflexivity
          | intros A c f _ w; reflexivity ].
Qed.

Lemma register_same_store : keeps (same_on store) register.
Proof.
  pose proof get_current_ip_same_store as H.
  unfold register, read_body, session_post, print.
  keeps_with (same_on_preorder store) same_leaf.
Qed.

Lemma try_services_rotation (l : list string) :
  keeps (untouched rotation_channel) (try_services l).
Proof.
  induction l as [|service rest IH]; simpl; unfold session_get;
    untouched_auto rotation_channel.
Qed.

Lemma register_rotation : keeps (untouched rotation_channel) register.
Proof.
  pose proof try_services_rotation as H.
  unfold register, read_body, get_current_ip, subprocess_curl, session_post.
  untouched_auto rotation_channel.
Qed.

Lemma assign_current_ip_contained (ok : exn -> bool) (ip : string) :
  contained ok (assign_current_ip ip).
Proof. intros w H. simpl. split; [| exact I]. apply (good_same w); auto. Qed.

Lemma DeviceAgent_change_ip_contained : contained never DeviceAgent_change_ip.
Proof.
  pose proof IPManager_change_ip_contained as Hr.
  pose proof (assign_current_ip_contained never) as Ha.
  unfold DeviceAgent_change_ip. contained_auto.
Qed.

(** One call of [DeviceAgent.change_ip]: its start, then neither a report
    nor another start. *)
Lemma DeviceAgent_change_ip_events (w : World) :
  exists evs,
    trace (snd (DeviceAgent_change_ip w)) = trace w ++ EvPrint MsgChangeStart :: evs /\
    Forall calm_event evs /\
    env (snd (DeviceAgent_change_ip w)) = env w.
Proof.
  pose proof IPManager_change_ip_calm as Hr.
  unfold DeviceAgent_change_ip. rewrite bind_print.
  set (w0 := add_event (EvPrint MsgChangeStart) w).
  match goal with
  | |- context [snd (?m w0)] =>
      assert (Hk : keeps (grows calm_event) m) by calm;
      destruct (Hk w0) as (He & _ & _ & evs & T & F)
  end.
  exists evs. split; [| split; [exact F | exact He]].
  rewrite T. cbn. rewrite <- app_assoc. reflexivity.
Qed.

(** A report that fails with an [Exception] is passed over. *)
Lemma post_report_run (r : IpChangeResult) (w : World) :
  posts_answered (env w) ->
  post_report r w = (Ok tt, bump ChPost (add_event (EvPost (ApiReportIpChange r) 10) w)).
Proof.
  intros H. unfold post_report, try_except, session_post, bind, emit, ask. cbn.
  specialize (H (calls w ChPost)).
  destruct (post (env w) (calls w ChPost)) as [status|e]; cbn; [reflexivity |].
  unfold any_Exception, is_Exception.
  destruct e; cbn; try reflexivity. congruence.
Qed.

Lemma change_rounds_run (rounds : nat) :
  forall (i : nat) (count interval : Z) (s f : nat) (w : World),
    good w -> posts_answered (env w) ->
    exists s' f' evs,
      change_rounds rounds i count interval s f w =
        (Ok (s', f'), snd (change_rounds rounds i count interval s f w)) /\
      trace (snd (change_rounds rounds i count interval s f w)) = trace w ++ evs /\
      s' + f' = s + f + rounds /\
      reports evs = rounds /\
      rotations evs = rounds.
Proof.
  induction rounds as [|rounds IH]; intros i count interval s f w Hgood Hposts.
  - exists s, f, []. cbn. rewrite app_nil_r. repeat split; lia.
  - cbn [change_rounds].
    destruct (contained_ok DeviceAgent_change_ip w DeviceAgent_change_ip_contained Hgood)
      as (r & E & Hg1).
    destruct (DeviceAgent_change_ip_events w) as (evs1 & T1 & F1 & He1).
    set (w1 := snd (DeviceAgent_change_ip w)) in *.
    rewrite (bind_ok _ _ _ _ _ E).
    assert (Hp1 : posts_answered (env w1)) by (rewrite He1; exact Hposts).
    rewrite (bind_ok _ _ _ _ _ (post_report_run r w1 Hp1)).
    set (w2 := bump ChPost (add_event (EvPost (ApiReportIpChange r) 10) w1)).
    assert (Hg2 : good w2) by (apply (good_same w1); auto).
    cbv zeta.
    set (s1 := if success r then S s else s).
    set (f1 := if success r then f else S f).
    assert (Hsf : s1 + f1 = s + f + 1) by (unfold s1, f1; destruct (success r); lia).
    destruct (calm_counts _ F1) as [Hrep1 Hrot1].
    destruct (Z.of_nat i <? count - 1)%Z.
    + rewrite bind_sleep.
      set (w3 := add_event (EvSleep interval) w2).
      destruct (IH (S i) count interval s1 f1 w3) as (s' & f' & evs & Erun & T & Hsum & Hrep & Hrot).
      * apply (good_same w2); auto.
      * exact Hp1.
      * exists s', f',
          (EvPrint MsgChangeStart :: evs1 ++
             EvPost (ApiReportIpChange r) 10 :: EvSleep interval :: evs).
        split; [exact Erun |]. split.
        { rewrite T. cbn. rewrite T1. rewrite <- ?app_assoc. cbn.
          rewrite <- ?app_assoc. reflexivity. }
        split; [lia |].
        change (EvPrint MsgChangeStart :: evs1 ++
                  EvPost (ApiReportIpChange r) 10 :: EvSleep interval :: evs)
          with ([EvPrint MsgChangeStart] ++ evs1 ++
                  [EvPost (ApiReportIpChange r) 10; EvSleep interval] ++ evs).
        rewrite !reports_app, !rotations_app, Hrep1, Hrot1, Hrep, Hrot.
        split; reflexivity.
    + change (bind (ret tt) ?k w2) with (k tt w2).
      destruct (IH (S i) count interval s1 f1 w2) as (s' & f' & evs & Erun & T & Hsum & Hrep & Hrot).
      * exact Hg2.
      * exact Hp1.
      * exists s', f',
          (EvPrint MsgChangeStart :: evs1 ++ EvPost (ApiReportIpChange r) 10 :: evs).
        split; [exact Erun |]. split.
        { rewrite T. cbn. rewrite T1. rewrite <- ?app_assoc. cbn.
          rewrite <- ?app_assoc. reflexivity. }
        split; [lia |].
        change (EvPrint MsgChangeStart :: evs1 ++ EvPost (ApiReportIpChange r) 10 :: evs)
          with ([EvPrint MsgChangeStart] ++ evs1 ++
                  [EvPost (ApiReportIpChange r) 10] ++ evs).
        rewrite !reports_app, !rotations_app, Hrep1, Hrot1, Hrep, Hrot.
        split; reflexivity.
Qed.

(** X16.  After a registration that returned [True], in a world where no
    rotation raises and no POST is interrupted, [_ip_change_loop] makes
    [count] rotations (none for a negative [count]) and posts one report
    for each, whether the earlier reports reached the server or not; the
    two counters add up to the number of rotations; and with [count = 0]
    the statistics end in a division by zero. *)
Theorem ip_change_loop_counts (count interval : Z) (w : World) :
  good w -> posts_answered (env w) -> fst (register w) = Ok true ->
  exists s f,
    fst (_ip_change_loop count interval w) =
      (if (count =? 0)%Z then Ok ZeroDivisionError else Ok (Statistics s f)) /\
    s + f = Z.to_nat count /\
    rotations (events_since w (snd (_ip_change_loop count interval w))) = Z.to_nat count /\
    reports (events_since w (snd (_ip_change_loop count interval w))) = Z.to_nat count.
Proof.
  intros Hgood Hposts Hreg.
  destruct (register_calm w) as (He & _ & _ & evs0 & T0 & F0).
  pose proof (register_same_store w) as Hs. unfold same_on in Hs.
  apply run_eq in Hreg. set (w1 := snd (register w)) in *.
  unfold _ip_change_loop. rewrite (bind_ok _ _ _ _ _ Hreg). cbn [negb].
  destruct (change_rounds_run (Z.to_nat count) 0 count interval 0 0 w1)
    as (s & f & evs & Erun & T & Hsum & Hrep & Hrot).
  - apply (good_same w); auto.
  - rewrite He. exact Hposts.
  - rewrite (bind_ok _ _ _ _ _ Erun).
    set (w2 := snd (change_rounds (Z.to_nat count) 0 count interval 0 0 w1)) in *.
    destruct (calm_counts _ F0) as [Hrep0 Hrot0].
    exists s, f.
    assert (Hev : events_since w w2 = evs0 ++ evs)
      by (apply events_since_exact; rewrite T, T0, app_assoc; reflexivity).
    destruct (count =? 0)%Z; unfold ret; cbn [fst snd];
      rewrite Hev, reports_app, rotations_app, Hrep0, Hrot0, Hrep, Hrot;
      repeat split; lia.
Qed.

Lemma ip_change_loop_counts_witness :
  exists s f,
    fst (_ip_change_loop 2 30 Failure.su_refused) =
      (if (2 =? 0)%Z then Ok ZeroDivisionError else Ok (Statistics s f)) /\
    s + f = Z.to_nat 2 /\
    rotations (events_since Failure.su_refused
                 (snd (_ip_change_loop 2 30 Failure.su_refused))) = Z.to_nat 2 /\
    reports (events_since Failure.su_refused
               (snd (_ip_change_loop 2 30 Failure.su_refused))) = Z.to_nat 2.
Proof.
  apply (ip_change_loop_counts 2 30 Failure.su_refused).
  - exact good_su_refused.
  - intros n. discriminate.
  - vm_compute. reflexivity.
Defined.

(** X17.  Without a registration that returned [True], [_ip_change_loop] does
    nothing after [register]: no rotation is started, no report is posted,
    [su] and the address resolver of the rotation are not called, and the
    history file is left alone. *)
Theorem unregistered_never_rotates (count interval : Z) (w : World) :
  fst (register w) <> Ok true ->
  (fst (_ip_change_loop count interval w) = Ok NotRegistered \/
   fst (_ip_change_loop count interval w) = Raise KeyboardInterrupt) /\
  snd (_ip_change_loop count interval w) = snd (register w) /\
  rotations (events_since w (snd (_ip_change_loop count interval w))) = 0 /\
  reports (events_since w (snd (_ip_change_loop count interval w))) = 0 /\
  calls (snd (_ip_change_loop count interval w)) ChSu = calls w ChSu /\
  calls (snd (_ip_change_loop count interval w)) ChIcanhazip = calls w ChIcanhazip /\
  store (snd (_ip_change_loop count interval w)) = store w.
Proof.
  intros Hreg.
  destruct (register_calm w) as (_ & _ & _ & evs0 & T0 & F0).
  pose proof (register_same_store w) as Hs. unfold same_on in Hs.
  destruct (register_rotation w) as (_ & Hc).
  pose proof (register_raise w) as Hraise.
  destruct (calm_counts _ F0) as [Hrep0 Hrot0].
  assert (Hsnd : snd (_ip_change_loop count interval w) = snd (register w) /\
                 (fst (_ip_change_loop count interval w) = Ok NotRegistered \/
                  fst (_ip_change_loop count interval w) = Raise KeyboardInterrupt)).
  { unfold _ip_change_loop, bind.
    destruct (register w) as [[[|]|e] w1]; cbn in *.
    - congruence.
    - auto.
    - rewrite (Hraise e eq_refl). auto. }
  destruct Hsnd as [Hsnd Hfst]. rewrite Hsnd.
  rewrite (events_since_exact _ _ _ T0).
  split; [exact Hfst |]. split; [reflexivity |].
  split; [exact Hrot0 |]. split; [exact Hrep0 |].
  split; [apply Hc; reflexivity |]. split; [apply Hc; reflexivity | exact Hs].
Qed.

Lemma unregistered_never_rotates_witness :
  (fst (_ip_change_loop 3 30 Server.report_lost) = Ok NotRegistered \/
   fst (_ip_change_loop 3 30 Server.report_lost) = Raise KeyboardInterrupt) /\
  snd (_ip_change_loop 3 30 Server.report_lost) = snd (register Server.report_lost) /\
  rotations (events_since Server.report_lost
               (snd (_ip_change_loop 3 30 Server.report_lost))) = 0 /\
  reports (events_since Server.report_lost
             (snd (_ip_change_loop 3 30 Server.report_lost))) = 0 /\
  calls (snd (_ip_change_loop 3 30 Server.report_lost)) ChSu =
    calls Server.report_lost ChSu /\
  calls (snd (_ip_change_loop 3 30 Server.report_lost)) ChIcanhazip =
    calls Server.report_lost ChIcanhazip /\
  store (snd (_ip_change_loop 3 30 Server.report_lost)) = store Server.report_lost.
Proof.
  apply (unregistered_never_rotates 3 30 Server.report_lost).
  vm_compute. discriminate.
Defined.


(* ===================================================================== *)
(** * The server address of the menu: facts *)
(* ===================================================================== *)

Lemma split_on_nonempty (sep : ascii) (s : string) : split_on sep s <> [].
Proof.
  destruct s as [|c r]; simpl; [discriminate |].
  destruct (Ascii.eqb c sep); [discriminate |].
  destruct (split_on sep r); discriminate.
Qed.

Lemma split_on_single (sep : ascii) (s : string) :
  contains_char sep s = false -> split_on sep s = [s].
Proof.
  induction s as [|c r IH]; simpl; intros H; [reflexivity |].
  apply orb_false_iff in H. destruct H as [Hc Hr].
  rewrite Hc, (IH Hr). reflexivity.
Qed.

Lemma split_on_app (sep : ascii) (a b : string) :
  exists p ps, split_on sep (a ++ String sep b) = (p :: ps) ++ split_on sep b.
Proof.
  induction a as [|c a IH]; simpl.
  - rewrite Ascii.eqb_refl. exists EmptyString, []. reflexivity.
  - destruct IH as (p & ps & ->).
    destruct (Ascii.eqb c sep).
    + exists EmptyString, (p :: ps). reflexivity.
    + exists (String c p), ps. reflexivity.
Qed.

Lemma last_app_nonempty {A} (l r : list A) (d : A) : r <> [] -> last (l ++ r) d = last r d.
Proof.
  intros H. induction l as [|x l IH]; [reflexivity |].
  simpl. destruct (l ++ r) eqn:E; [| exact IH].
  apply app_eq_nil in E. destruct E. congruence.
Qed.

(** The part after the last slash. *)
Lemma last_part_app (a b : string) :
  contains_char "/" b = false ->
  last (split_on "/" (a ++ String "/" b)) EmptyString = b.
Proof.
  intros H. destruct (split_on_app "/" a b) as (p & ps & ->).
  rewrite last_app_nonempty by apply split_on_nonempty.
  rewrite (split_on_single _ _ H). reflexivity.
Qed.

Lemma last_char_app (a b : string) :
  b <> EmptyString -> last_char (a ++ b) = last_char b.
Proof.
  intros H. induction a as [|c a IH]; [reflexivity |].
  simpl. destruct (a ++ b)%string eqn:E; [| exact IH].
  destruct a; simpl in E; [congruence | discriminate].
Qed.

Lemma rstrip_fixed (s : string) (l : ascii) :
  last_char s = Some l -> is_space l = false -> rstrip s = s.
Proof.
  induction s as [|c r IH]; simpl; intros H Hl; [reflexivity |].
  destruct r as [|c' r'].
  - inversion H; subst. simpl. rewrite Hl. reflexivity.
  - rewrite (IH H Hl). reflexivity.
Qed.

Lemma strip_fixed (s : string) : clean_ends s -> strip s = s.
Proof.
  destruct s as [|c r]; [reflexivity |].
  intros (Hc & l & Hl & Hs). unfold strip.
  rewrite lstrip_fixed by exact Hc. exact (rstrip_fixed _ _ Hl Hs).
Qed.

Lemma truthy_app (a b : string) : truthy a = true -> truthy (a ++ b) = true.
Proof. destruct a; [discriminate | reflexivity]. Qed.

Lemma prefix_app_more (p a b : string) : prefix p a = true -> prefix p (a ++ b) = true.
Proof.
  revert a. induction p as [|c p IH]; intros a H.
  - destruct (a ++ b)%string; reflexivity.
  - destruct a as [|c' a]; simpl in *; [discriminate |].
    destruct (ascii_dec c c'); [apply IH; exact H | discriminate].
Qed.

(** The address completed by [set_server_ip] has a scheme and is clean. *)
Lemma complete_address_clean (s : string) :
  truthy s = true -> clean_ends s ->
  has_scheme (complete_address s) = true /\
  truthy (complete_address s) = true /\
  clean_ends (complete_address s).
Proof.
  intros Ht Hc. unfold complete_address.
  destruct (has_scheme s) eqn:Hs; cbn [negb]; [auto |].
  destruct s as [|c r]; [discriminate |].
  destruct Hc as (_ & l & Hl & Hsp).
  destruct (contains_char ":" (last (split_on "/" (String c r)) "")); cbn [negb].
  - split; [reflexivity |]. split; [reflexivity |].
    split; [reflexivity |]. exists l. split; [| exact Hsp].
    rewrite last_char_app by discriminate. exact Hl.
  - split; [reflexivity |]. split; [reflexivity |].
    split; [reflexivity |]. exists "0"%char. split; [| reflexivity].
    rewrite last_char_app by (destruct r; discriminate).
    rewrite last_char_app by discriminate. reflexivity.
Qed.

(** X18.  An empty or blank line cancels [set_server_ip]; any other line stores
    an address that starts with [http://] or [https://], which is the
    stripped line itself when that has a scheme, and [http://] followed by
    the stripped line, and by [:8000] when its last path segment has no
    colon, otherwise.  Entering a stored address again stores the same. *)
Theorem set_server_ip_stores (line : string) :
  (set_server_ip line = None <-> strip line = EmptyString) /\
  (forall addr, set_server_ip line = Some addr ->
     has_scheme addr = true /\
     (has_scheme (strip line) = true -> addr = strip line) /\
     (has_scheme (strip line) = false ->
        addr = ("http://" ++ strip line)%string \/
        addr = ("http://" ++ strip line ++ ":8000")%string) /\
     set_server_ip addr = Some addr).
Proof.
  unfold set_server_ip. cbv zeta.
  destruct (strip_clean line) as [Hclean _].
  destruct (strip line) as [|c r] eqn:Es.
  - split; [split; reflexivity | discriminate].
  - cbn [truthy]. split; [split; discriminate |].
    intros addr H. inversion H; subst. clear H.
    destruct (complete_address_clean (String c r) eq_refl Hclean) as (Hs & Ht & Hc).
    split; [exact Hs |].
    split; [intros Hy; unfold complete_address; rewrite Hy; reflexivity |].
    split.
    + intros Hn. unfold complete_address. rewrite Hn. cbn [negb].
      destruct (contains_char ":" (last (split_on "/" (String c r)) "")); auto.
    + rewrite (strip_fixed _ Hc), Ht.
      unfold complete_address at 1. rewrite Hs. reflexivity.
Qed.

(** X19.  For an input without a scheme the port test of [set_server_ip] looks
    at the text after the last slash only: when that text has no colon,
    [:8000] is put at the end of the whole input, behind the path, whether
    the host part names a port or not. *)
Theorem set_server_ip_port_after_path (host path : string) :
  has_scheme (host ++ String "/" path) = false ->
  contains_char "/" path = false ->
  contains_char ":" path = false ->
  complete_address (host ++ String "/" path) =
    ("http://" ++ host ++ String "/" path ++ ":8000")%string.
Proof.
  intros Hs Hp Hc. unfold complete_address.
  rewrite Hs, (last_part_app _ _ Hp), Hc. cbn [negb].
  rewrite string_app_assoc. reflexivity.
Qed.

Lemma set_server_ip_port_after_path_witness :
  complete_address ("10.0.0.5:9000" ++ String "/" "api") =
    ("http://" ++ "10.0.0.5:9000" ++ String "/" "api" ++ ":8000")%string.
Proof. apply set_server_ip_port_after_path; reflexivity. Defined.


Lemma rstrip_char_last (c : ascii) (s : string) : last_char (rstrip_char c s) <> Some c.
Proof.
  induction s as [|a r IH]; simpl; [discriminate |].
  destruct (rstrip_char c r) as [|b t] eqn:E.
  - destruct (Ascii.eqb a c) eqn:Ea; simpl; [discriminate |].
    intros H. inversion H; subst. rewrite Ascii.eqb_refl in Ea. discriminate.
  - exact IH.
Qed.

Lemma rstrip_char_fixed (c : ascii) (s : string) :
  last_char s <> Some c -> rstrip_char c s = s.
Proof.
  induction s as [|a r IH]; simpl; intros H; [reflexivity |].
  destruct r as [|b t].
  - simpl. destruct (Ascii.eqb a c) eqn:Ea; [| reflexivity].
    apply Ascii.eqb_eq in Ea. subst. congruence.
  - rewrite (IH H). reflexivity.
Qed.

(** X20.  The [server_url] of the agent is the configured address without the
    slashes at its end, and nothing else is removed: it does not end in a
    slash, so that the paths the agent appends start at exactly one slash,
    and an address without a final slash is kept as it is. *)
Theorem server_url_no_final_slash (configured : string) :
  last_char (server_url configured) <> Some "/"%char /\
  (exists k, configured = (server_url configured ++ slashes k)%string) /\
  server_url (server_url configured) = server_url configured /\
  (last_char configured <> Some "/"%char -> server_url configured = configured).
Proof.
  unfold server_url.
  split; [apply rstrip_char_last |].
  split; [| split; [apply rstrip_char_fixed, rstrip_char_last | apply rstrip_char_fixed]].
  induction configured as [|a r IH]; simpl; [exists 0; reflexivity |].
  destruct IH as (k & Hk).
  destruct (rstrip_char "/" r) as [|b t] eqn:E.
  - simpl in Hk. destruct (Ascii.eqb a "/") eqn:Ea.
    + apply Ascii.eqb_eq in Ea. subst a. exists (S k). simpl. rewrite <- Hk. reflexivity.
    + exists k. simpl. rewrite <- Hk. reflexivity.
  - exists k. simpl. simpl in Hk. rewrite <- Hk. reflexivity.
Qed.


(* ===================================================================== *)
(** * The footprint of a rotation *)
(* ===================================================================== *)

Ltac rotation_leaf :=
  first
    [ solve [eauto]
    | apply grows_emit; solve [cbv [rotation_event]; auto]
    | apply grows_ask
    | let w := fresh "w" in
      intros w;
      cbv beta delta [os_path_exists file_write file_read file_append lift_result];
      simpl;
      repeat match goal with
        | |- context [match ?x with _ => _ end] => destruct x; simpl
        end;
      solve [apply grows_silent; simpl; auto] ].

Ltac rotation_steps := keeps_with (grows_preorder rotation_event) rotation_leaf.

Lemma get_public_ipv4_footprint : keeps (grows rotation_event) get_public_ipv4.
Proof. unfold get_public_ipv4, requests_get. rotation_steps. Qed.

Lemma confirmed_footprint (ip : string) : keeps (grows rotation_event) (confirmed ip).
Proof. unfold confirmed, record_ip. rotation_steps. Qed.

Lemma confirm_loop_footprint (attempt : nat) :
  keeps (grows rotation_event) (confirm_loop attempt).
Proof.
  pose proof get_public_ipv4_footprint as Hg. pose proof confirmed_footprint as Hc.
  induction attempt as [attempt IH] using attempts_ind.
  rewrite confirm_loop_unroll.
  destruct (lt_dec attempt max_attempts) as [Hlt|Hge]; [specialize (IH Hlt) |];
    cbv zeta; rotation_steps.
Qed.

Lemma change_mobile_ip_at_phone_footprint :
  keeps (grows rotation_event) change_mobile_ip_at_phone.
Proof.
  pose proof get_public_ipv4_footprint as Hg. pose proof confirm_loop_footprint as Hc.
  unfold change_mobile_ip_at_phone, toggle_airplane_mode, subprocess_su, load_device_name.
  rotation_steps.
Qed.

Lemma or_else_truthy (o : option string) (d : string) :
  truthy d = true -> truthy (or_else o d) = true.
Proof. intros H. destruct o as [[|c s]|]; simpl; auto. Qed.

(** X21.  A rotation reaches the outside world only through the resolver of
    [ip_manager.py], asked with a timeout of ten seconds, and through
    [su]; it pauses for 2, 3 or 4 seconds at a time; it sends nothing to
    the agent's server, asks no echo service and runs no [curl].  When it
    returns, it has read the clock twice, the reported duration is the
    difference of the two readings, and neither address of the result is
    empty. *)
Theorem rotation_footprint (w : World) :
  Forall rotation_event (events_since w (snd (IPManager_change_ip w))) /\
  forall r, fst (IPManager_change_ip w) = Ok r ->
    calls (snd (IPManager_change_ip w)) ChClock = calls w ChClock + 2 /\
    change_duration r =
      (clock (env w) (S (calls w ChClock)) - clock (env w) (calls w ChClock))%Z /\
    truthy (old_ip r) = true /\
    truthy (new_ip r) = true.
Proof.
  split.
  - pose proof get_public_ipv4_footprint as Hg.
    pose proof change_mobile_ip_at_phone_footprint as Hc.
    assert (Hk : keeps (grows rotation_event) IPManager_change_ip)
      by (unfold IPManager_change_ip, time_time; cbv zeta; rotation_steps).
    apply (grows_events _ _ _ (Hk w)).
  - intros r H. apply run_eq in H.
    set (w' := snd (IPManager_change_ip w)) in *.
    unfold IPManager_change_ip, time_time in H. rewrite bind_ask in H.
    apply bind_inv in H. destruct H as (old & w1 & Hold & H). cbv zeta in H.
    apply bind_inv in H. destruct H as (new & w2 & Hnew & H).
    rewrite bind_ask in H.
    destruct (untouched_run _ _ _ _ ChClock get_public_ipv4_clock Hold) as [He1 Hc1].
    destruct (untouched_run _ _ _ _ ChClock change_mobile_ip_at_phone_clock Hnew)
      as [He2 Hc2].
    assert (Hcalls : calls w2 ChClock = S (calls w ChClock))
      by (rewrite Hc2, Hc1; reflexivity).
    assert (Henv : env w2 = env w) by (rewrite He2, He1; reflexivity).
    rewrite Hcalls, Henv in H.
    destruct (is_truthy new && differs new (or_else old "Unknown")) eqn:Ec;
      inversion H as [[Hr Hw]]; cbn.
    + rewrite Hcalls. split; [lia |]. split; [reflexivity |].
      split; [apply or_else_truthy; reflexivity |].
      apply andb_true_iff in Ec. destruct Ec as [Ec _].
      destruct new as [ip|]; [exact Ec | discriminate].
    + rewrite Hcalls. split; [lia |]. split; [reflexivity |].
      split; apply or_else_truthy; reflexivity.
Qed.


(* ===================================================================== *)
(** * Command polls *)
(* ===================================================================== *)

Lemma only_fetch_ask {A} (c : channel) (f : Env -> nat -> A) :
  is_server_channel c = false -> keeps (untouched (only ChFetch)) (ask c f).
Proof. intros H. apply untouched_ask. destruct c; try reflexivity; discriminate. Qed.

Lemma IPManager_change_ip_fetch : keeps (untouched (only ChFetch)) IPManager_change_ip.
Proof.
  apply IPManager_change_ip_step;
    first [ apply untouched_preorder
          | intros e _ _; apply untouched_emit
          | intros A; exact only_fetch_ask
          | intros s w; split; auto ].
Qed.

Lemma get_current_ip_fetch : keeps (untouched (only ChFetch)) get_current_ip.
Proof.
  apply get_current_ip_step;
    first [ apply untouched_preorder
          | intros e _ _; apply untouched_emit
          | intros A; exact only_fetch_ask
          | intros s w; split; auto ].
Qed.

Lemma send_status_fetch : keeps (untouched (only ChFetch)) send_status.
Proof.
  pose proof get_current_ip_fetch as H.
  unfold send_status, session_post. untouched_auto (only ChFetch).
Qed.

Lemma for_each_command_fetch (cs : list Command) :
  keeps (untouched (only ChFetch)) (for_each_command cs).
Proof.
  pose proof IPManager_change_ip_fetch as Hr. pose proof send_status_fetch as Hs.
  induction cs as [|c cs IH]; simpl;
    unfold execute_command, command_get, DeviceAgent_change_ip, session_post; cbv zeta;
    untouched_auto (only ChFetch).
Qed.

(** [check_commands] asks the server once, whatever the answer is and
    whatever the commands do. *)
Lemma check_commands_fetches (w : World) :
  calls (snd (check_commands w)) ChFetch = S (calls w ChFetch).
Proof.
  set (w2 := bump ChFetch (add_event (EvFetch 10) (add_event (EvCall CheckCommands) w))).
  assert (Hc : calls w2 ChFetch = S (calls w ChFetch)) by reflexivity.
  unfold check_commands, try_except, session_get_commands, bind, emit, ask. simpl.
  destruct (fetch (env w) (calls w ChFetch)) as [[status cs]|e]; simpl.
  - destruct (status =? 200)%Z; simpl; [| reflexivity].
    match goal with |- context [for_each_command cs ?x] => change x with w2 end.
    destruct (for_each_command_fetch cs w2) as (_ & Hk).
    specialize (Hk ChFetch eq_refl).
    destruct (for_each_command cs w2) as [[u|e] w3]; simpl in *; rewrite Hk; exact Hc.
  - reflexivity.
Qed.

Lemma tick_block_run (lc ls : Z) (w : World) :
  let now := clock (env w) (calls w ChClock) in
  let polls := (now - lc >=? command_interval)%Z in
  let reports_status := (now - ls >=? status_interval)%Z in
  tick_block lc ls w =
    (Ok (Continue (if polls then now else lc) (if reports_status then now else ls)),
     snd (tick_block lc ls w)) /\
  calls (snd (tick_block lc ls w)) ChFetch =
    calls w ChFetch + (if polls then 1 else 0).
Proof.
  cbv zeta. unfold tick_block, time_time. rewrite bind_ask.
  set (w0 := bump ChClock w). set (now := clock (env w) (calls w ChClock)).
  assert (H1 : exists w1,
             (if (now - lc >=? command_interval)%Z
              then check_commands;; ret now else ret lc) w0 =
             (Ok (if (now - lc >=? command_interval)%Z then now else lc), w1) /\
             calls w1 ChFetch =
               calls w ChFetch + (if (now - lc >=? command_interval)%Z then 1 else 0)).
  { destruct (now - lc >=? command_interval)%Z.
    - exists (snd (check_commands w0)). split.
      + rewrite (bind_ok _ _ _ _ _ (run_eq _ _ _ (check_commands_ok w0))). reflexivity.
      + rewrite check_commands_fetches. cbn. lia.
    - exists w0. split; [reflexivity | cbn; lia]. }
  destruct H1 as (w1 & E1 & Hc1). rewrite (bind_ok _ _ _ _ _ E1).
  assert (H2 : exists w2,
             (if (now - ls >=? status_interval)%Z
              then send_status;; ret now else ret ls) w1 =
             (Ok (if (now - ls >=? status_interval)%Z then now else ls), w2) /\
             calls w2 ChFetch = calls w1 ChFetch).
  { destruct (now - ls >=? status_interval)%Z.
    - exists (snd (send_status w1)). split.
      + rewrite (bind_ok _ _ _ _ _ (run_eq _ _ _ (send_status_ok w1))). reflexivity.
      + destruct (send_status_fetch w1) as (_ & Hk). apply Hk. reflexivity.
    - exists w1. split; reflexivity. }
  destruct H2 as (w2 & E2 & Hc2). rewrite (bind_ok _ _ _ _ _ E2).
  rewrite bind_sleep. cbn. split; [reflexivity |]. rewrite Hc2. exact Hc1.
Qed.

(** X22.  A pass of the loop of [run] fetches commands exactly when at least
    five seconds of clock time have passed since the pass that fetched
    last, and then once only, whatever the commands do; it remembers the
    time of the fetch, and of the status report that is due after thirty
    seconds, for the passes to come.  Hence a loop of [fuel] passes fetches
    commands [fuel] times at most. *)
Theorem pass_polls_when_due (lc ls : Z) (w : World) :
  (let now := clock (env w) (calls w ChClock) in
   let polls := (now - lc >=? command_interval)%Z in
   let reports_status := (now - ls >=? status_interval)%Z in
   fst (tick lc ls w) =
     Ok (Continue (if polls then now else lc) (if reports_status then now else ls)) /\
   calls (snd (tick lc ls w)) ChFetch = calls w ChFetch + (if polls then 1 else 0)) /\
  forall fuel,
    calls (snd (run_loop fuel lc ls w)) ChFetch <= calls w ChFetch + fuel.
Proof.
  assert (Htick : forall lc ls w,
             tick lc ls w = tick_block lc ls w).
  { intros lc0 ls0 w0. unfold tick, try_except.
    destruct (tick_block_run lc0 ls0 w0) as [E _]. cbv zeta in E.
    rewrite E. reflexivity. }
  split.
  - cbv zeta. rewrite Htick.
    destruct (tick_block_run lc ls w) as [E Hc]. cbv zeta in E, Hc.
    split; [rewrite E; reflexivity | exact Hc].
  - intros fuel. revert lc ls w.
    induction fuel as [|fuel IH]; intros lc ls w; simpl.
    + destruct (running w); cbn; lia.
    + destruct (running w); [| cbn; lia].
      destruct (tick_block_run lc ls w) as [E Hc]. cbv zeta in E, Hc.
      rewrite <- Htick in E, Hc.
      rewrite (bind_ok _ _ _ _ _ E).
      match goal with
      | |- calls (snd (run_loop fuel ?a ?b ?x)) ChFetch <= _ =>
          specialize (IH a b x)
      end.
      destruct (clock (env w) (calls w ChClock) - lc >=? command_interval)%Z; lia.
Qed.
